(** * super-gradients: detection head decoding, inference pipeline and
      knowledge-distillation module

    A shallow embedding of
      - [training/models/detection_models/deci_yolo/dfl_heads.py]
        ([DeciYOLODFLHead], [NDFLHeads] and the tensor operations they call),
      - [training/pipelines/pipelines.py] ([eval_mode], [Pipeline._run],
        [DetectionPipeline]),
      - [training/models/kd_modules/kd_module.py] ([KDModule]),
      - [examples/cifar10_training_torch_objects/yolox_training_native.py]
        ([get_targets_prep_collate_fn]).

    Tensors are dense row-major arrays of real numbers: [float32] arithmetic
    is idealised as arithmetic over [R].  An operation that raises in
    Python returns [None].  What the files import from modules that are
    not among the sources is a parameter: a field of a class ([Modules],
    [PPYoloE], [External], [ArchParams]), of a record of methods, or an
    argument. *)

From Stdlib Require Import Reals Lia Lra List ZArith Bool PeanoNat.
From stdpp Require Import gmap strings.
Import ListNotations.

Notation "'do' x <- m ; k" :=
  (match m with Some x => k | None => None end)
  (at level 10, x pattern, m at level 100, k at level 200, only parsing).

(** ** Tensors and the tensor operations used by the sources *)

Module Torch.

Local Open Scope nat_scope.

(** A tensor: its shape and its elements in row-major (C-contiguous) order. *)
Record Tensor := mkTensor { shape : list nat; data : list R }.

(** Number of elements of a shape. *)
Fixpoint numel (sh : list nat) : nat :=
  match sh with
  | [] => 1
  | d :: ds => d * numel ds
  end.

(** Row-major offset of a multi-index. *)
Fixpoint ravel (sh idx : list nat) : nat :=
  match sh, idx with
  | _ :: ds, i :: is' => i * numel ds + ravel ds is'
  | _, _ => 0
  end.

(** Multi-index of a row-major offset. *)
Fixpoint unravel (sh : list nat) (k : nat) : list nat :=
  match sh with
  | [] => []
  | _ :: ds => k / numel ds :: unravel ds (k mod numel ds)
  end.

(** [t[idx]] *)
Definition get (t : Tensor) (idx : list nat) : R :=
  nth (ravel (shape t) idx) (data t) 0%R.

(** The tensor of shape [sh] whose element at [idx] is [f idx]. *)
Definition tabulate (sh : list nat) (f : list nat -> R) : Tensor :=
  mkTensor sh (map (fun k => f (unravel sh k)) (seq 0 (numel sh))).

Definition well_formed (t : Tensor) : Prop :=
  length (data t) = numel (shape t).

Definition in_bounds (sh idx : list nat) : Prop := Forall2 lt idx sh.

(** Sum of [f 0 .. f (n-1)]. *)
Definition sumR (f : nat -> R) (n : nat) : R :=
  fold_right Rplus 0%R (map f (seq 0 n)).

(** A dimension argument may be negative (counted from the end). *)
Definition norm_dim (rank : nat) (d : Z) : option nat :=
  if (0 <=? d)%Z then
    if (d <? Z.of_nat rank)%Z then Some (Z.to_nat d) else None
  else
    if (- Z.of_nat rank <=? d)%Z then Some (Z.to_nat (Z.of_nat rank + d)) else None.

(** [torch.zeros(sh)] *)
Definition zeros (sh : list nat) : Tensor :=
  mkTensor sh (repeat 0%R (numel sh)).

(** [torch.linspace(start, end, steps)]: [steps] evenly spaced points,
    the single point [start] when [steps = 1]. *)
Definition linspace (start stop : R) (steps : nat) : Tensor :=
  mkTensor [steps]
    (map (fun i => if steps =? 1 then start
                   else (start + INR i * ((stop - start) / INR (steps - 1)))%R)
         (seq 0 steps)).

(** Shape inference of [reshape]: at most one entry may be [-1]; it is
    inferred from the number of elements.  [None] stands for the
    [RuntimeError] torch raises. *)
Definition infer_shape (n : nat) (spec : list Z) : option (list nat) :=
  if existsb (fun d => d <? -1)%Z spec then None
  else
    let known := numel (map Z.to_nat (List.filter (fun d => negb (d =? -1)%Z) spec)) in
    match count_occ Z.eq_dec spec (-1)%Z with
    | 0 => if n =? known then Some (map Z.to_nat spec) else None
    | 1 =>
        if known =? 0 then None
        else if n mod known =? 0
             then Some (map (fun d => if (d =? -1)%Z then n / known else Z.to_nat d) spec)
             else None
    | _ => None
    end.

(** [t.reshape(spec)]: same elements in the same row-major order. *)
Definition reshape (t : Tensor) (spec : list Z) : option Tensor :=
  do sh <- infer_shape (numel (shape t)) spec;
  Some (mkTensor sh (data t)).

(** [t.flatten(start_dim)] *)
Definition flatten (t : Tensor) (start_dim : nat) : option Tensor :=
  if start_dim <? length (shape t)
  then Some (mkTensor (firstn start_dim (shape t) ++ [numel (skipn start_dim (shape t))])
                      (data t))
  else None.

(** [perm] is a permutation of [0 .. n-1]. *)
Definition is_perm (n : nat) (perm : list nat) : bool :=
  (length perm =? n) && forallb (fun j => existsb (Nat.eqb j) perm) (seq 0 n).

(** Position of the first occurrence of [j] in [perm]. *)
Fixpoint position (j : nat) (perm : list nat) : nat :=
  match perm with
  | [] => 0
  | p :: ps => if p =? j then 0 else S (position j ps)
  end.

Definition permute_list (perm l : list nat) : list nat :=
  map (fun p => nth p l 0) perm.

Definition unpermute_list (perm l : list nat) : list nat :=
  map (fun j => nth (position j perm) l 0) (seq 0 (length perm)).

(** [torch.permute(t, perm)]: dimension [i] of the result is dimension
    [perm[i]] of [t]. *)
Definition permute (t : Tensor) (perm : list nat) : option Tensor :=
  if is_perm (length (shape t)) perm
  then Some (tabulate (permute_list perm (shape t))
                      (fun idx => get t (unpermute_list perm idx)))
  else None.

(** [idx] with its [dim]-th entry replaced by [k]. *)
Definition set_nth (dim k : nat) (idx : list nat) : list nat :=
  <[dim := k]> idx.

(** [torch.nn.functional.softmax(t, dim)] *)
Definition softmax (t : Tensor) (dim : nat) : option Tensor :=
  if dim <? length (shape t)
  then Some (tabulate (shape t) (fun idx =>
         (exp (get t idx)
          / sumR (fun k => exp (get t (set_nth dim k idx))) (nth dim (shape t) 0%nat))%R))
  else None.

(** [torch.nn.functional.conv2d(input, weight)] on a batched input, with
    the default stride 1, no padding, no bias, one group:
    a cross-correlation of [input] with every filter of [weight]. *)
Definition conv2d (input weight : Tensor) : option Tensor :=
  match shape input, shape weight with
  | [n; c; h; w], [o; c'; kh; kw] =>
      if (c =? c') && (kh <=? h) && (kw <=? w)
      then Some (tabulate [n; o; h - kh + 1; w - kw + 1] (fun idx =>
             match idx with
             | [b; oc; y; x] =>
                 sumR (fun ci =>
                   sumR (fun i =>
                     sumR (fun j =>
                       Rmult (get input [b; ci; y + i; x + j]) (get weight [oc; ci; i; j]))
                       kw) kh) c
             | _ => 0%R
             end))
      else None
  | _, _ => None
  end.

(** [l] without its [dim]-th entry. *)
Definition remove_nth (dim : nat) (l : list nat) : list nat :=
  firstn dim l ++ skipn (S dim) l.

(** [t.squeeze(dim)]: drops dimension [dim] when its size is 1. *)
Definition squeeze (t : Tensor) (dim : nat) : option Tensor :=
  if dim <? length (shape t)
  then Some (if nth dim (shape t) 0 =? 1
             then mkTensor (remove_nth dim (shape t)) (data t)
             else t)
  else None.

(** Element of the concatenation of [ts] along [dim]. *)
Fixpoint cat_get (ts : list Tensor) (dim : nat) (idx : list nat) : R :=
  match ts with
  | [] => 0%R
  | t :: ts' =>
      let d := nth dim (shape t) 0 in
      let i := nth dim idx 0 in
      if i <? d then get t idx else cat_get ts' dim (set_nth dim (i - d) idx)
  end.

Definition list_eqb (l1 l2 : list nat) : bool :=
  (length l1 =? length l2) && forallb (fun p => fst p =? snd p) (combine l1 l2).

(** [torch.cat(ts, dim)]: the tensors agree on every dimension but [dim]. *)
Definition cat (ts : list Tensor) (dim : Z) : option Tensor :=
  match ts with
  | [] => None
  | t0 :: _ =>
      do d <- norm_dim (length (shape t0)) dim;
      if forallb (fun t => list_eqb (remove_nth d (shape t)) (remove_nth d (shape t0))
                           && (length (shape t) =? length (shape t0))) ts
      then Some (tabulate
                   (set_nth d (fold_right (fun t acc => nth d (shape t) 0 + acc) 0 ts)
                            (shape t0))
                   (cat_get ts d))
      else None
  end.

(** [t.sigmoid()] *)
Definition sigmoid (t : Tensor) : Tensor :=
  mkTensor (shape t) (map (fun x => (1 / (1 + exp (- x)))%R) (data t)).

(** Broadcasting of two shapes, aligned at their last dimensions. *)
Fixpoint broadcast_rev (s1 s2 : list nat) : option (list nat) :=
  match s1, s2 with
  | [], s => Some s
  | s, [] => Some s
  | a :: s1', b :: s2' =>
      do r <- broadcast_rev s1' s2';
      if a =? b then Some (a :: r)
      else if a =? 1 then Some (b :: r)
      else if b =? 1 then Some (a :: r)
      else None
  end.

Definition broadcast_shapes (s1 s2 : list nat) : option (list nat) :=
  do r <- broadcast_rev (rev s1) (rev s2); Some (rev r).

(** The index into a tensor of shape [sh] that the index [idx] of the
    broadcast result reads. *)
Definition broadcast_index (sh idx : list nat) : list nat :=
  map (fun p => if fst p =? 1 then 0 else snd p)
      (combine sh (skipn (length idx - length sh) idx)).

(** [a * b] with broadcasting. *)
Definition mul (a b : Tensor) : option Tensor :=
  do sh <- broadcast_shapes (shape a) (shape b);
  Some (tabulate sh (fun idx =>
    (get a (broadcast_index (shape a) idx) * get b (broadcast_index (shape b) idx))%R)).

(** Size along [d] of the concatenation of [ts]. *)
Definition dim_total (d : nat) (ts : list Tensor) : nat :=
  fold_right (fun t acc => nth d (shape t) 0 + acc) 0 ts.

(** [torch.arange(n)] *)
Definition arange (n : nat) : Tensor :=
  mkTensor [n] (map INR (seq 0 n)).

(** [torch.meshgrid([a, b], indexing="ij")] of two one-dimensional tensors:
    two tensors of shape [[len(a), len(b)]], the first repeating [a] along
    the columns, the second repeating [b] along the rows. *)
Definition meshgrid (a b : Tensor) : option (Tensor * Tensor) :=
  match shape a, shape b with
  | [n], [m] =>
      Some (tabulate [n; m] (fun idx => get a [nth 0 idx 0]),
            tabulate [n; m] (fun idx => get b [nth 1 idx 0]))
  | _, _ => None
  end.

(** [torch.stack(ts, dim)]: the tensors have one shape; the result has a
    new dimension of size [len(ts)] at [dim]. *)
Definition stack (ts : list Tensor) (dim : nat) : option Tensor :=
  match ts with
  | [] => None
  | t0 :: _ =>
      if (dim <=? length (shape t0)) && forallb (fun t => list_eqb (shape t) (shape t0)) ts
      then Some (tabulate (firstn dim (shape t0) ++ length ts :: skipn dim (shape t0))
                          (fun idx => get (nth (nth dim idx 0) ts t0) (remove_nth dim idx)))
      else None
  end.

(** [torch.nn.init.constant_(t, val)] *)
Definition constant_ (t : Tensor) (val : R) : Tensor :=
  mkTensor (shape t) (map (fun _ => val) (data t)).

End Torch.

(** ** [dfl_heads.py]: one [DeciYOLODFLHead] *)

Module DflHead.
Import Torch.

(** The arguments of a convolution layer: [in_channels], [out_channels],
    [kernel_size], [stride], [padding], [groups], [bias]. *)
Record ConvArgs := mkConvArgs {
  conv_in : Z;
  conv_out : Z;
  kernel_size : nat;
  conv_stride : nat;
  padding : nat;
  groups : Z;
  with_bias : bool
}.

(** A layer: the arguments it was built with, its bias when it has one, and
    what its other weights compute from the bias and the input. *)
Record Layer := mkLayer {
  args : ConvArgs;
  bias : option Tensor;
  fn : option Tensor -> Tensor -> option Tensor
}.

(** [layer(x)] *)
Definition Layer_call (l : Layer) (x : Tensor) : option Tensor := fn l (bias l) x.

(** The forward pass of an [nn.Sequential] of the layers. *)
Fixpoint Sequential (layers : list Layer) (x : Tensor) : option Tensor :=
  match layers with
  | [] => Some x
  | l :: layers' => do y <- Layer_call l x; Sequential layers' y
  end.

(** What the head imports: [width_multiplier] of [csp_darknet53],
    [ConvBNReLU] of [super_gradients.modules] and [nn.Conv2d].  A
    constructor draws the initial weights of the layer from a seed and
    raises ([None]) on arguments it rejects. *)
Class Modules := {
  Seed : Type;
  width_multiplier : Z -> R -> Z -> Z;
  ConvBNReLU : Seed -> ConvArgs -> option Layer;
  Conv2d : Seed -> ConvArgs -> option Layer
}.

Record DeciYOLODFLHead := mkDeciYOLODFLHead {
  num_classes : Z;
  stem : Layer;
  cls_convs : list Layer;
  reg_convs : list Layer;
  cls_pred : Layer;
  reg_pred : Layer;
  grid : Tensor;
  stride : Z;
  prior_prob : R
}.

(** [DeciYOLODFLHead._initialize_biases]: [math.log] raises on an argument
    that is not positive, the division on a zero [prior_prob], and
    [constant_] on a bias that is [None]. *)
Definition _initialize_biases (self : DeciYOLODFLHead) : option DeciYOLODFLHead :=
  let p := prior_prob self in
  if Req_dec_T p 0 then None
  else if Rlt_dec 0 ((1 - p) / p) then
    let prior_bias := (- ln ((1 - p) / p))%R in
    do b <- bias (cls_pred self);
    Some (mkDeciYOLODFLHead (num_classes self) (stem self) (cls_convs self) (reg_convs self)
            (mkLayer (args (cls_pred self)) (Some (constant_ b prior_bias))
                     (fn (cls_pred self)))
            (reg_pred self) (grid self) (stride self) (prior_prob self))
  else None.

Section WithModules.
Context `{Modules}.

Local Open Scope Z_scope.

(** Lines 24-29 of [__init__]: the number of groups of the first
    convolution of each branch. *)
Definition first_conv_groups (inter_channels first_conv_group_size : Z) : Z :=
  if first_conv_group_size =? 0 then 0
  else if first_conv_group_size =? -1 then 1
  else inter_channels / first_conv_group_size.

(** [[ConvBNReLU(c, c, kernel_size=3, stride=1, padding=1, groups=groups, bias=False)]
      if groups else []] *)
Definition first_conv (seed : Seed) (inter_channels groups : Z) : option (list Layer) :=
  if groups =? 0 then Some []
  else
    do l <- ConvBNReLU seed (mkConvArgs inter_channels inter_channels 3 1 1 groups false);
    Some [l].

(** [DeciYOLODFLHead.__init__]; [seeds] gives the seed of each of the seven
    layers, in the order they are built. *)
Definition __init__ (seeds : nat -> Seed) (in_channels inter_channels : Z) (width_mult : R)
    (first_conv_group_size num_classes stride reg_max : Z) : option DeciYOLODFLHead :=
  let inter_channels := width_multiplier inter_channels width_mult 8 in
  let groups := first_conv_groups inter_channels first_conv_group_size in
  do stem <- ConvBNReLU (seeds 0%nat) (mkConvArgs in_channels inter_channels 1 1 0 1 false);
  do first_cls_conv <- first_conv (seeds 1%nat) inter_channels groups;
  do cls_conv <- ConvBNReLU (seeds 2%nat)
                   (mkConvArgs inter_channels inter_channels 3 1 1 1 false);
  do first_reg_conv <- first_conv (seeds 3%nat) inter_channels groups;
  do reg_conv <- ConvBNReLU (seeds 4%nat)
                   (mkConvArgs inter_channels inter_channels 3 1 1 1 false);
  do cls_pred <- Conv2d (seeds 5%nat) (mkConvArgs inter_channels num_classes 1 1 0 1 true);
  do reg_pred <- Conv2d (seeds 6%nat)
                   (mkConvArgs inter_channels (4 * (reg_max + 1)) 1 1 0 1 true);
  _initialize_biases
    (mkDeciYOLODFLHead num_classes stem (first_cls_conv ++ [cls_conv])
       (first_reg_conv ++ [reg_conv]) cls_pred reg_pred (zeros [1%nat]) stride (1 / 100)%R).

End WithModules.

(** [DeciYOLODFLHead.forward]: [(reg_output, cls_output)] *)
Definition forward (self : DeciYOLODFLHead) (x : Tensor) : option (Tensor * Tensor) :=
  do x <- Layer_call (stem self) x;
  do cls_feat <- Sequential (cls_convs self) x;
  do cls_output <- Layer_call (cls_pred self) cls_feat;
  do reg_feat <- Sequential (reg_convs self) x;
  do reg_output <- Layer_call (reg_pred self) reg_feat;
  Some (reg_output, cls_output).

(** [DeciYOLODFLHead._make_grid]; [new_torch] is
    [torch_version_is_greater_or_equal(1, 10)].  The result of [stack] is
    contiguous, so [view] is [reshape]; the values are kept as reals by
    [float]. *)
Definition _make_grid (new_torch : bool) (nx ny : nat) : option Tensor :=
  do (yv, xv) <- (if new_torch then meshgrid (arange ny) (arange nx)
                  else meshgrid (arange ny) (arange nx));
  do s <- stack [xv; yv] 2;
  reshape s [1%Z; 1%Z; Z.of_nat ny; Z.of_nat nx; 2%Z].

(** *** Vocabulary of the statements about the head *)

(** The arguments of the 3x3 convolutions of the two branches. *)
Definition conv3 (c g : Z) : ConvArgs := mkConvArgs c c 3 1 1 g false.

(** Size of one spatial dimension of the output of a convolution. *)
Definition conv_out_size (a : ConvArgs) (n : nat) : nat :=
  (n + 2 * padding a - kernel_size a) / conv_stride a + 1.

(** The bias a layer is run with has one entry per output channel. *)
Definition bias_fits (a : ConvArgs) (b : option Tensor) : Prop :=
  match b with
  | Some t => shape t = [Z.to_nat (conv_out a)]
  | None => True
  end.

(** A layer built with the arguments [a] maps a batch of [conv_in a]
    channels to a batch of [conv_out a] channels, with the spatial sizes of
    a convolution; batch normalisation and the activation keep the shape. *)
Definition layer_shapes (a : ConvArgs) (l : Layer) : Prop :=
  forall b x B C H W,
    bias_fits a b ->
    shape x = [B; C; H; W] -> Z.of_nat C = conv_in a ->
    kernel_size a <= H + 2 * padding a -> kernel_size a <= W + 2 * padding a ->
    exists y, fn l b x = Some y /\
      shape y = [B; Z.to_nat (conv_out a); conv_out_size a H; conv_out_size a W].

(** The arguments a convolution accepts: [nn.Conv2d] raises a [ValueError]
    unless [groups] is positive and divides both numbers of channels. *)
Definition groups_valid (a : ConvArgs) : Prop :=
  (0 < groups a /\ conv_in a mod groups a = 0 /\ conv_out a mod groups a = 0)%Z.

(** What the statements assume of the constructors of the layers. *)
Record modules_ok `{Modules} : Prop := {
  (** a [ConvBNReLU] passes its arguments to an [nn.Conv2d] *)
  ConvBNReLU_raises : forall seed a, ~ groups_valid a -> ConvBNReLU seed a = None;
  Conv2d_raises : forall seed a, ~ groups_valid a -> Conv2d seed a = None;
  ConvBNReLU_builds :
    forall seed a, groups_valid a -> (0 < conv_in a)%Z -> (0 < conv_out a)%Z ->
      exists l, ConvBNReLU seed a = Some l;
  Conv2d_builds :
    forall seed a, groups_valid a -> (0 < conv_in a)%Z -> (0 < conv_out a)%Z ->
      exists l, Conv2d seed a = Some l;
  (** a [ConvBNReLU] has no [bias] attribute of its own *)
  ConvBNReLU_layer :
    forall seed a l, ConvBNReLU seed a = Some l ->
      args l = a /\ bias l = None /\ layer_shapes a l;
  (** an [nn.Conv2d] built with [bias=True] has a bias of one entry per
      output channel *)
  Conv2d_layer :
    forall seed a l, Conv2d seed a = Some l ->
      args l = a /\ layer_shapes a l /\
      (with_bias a = true ->
       exists b, bias l = Some b /\ shape b = [Z.to_nat (conv_out a)] /\ well_formed b)
}.

End DflHead.

(** ** [dfl_heads.py]: the [NDFLHeads] detection head *)

Module DflHeads.
Import Torch.

Local Open Scope nat_scope.

(** One [DeciYOLODFLHead]: maps a feature map to [(reg_output, cls_output)].
    The convolution stack is a learned function; it is kept abstract. *)
Definition Head : Type := Tensor -> option (Tensor * Tensor).

(** The attributes of an [NDFLHeads] instance.  [anchor_points] and
    [stride_tensor] do not exist until they are cached ([None]);
    [heads] holds [head1 .. headN]. *)
Record NDFLHeads := mkNDFLHeads {
  num_classes : nat;
  fpn_strides : list nat;
  grid_cell_scale : R;
  grid_cell_offset : R;
  reg_max : nat;
  eval_size : option (nat * nat);
  proj_conv : Tensor;
  anchor_points : option Tensor;
  stride_tensor : option Tensor;
  heads : list Head
}.

(** What [dfl_heads.py] imports from [pp_yolo_head] and [bbox_utils]. *)
Class PPYoloE := {
  (** [PPYOLOEHead._generate_anchors(self, feats=None)]:
      [(anchor_points, stride_tensor)] *)
  _generate_anchors : NDFLHeads -> option (list Tensor) -> option (Tensor * Tensor);
  (** [generate_anchors_for_grid_cell(feats, fpn_strides, grid_cell_scale, grid_cell_offset)]:
      [(anchors, anchor_points, num_anchors_list, stride_tensor)] *)
  generate_anchors_for_grid_cell :
    list Tensor -> list nat -> R -> R -> option (Tensor * Tensor * list nat * Tensor);
  (** [batch_distance2bbox(points, distance)] *)
  batch_distance2bbox : Tensor -> Tensor -> option Tensor
}.

Section WithPPYoloE.
Context `{PPYoloE}.

Definition set_anchors (self : NDFLHeads) (sz : option (nat * nat))
    (ap st : option Tensor) : NDFLHeads :=
  mkNDFLHeads (num_classes self) (fpn_strides self) (grid_cell_scale self)
    (grid_cell_offset self) (reg_max self) sz (proj_conv self) ap st (heads self).

(** [NDFLHeads.cache_anchors] *)
Definition cache_anchors (self : NDFLHeads) (input_size : nat * nat) : option NDFLHeads :=
  let self := set_anchors self (Some input_size) (anchor_points self) (stride_tensor self) in
  do (anchor_points, stride_tensor) <- _generate_anchors self None;
  Some (set_anchors self (eval_size self) (Some anchor_points) (Some stride_tensor)).

(** [NDFLHeads._init_weights] *)
Definition _init_weights (self : NDFLHeads) : option NDFLHeads :=
  match eval_size self with
  | Some _ =>
      do (anchor_points, stride_tensor) <- _generate_anchors self None;
      Some (set_anchors self (eval_size self) (Some anchor_points) (Some stride_tensor))
  | None => Some self
  end.

(** Line 119 of [__init__]: the weights of the projection. *)
Definition proj_of (reg_max : nat) : option Tensor :=
  reshape (linspace 0 (INR reg_max) (reg_max + 1))
          [1%Z; Z.of_nat (reg_max + 1); 1%Z; 1%Z].

(** [NDFLHeads.__init__]; [heads_list] stands for the heads the factory builds. *)
Definition __init__ (num_classes : nat) (heads_list : list Head) (fpn_strides : list nat)
    (grid_cell_scale grid_cell_offset : R) (reg_max : nat)
    (eval_size : option (nat * nat)) : option NDFLHeads :=
  do proj <- proj_of reg_max;
  do self <- _init_weights
               (mkNDFLHeads num_classes fpn_strides grid_cell_scale grid_cell_offset
                            reg_max eval_size proj None None []);
  Some (mkNDFLHeads num_classes fpn_strides grid_cell_scale grid_cell_offset
                    reg_max eval_size proj (anchor_points self) (stride_tensor self)
                    heads_list).

(** Lines 181-182 of [forward_eval]: the distribution over the
    [reg_max + 1] bins of each box side is turned into one distance. *)
Definition reg_dist_reduce (self : NDFLHeads) (reg_distri : Tensor)
    (height_mul_width : nat) : option Tensor :=
  do r <- reshape reg_distri
            [(-1)%Z; 4%Z; Z.of_nat (reg_max self + 1); Z.of_nat height_mul_width];
  do reg_dist_reduced <- permute r [0; 2; 3; 1];
  do sm <- softmax reg_dist_reduced 1;
  do c <- conv2d sm (proj_conv self);
  squeeze c 1.

(** The accumulators of the loop of [forward_eval]:
    [(cls_score_list, reg_distri_list, reg_dist_reduced_list)]. *)
Definition Acc : Type := (list Tensor * list Tensor * list Tensor)%type.

(** The loop [for i, feat in enumerate(feats)] of [forward_eval]. *)
Fixpoint forward_eval_loop (self : NDFLHeads) (i : nat) (feats : list Tensor)
    (acc : Acc) : option Acc :=
  match feats with
  | [] => Some acc
  | feat :: feats' =>
      let '(cls_score_list, reg_distri_list, reg_dist_reduced_list) := acc in
      match shape feat with
      | [b; _; h; w] =>
          let height_mul_width := h * w in
          do head <- nth_error (heads self) i;
          do (reg_distri, cls_logit) <- head feat;
          do fl <- flatten reg_distri 2;
          do flp <- permute fl [0; 2; 1];
          do reg_dist_reduced <- reg_dist_reduce self reg_distri height_mul_width;
          do cls <- reshape cls_logit
                      [Z.of_nat b; Z.of_nat (num_classes self); Z.of_nat height_mul_width];
          forward_eval_loop self (S i) feats'
            (cls_score_list ++ [cls], reg_distri_list ++ [flp],
             reg_dist_reduced_list ++ [reg_dist_reduced])
      | _ => None
      end
  end.

(** [(pred_bboxes, pred_scores)] *)
Definition Decoded : Type := (Tensor * Tensor)%type.

(** [(cls_score_list, reg_distri_list, anchors, anchor_points,
      num_anchors_list, stride_tensor)] *)
Definition Raw : Type := (Tensor * Tensor * Tensor * Tensor * list nat * Tensor)%type.

Inductive EvalOutput :=
| Traced (decoded_predictions : Decoded)
| Full (decoded_predictions : Decoded) (raw_predictions : Raw).

Definition decoded_of (o : EvalOutput) : Decoded :=
  match o with
  | Traced d => d
  | Full d _ => d
  end.

(** The anchor points and strides [forward_eval] decodes with. *)
Definition inference_anchors (self : NDFLHeads) (feats : list Tensor)
    : option (Tensor * Tensor) :=
  match eval_size self with
  | Some _ =>
      do ap <- anchor_points self;
      do st <- stride_tensor self;
      Some (ap, st)
  | None => _generate_anchors self (Some feats)
  end.

(** [NDFLHeads.forward_eval]; [is_tracing] is [torch.jit.is_tracing()]. *)
Definition forward_eval (self : NDFLHeads) (is_tracing : bool) (feats : list Tensor)
    : option EvalOutput :=
  do (cls_score_list, reg_distri_list, reg_dist_reduced_list) <-
       forward_eval_loop self 0 feats ([], [], []);
  do cls_score_list <- cat cls_score_list (-1);
  do cls_score_list <- permute cls_score_list [0; 2; 1];
  do reg_distri_list <- cat reg_distri_list 1;
  do reg_dist_reduced_list <- cat reg_dist_reduced_list 1;
  do (anchor_points_inference, stride_tensor) <- inference_anchors self feats;
  let pred_scores := sigmoid cls_score_list in
  do bboxes <- batch_distance2bbox anchor_points_inference reg_dist_reduced_list;
  do pred_bboxes <- mul bboxes stride_tensor;
  let decoded_predictions := (pred_bboxes, pred_scores) in
  if is_tracing then Some (Traced decoded_predictions)
  else
    do (anchors, anchor_points, num_anchors_list, _) <-
         generate_anchors_for_grid_cell feats (fpn_strides self)
           (grid_cell_scale self) (grid_cell_offset self);
    Some (Full decoded_predictions
            (cls_score_list, reg_distri_list, anchors, anchor_points,
             num_anchors_list, stride_tensor)).

(** *** Vocabulary of the statements about [forward_eval] *)

(** The expected bin index of the distribution [softmax(logits)] over
    [n] bins: the sum over [j] of [j * softmax(logits)_j]. *)
Definition expected_bin (logits : nat -> R) (n : nat) : R :=
  sumR (fun j => (INR j * (exp (logits j) / sumR (fun k => exp (logits k)) n))%R) n.

(** One pyramid level: the feature map, its head, what the head returns
    for it, and the sizes of the feature map. *)
Record Level := mkLevel {
  lv_feat : Tensor;
  lv_head : Head;
  lv_reg : Tensor;
  lv_cls : Tensor;
  lv_c : nat;
  lv_h : nat;
  lv_w : nat
}.

(** The head of a level returns a regression output of shape
    [[B, 4*(reg_max+1), H, W]] and class logits of shape
    [[B, num_classes, H, W]] for a feature map of shape [[B, C, H, W]],
    as a [DeciYOLODFLHead] does: its [reg_pred] has [4 * (reg_max + 1)]
    output channels, its [cls_pred] has [num_classes], and [_pass_args]
    gives every head the [num_classes] and [reg_max] of [NDFLHeads]. *)
Definition level_ok (self : NDFLHeads) (B : nat) (lv : Level) : Prop :=
  shape (lv_feat lv) = [B; lv_c lv; lv_h lv; lv_w lv] /\
  lv_head lv (lv_feat lv) = Some (lv_reg lv, lv_cls lv) /\
  shape (lv_reg lv) = [B; 4 * (reg_max self + 1); lv_h lv; lv_w lv] /\
  shape (lv_cls lv) = [B; num_classes self; lv_h lv; lv_w lv] /\
  0 < lv_h lv /\ 0 < lv_w lv.

(** Number of anchors of the levels: one per cell of every feature map. *)
Definition anchors_of (lvs : list Level) : nat :=
  fold_right (fun lv acc => lv_h lv * lv_w lv + acc) 0 lvs.

(** [t] is the entry of [cls_score_list] of the level. *)
Definition cls_rel (self : NDFLHeads) (B : nat) (lv : Level) (t : Tensor) : Prop :=
  shape t = [B; num_classes self; lv_h lv * lv_w lv] /\
  forall b c y x, b < B -> c < num_classes self -> y < lv_h lv -> x < lv_w lv ->
    get t [b; c; y * lv_w lv + x] = get (lv_cls lv) [b; c; y; x].

(** [t] is the entry of [reg_distri_list] of the level. *)
Definition flp_rel (self : NDFLHeads) (B : nat) (lv : Level) (t : Tensor) : Prop :=
  exists n, shape t = [B; n; 4 * (reg_max self + 1)].

(** [t] is the entry of [reg_dist_reduced_list] of the level. *)
Definition red_rel (self : NDFLHeads) (B : nat) (lv : Level) (t : Tensor) : Prop :=
  shape t = [B; lv_h lv * lv_w lv; 4] /\
  forall b y x s, b < B -> y < lv_h lv -> x < lv_w lv -> s < 4 ->
    get t [b; y * lv_w lv + x; s]
    = expected_bin (fun j => get (lv_reg lv) [b; s * (reg_max self + 1) + j; y; x])
                   (reg_max self + 1).

(** The head was built by [__init__], possibly followed by calls of
    [cache_anchors]. *)
Inductive constructed : NDFLHeads -> Prop :=
| constructed_init nc hl fs gs go rm es self :
    __init__ nc hl fs gs go rm es = Some self -> constructed self
| constructed_cache self sz self' :
    constructed self -> cache_anchors self sz = Some self' -> constructed self'.

(** The cached anchors are those [_generate_anchors] returned, without
    feature maps, for the current [eval_size]. *)
Definition anchors_cached (self : NDFLHeads) : Prop :=
  forall sz, eval_size self = Some sz ->
    exists self0 ap st,
      eval_size self0 = Some sz /\
      _generate_anchors self0 None = Some (ap, st) /\
      anchor_points self = Some ap /\ stride_tensor self = Some st.

(** *** The training path and the dispatch *)

(** The loop [for i, feat in enumerate(feats)] of [forward_train]:
    [(cls_score_list, reg_distri_list)]. *)
Fixpoint forward_train_loop (self : NDFLHeads) (i : nat) (feats : list Tensor)
    (acc : list Tensor * list Tensor) : option (list Tensor * list Tensor) :=
  match feats with
  | [] => Some acc
  | feat :: feats' =>
      let (cls_score_list, reg_distri_list) := acc in
      do head <- nth_error (heads self) i;
      do (reg_distri, cls_logit) <- head feat;
      do cf <- flatten cls_logit 2;
      do cfp <- permute cf [0; 2; 1];
      do rf <- flatten reg_distri 2;
      do rfp <- permute rf [0; 2; 1];
      forward_train_loop self (S i) feats'
        (cls_score_list ++ [cfp], reg_distri_list ++ [rfp])
  end.

(** [NDFLHeads.forward_train] *)
Definition forward_train (self : NDFLHeads) (feats : list Tensor) : option Raw :=
  do (anchors, anchor_points, num_anchors_list, stride_tensor) <-
       generate_anchors_for_grid_cell feats (fpn_strides self)
         (grid_cell_scale self) (grid_cell_offset self);
  do (cls_score_list, reg_distri_list) <- forward_train_loop self 0 feats ([], []);
  do cls_score_list <- cat cls_score_list 1;
  do reg_distri_list <- cat reg_distri_list 1;
  Some (cls_score_list, reg_distri_list, anchors, anchor_points, num_anchors_list,
        stride_tensor).

Inductive ForwardOutput :=
| TrainOutput (raw : Raw)
| EvalModeOutput (o : EvalOutput).

(** [NDFLHeads.forward]; [training] is [self.training]. *)
Definition forward (self : NDFLHeads) (training is_tracing : bool) (feats : list Tensor)
    : option ForwardOutput :=
  if training
  then option_map TrainOutput (forward_train self feats)
  else option_map EvalModeOutput (forward_eval self is_tracing feats).

(** [t] is the entry of [cls_score_list] of the level in [forward_train]. *)
Definition train_cls_rel (self : NDFLHeads) (B : nat) (lv : Level) (t : Tensor) : Prop :=
  shape t = [B; lv_h lv * lv_w lv; num_classes self] /\
  forall b c y x, b < B -> c < num_classes self -> y < lv_h lv -> x < lv_w lv ->
    get t [b; y * lv_w lv + x; c] = get (lv_cls lv) [b; c; y; x].

(** [t] is the entry of [reg_distri_list] of the level. *)
Definition train_reg_rel (self : NDFLHeads) (B : nat) (lv : Level) (t : Tensor) : Prop :=
  shape t = [B; lv_h lv * lv_w lv; 4 * (reg_max self + 1)] /\
  forall b k y x, b < B -> k < 4 * (reg_max self + 1) -> y < lv_h lv -> x < lv_w lv ->
    get t [b; y * lv_w lv + x; k] = get (lv_reg lv) [b; k; y; x].

End WithPPYoloE.

End DflHeads.

(** ** [pipelines.py]: the inference pipeline *)

Module Pipelines.

Inductive DType := float32 | float64 | int64 | uint8.

(** A [device] argument; [None] names no device. *)
Definition Device : Type := option string.

(** [np.ndarray] *)
Record ndarray := mkArray { arr_value : Torch.Tensor; arr_dtype : DType }.

(** [torch.Tensor] *)
Record TorchTensor := mkTorchTensor {
  value : Torch.Tensor;
  dtype : DType;
  tensor_device : string;
  requires_grad : bool
}.

(** [torch.Tensor(a)]: a [float32] tensor on the cpu. *)
Definition torch_Tensor (a : ndarray) : TorchTensor :=
  mkTorchTensor (arr_value a) float32 "cpu" false.

(** [torch.zeros(sh, dtype=dt)] *)
Definition torch_zeros (sh : list nat) (dt : DType) : TorchTensor :=
  mkTorchTensor (Torch.zeros sh) dt "cpu" false.

(** [t.to(device)] *)
Definition Tensor_to (t : TorchTensor) (device : Device) : TorchTensor :=
  match device with
  | Some d => mkTorchTensor (value t) (dtype t) d (requires_grad t)
  | None => t
  end.

Definition detach (t : TorchTensor) : TorchTensor :=
  mkTorchTensor (value t) (dtype t) (tensor_device t) false.

Definition cpu (t : TorchTensor) : TorchTensor :=
  mkTorchTensor (value t) (dtype t) "cpu" (requires_grad t).

Definition numpy (t : TorchTensor) : ndarray :=
  mkArray (value t) (dtype t).

(** [a.copy()]: a new array with the same contents. *)
Definition copy (a : ndarray) : ndarray := a.

(** The state of the model object: [model.training] and the device its
    parameters are on. *)
Record ModelState := mkModel { training : bool; model_device : string }.

(** The calls a run makes, in the order they are made. *)
Inductive Event :=
| EvModelTo (device : Device)
| EvLoadImages
| EvPreprocess (image : ndarray)
| EvModelTrain (mode : bool)
| EvSetGrad (enabled : bool)
| EvForward (model : ModelState) (grad : bool) (inputs : TorchTensor)
| EvDecode
| EvPostprocess (prediction : ndarray).

(** What a run can change: the model object, torch's global gradient mode,
    and the log of the calls made so far. *)
Record World := mkWorld {
  model : ModelState;
  grad_enabled : bool;
  trace : list Event
}.

(** Computations that read and update the world and may raise ([None]);
    the updates made before an exception stay. *)
Definition M (A : Type) : Type := World -> option A * World.

Definition ret {A} (a : A) : M A := fun w => (Some a, w).

Definition raise {A} : M A := fun w => (None, w).

Definition bind {A B} (m : M A) (k : A -> M B) : M B :=
  fun w =>
    match m w with
    | (Some a, w') => k a w'
    | (None, w') => (None, w')
    end.

Notation "'let*' x ':=' m 'in' k" := (bind m (fun x => k))
  (at level 10, x pattern, m at level 100, k at level 200, only parsing).

Definition log (e : Event) : M unit :=
  fun w => (Some tt, mkWorld (model w) (grad_enabled w) (trace w ++ [e])).

(** [nn.Module.train(mode)], on the flag of the model itself; the flags
    of its submodules, which [train] sets to the same mode, are not part
    of the state. *)
Definition Module_train (mode : bool) : M unit :=
  let* _ := log (EvModelTrain mode) in
  fun w => (Some tt, mkWorld (mkModel mode (model_device (model w)))
                             (grad_enabled w) (trace w)).

(** [nn.Module.eval()] is [self.train(False)]. *)
Definition Module_eval : M unit := Module_train false.

(** [nn.Module.to(device)] *)
Definition Module_to (device : Device) : M unit :=
  let* _ := log (EvModelTo device) in
  fun w =>
    (Some tt,
     match device with
     | Some d => mkWorld (mkModel (training (model w)) d) (grad_enabled w) (trace w)
     | None => w
     end).

Definition set_grad_enabled (enabled : bool) : M unit :=
  let* _ := log (EvSetGrad enabled) in
  fun w => (Some tt, mkWorld (model w) enabled (trace w)).

(** [with torch.no_grad(): body]: the previous gradient mode is put back
    when the block is left, normally or by an exception. *)
Definition no_grad {A} (body : M A) : M A :=
  fun w =>
    let prev := grad_enabled w in
    match set_grad_enabled false w with
    | (_, w1) =>
        match body w1 with
        | (r, w2) => (r, snd (set_grad_enabled prev w2))
        end
    end.

(** [with eval_mode(model): body].  The generator has no [try]: when the
    body raises, [model.train] is not reached. *)
Definition eval_mode {A} (body : M A) : M A :=
  let* _starting_mode := (fun w => (Some (training (model w)), w)) in
  let* _ := Module_eval in
  let* r := no_grad body in
  let* _ := Module_train _starting_mode in
  ret r.

Section WithTypes.
Context {ImageType ModelOutput Metadata : Type}.

(** [Processing]: the interface of an image processor. *)
Record Processing := mkProcessing {
  preprocess_image : ndarray -> ndarray * Metadata;
  postprocess_predictions : ndarray -> Metadata -> ndarray
}.

(** What [pipelines.py] calls and does not define. *)
Class External := {
  (** [load_image] of [utils.load_image], for one image *)
  load_image : ImageType -> ndarray;
  (** [np.array(list_of_arrays)] *)
  np_array : list ndarray -> ndarray;
  (** [model(inputs)]: the forward pass of the model in its current
      state, under the current gradient mode *)
  Module_call : ModelState -> bool -> TorchTensor -> ModelOutput;
  (** [ComposeProcessing(list_of_processors)] *)
  ComposeProcessing : list Processing -> Processing
}.

Context `{External}.

(** The argument of a pipeline: one image or a list of images. *)
Inductive Images :=
| Single (image : ImageType)
| Several (images : list ImageType).

(** Modelled from the spec: [load_images] of
    [super_gradients.training.utils.load_image] is not among the sources.
    It loads the inputs into a list of numpy arrays, one per input image
    and in input order; a single image gives a list of one. *)
Definition load_images (images : Images) : list ndarray :=
  match images with
  | Single image => [load_image image]
  | Several images => map load_image images
  end.

(** The attributes of a pipeline besides the model; [image_processor] is
    [None] when none was given. *)
Record Pipeline := mkPipeline {
  device : Device;
  image_processor : option Processing
}.

(** [Pipeline.__init__]; the image processor given is a processor, a list
    of processors or [None]. *)
Definition Pipeline__init__ (image_processor : option (Processing + list Processing))
    (device : Device) : M Pipeline :=
  let* _ := Module_to device in
  let image_processor :=
    match image_processor with
    | Some (inr l) => Some (ComposeProcessing l)
    | Some (inl p) => Some p
    | None => None
    end in
  ret (mkPipeline device image_processor).

(** The loop [for image in images] of [_run]; without an image processor
    the method call raises. *)
Fixpoint preprocess_loop (self : Pipeline) (images : list ndarray)
    (acc : list ndarray * list Metadata) : M (list ndarray * list Metadata) :=
  match images with
  | [] => ret acc
  | image :: images' =>
      let (preprocessed_images, processing_metadatas) := acc in
      match image_processor self with
      | None => raise
      | Some image_processor =>
          let* _ := log (EvPreprocess image) in
          let (preprocessed_image, processing_metadata) :=
            preprocess_image image_processor (copy image) in
          preprocess_loop self images'
            (preprocessed_images ++ [preprocessed_image],
             processing_metadatas ++ [processing_metadata])
      end
  end.

(** The loop [for torch_prediction, processing_metadata in zip(..)] of
    [_run]; a prediction that is [None] has no [detach]. *)
Fixpoint postprocess_loop (self : Pipeline)
    (zipped : list (option TorchTensor * Metadata)) (predictions : list ndarray)
    : M (list ndarray) :=
  match zipped with
  | [] => ret predictions
  | (torch_prediction, processing_metadata) :: zipped' =>
      match torch_prediction with
      | None => raise
      | Some torch_prediction =>
          let prediction := numpy (cpu (detach torch_prediction)) in
          match image_processor self with
          | None => raise
          | Some image_processor =>
              let* _ := log (EvPostprocess prediction) in
              let prediction :=
                postprocess_predictions image_processor prediction processing_metadata in
              postprocess_loop self zipped' (predictions ++ [prediction])
          end
      end
  end.

(** [self.model(torch_inputs)] *)
Definition call_model (torch_inputs : TorchTensor) : M ModelOutput :=
  fun w =>
    (Some (Module_call (model w) (grad_enabled w) torch_inputs),
     mkWorld (model w) (grad_enabled w)
             (trace w ++ [EvForward (model w) (grad_enabled w) torch_inputs])).

(** [Pipeline._run]; [_decode_model_output] is the method of the subclass. *)
Definition _run (self : Pipeline)
    (_decode_model_output : ModelOutput -> list (option TorchTensor))
    (images : Images) : M (list ndarray * list ndarray) :=
  let* _ := Module_to (device self) in
  let* _ := log EvLoadImages in
  let images := load_images images in
  let* (preprocessed_images, processing_metadatas) :=
    preprocess_loop self images ([], []) in
  let* torch_predictions :=
    eval_mode
      (let torch_inputs :=
         Tensor_to (torch_Tensor (np_array preprocessed_images)) (device self) in
       let* model_output := call_model torch_inputs in
       let* _ := log EvDecode in
       ret (_decode_model_output model_output)) in
  let* predictions :=
    postprocess_loop self (combine torch_predictions processing_metadatas) [] in
  ret (images, predictions).

(** [DetectionPostPredictionCallback]: called with the model output and
    the device; each entry of its result is a tensor or [None]. *)
Definition DetectionPostPredictionCallback : Type :=
  ModelOutput -> Device -> list (option TorchTensor).

Record DetectionPipeline := mkDetectionPipeline {
  pipeline : Pipeline;
  post_prediction_callback : DetectionPostPredictionCallback;
  class_names : list string
}.

Record DetectionResults := mkDetectionResults {
  results_images : list ndarray;
  results_predictions : list ndarray;
  results_class_names : list string
}.

(** [DetectionPipeline.__init__] *)
Definition DetectionPipeline__init__ (class_names : list string)
    (post_prediction_callback : DetectionPostPredictionCallback)
    (device : Device) (image_processor : option (Processing + list Processing))
    : M DetectionPipeline :=
  let* p := Pipeline__init__ image_processor device in
  ret (mkDetectionPipeline p post_prediction_callback class_names).

(** [DetectionPipeline._decode_model_output] *)
Definition _decode_model_output (self : DetectionPipeline) (model_output : ModelOutput)
    : list (option TorchTensor) :=
  let decoded_predictions :=
    post_prediction_callback self model_output (device (pipeline self)) in
  map (fun decoded_prediction =>
         match decoded_prediction with
         | Some _ => decoded_prediction
         | None => Some (torch_zeros [0; 6] float32)
         end)
      decoded_predictions.

(** [DetectionPipeline.__call__] *)
Definition __call__ (self : DetectionPipeline) (images : Images) : M DetectionResults :=
  let* (images, predictions) := _run (pipeline self) (_decode_model_output self) images in
  ret (mkDetectionResults images predictions (class_names self)).

(** *** Vocabulary of the statements about [_run] *)

(** The images of an argument, in order. *)
Definition inputs_of (images : Images) : list ImageType :=
  match images with
  | Single image => [image]
  | Several images => images
  end.

(** Stage 1: load. *)
Definition stage_load (images : Images) : list ndarray :=
  map load_image (inputs_of images).

(** Stage 2: preprocess every image, keeping its metadata. *)
Definition stage_preprocess (image_processor : Processing) (loaded : list ndarray)
    : list (ndarray * Metadata) :=
  map (fun image => preprocess_image image_processor (copy image)) loaded.

(** The device the model is on once [model.to(device)] has run. *)
Definition device_after_to (device : Device) (m : ModelState) : string :=
  match device with
  | Some d => d
  | None => model_device m
  end.

(** The input of the model: one tensor for the whole batch. *)
Definition batch_inputs (self : Pipeline) (preprocessed_images : list ndarray)
    : TorchTensor :=
  Tensor_to (torch_Tensor (np_array preprocessed_images)) (device self).

(** The model during the predict stage. *)
Definition predict_model (self : Pipeline) (w : World) : ModelState :=
  mkModel false (device_after_to (device self) (model w)).

(** Stage 3: one forward pass on the batch, then decoding. *)
Definition stage_predict (self : Pipeline)
    (decode : ModelOutput -> list (option TorchTensor)) (w : World)
    (preprocessed_images : list ndarray) : list (option TorchTensor) :=
  decode (Module_call (predict_model self w) false (batch_inputs self preprocessed_images)).

(** [t.detach().cpu().numpy()] *)
Definition as_array (t : TorchTensor) : ndarray := numpy (cpu (detach t)).

(** Stage 4: postprocess the [i]-th prediction with the [i]-th metadata. *)
Definition stage_postprocess (image_processor : Processing) (decoded : list TorchTensor)
    (metadatas : list Metadata) : list ndarray :=
  map (fun pm => postprocess_predictions image_processor (as_array (fst pm)) (snd pm))
      (combine decoded metadatas).

Definition add_trace (w : World) (es : list Event) : World :=
  mkWorld (model w) (grad_enabled w) (trace w ++ es).

(** The events of the predict stage. *)
Definition predict_events (self : Pipeline) (w : World)
    (preprocessed_images : list ndarray) : list Event :=
  [EvModelTrain false; EvSetGrad false;
   EvForward (predict_model self w) false (batch_inputs self preprocessed_images);
   EvDecode;
   EvSetGrad (grad_enabled w); EvModelTrain (training (model w))].

(** The world after a run that made the calls [es]: the model is on the
    device, in the mode it was in, and the gradient mode is what it was. *)
Definition world_after (self : Pipeline) (w : World) (es : list Event) : World :=
  mkWorld (mkModel (training (model w)) (device_after_to (device self) (model w)))
          (grad_enabled w)
          (trace w ++ es).

(** The world in which the body of [with eval_mode(model)] starts. *)
Definition eval_mode_entry (w : World) : World :=
  mkWorld (mkModel false (model_device (model w))) false
          (trace w ++ [EvModelTrain false; EvSetGrad false]).

Definition is_preprocess (e : Event) : bool :=
  match e with
  | EvPreprocess _ => true
  | _ => false
  end.

Definition is_postprocess (e : Event) : bool :=
  match e with
  | EvPostprocess _ => true
  | _ => false
  end.

Definition is_forward (e : Event) : bool :=
  match e with
  | EvForward _ _ _ => true
  | _ => false
  end.

(** The events that leave the mode of the model and the gradient mode
    alone and are no forward pass. *)
Definition is_io (e : Event) : bool :=
  match e with
  | EvModelTo _ | EvLoadImages | EvPreprocess _ | EvPostprocess _ => true
  | _ => false
  end.

(** The tensors [_decode_model_output] returns. *)
Definition decoded_tensors (self : DetectionPipeline) (model_output : ModelOutput)
    : list TorchTensor :=
  map (fun d => match d with
                | Some t => t
                | None => torch_zeros [0; 6] float32
                end)
      (post_prediction_callback self model_output (device (pipeline self))).

End WithTypes.

Arguments Processing : clear implicits.
Arguments Pipeline : clear implicits.
Arguments External : clear implicits.
Arguments Images : clear implicits.
Arguments DetectionPipeline : clear implicits.
Arguments DetectionPostPredictionCallback : clear implicits.

End Pipelines.

(** ** [kd_module.py]: the knowledge-distillation module *)

Module KD.

(** The objects the module refers to live in a shared heap: the
    [training] flag of every module object and the [requires_grad] flag of
    every parameter object, by object identity. *)
Record Heap := mkHeap {
  requires_grad : gmap nat bool;
  training : gmap nat bool
}.

Section WithTypes.
Context {Input Output HpmStruct ParamGroups Kwargs : Type}.

(** A [torch.nn.Module]: the modules of [self.modules()], the parameters
    of [self.parameters()], and its forward pass. *)
Record TorchModule := mkTorchModule {
  modules : list nat;
  parameters : list nat;
  Module_call : Input -> Heap -> Output * Heap
}.

(** [nn.Module.train(mode)]: sets the flag of the module and of its
    descendants. *)
Definition Module_train (m : TorchModule) (mode : bool) (h : Heap) : Heap :=
  mkHeap (requires_grad h)
         (fold_left (fun t i => <[i := mode]> t) (modules m) (training h)).

(** [nn.Module.eval()] is [self.train(False)]. *)
Definition Module_eval (m : TorchModule) (h : Heap) : Heap :=
  Module_train m false h.

(** An [SgModule]: the methods of the student that [KDModule] calls.
    Each may be overridden by the student's class. *)
Record SgModule := mkSgModule {
  sg_train : bool -> Heap -> Heap;
  sg_eval : Heap -> Heap;
  sg_call : Input -> Heap -> Output * Heap;
  sg_initialize_param_groups : R -> HpmStruct -> Heap -> ParamGroups * Heap;
  sg_update_param_groups :
    ParamGroups -> R -> nat -> nat -> HpmStruct -> nat -> Heap -> ParamGroups * Heap;
  sg_replace_head : Kwargs -> Heap -> Heap
}.

(** What [kd_module.py] reads from [arch_params]. *)
Class ArchParams := {
  arch_student : HpmStruct -> SgModule;
  arch_teacher : HpmStruct -> TorchModule;
  (** [get_param(params, name, default)] of [training.utils] *)
  get_param : HpmStruct -> string -> bool -> bool
}.

Context `{ArchParams}.

Record KDOutput := mkKDOutput { student_output : Output; teacher_output : Output }.

Record KDModule := mkKDModule {
  student : SgModule;
  teacher : TorchModule;
  run_teacher_on_eval : bool
}.

(** [KDModule._freeze_teacher] *)
Definition _freeze_teacher (self : KDModule) (h : Heap) : Heap :=
  mkHeap (fold_left (fun rg p => <[p := false]> rg) (parameters (teacher self))
                    (requires_grad h))
         (training h).

(** [KDModule.__init__] *)
Definition __init__ (arch_params : HpmStruct) (h : Heap) : KDModule * Heap :=
  let self :=
    mkKDModule (arch_student arch_params) (arch_teacher arch_params)
               (get_param arch_params "run_teacher_on_eval" false) in
  let h := _freeze_teacher self h in
  if run_teacher_on_eval self
  then (self, Module_eval (teacher self) h)
  else (self, h).

(** [KDModule.train] *)
Definition train (self : KDModule) (mode : bool) (h : Heap) : Heap :=
  let h := sg_train (student self) mode h in
  if negb (run_teacher_on_eval self)
  then Module_train (teacher self) mode h
  else h.

(** [KDModule.eval] *)
Definition eval (self : KDModule) (h : Heap) : Heap :=
  let h := sg_eval (student self) h in
  Module_eval (teacher self) h.

(** [KDModule.forward] *)
Definition forward (self : KDModule) (x : Input) (h : Heap) : KDOutput * Heap :=
  let (student_output, h) := sg_call (student self) x h in
  let (teacher_output, h) := Module_call (teacher self) x h in
  (mkKDOutput student_output teacher_output, h).

(** [KDModule.initialize_param_groups] *)
Definition initialize_param_groups (self : KDModule) (lr : R) (training_params : HpmStruct)
    (h : Heap) : ParamGroups * Heap :=
  sg_initialize_param_groups (student self) lr training_params h.

(** [KDModule.update_param_groups] *)
Definition update_param_groups (self : KDModule) (param_groups : ParamGroups) (lr : R)
    (epoch iter : nat) (training_params : HpmStruct) (total_batch : nat) (h : Heap)
    : ParamGroups * Heap :=
  sg_update_param_groups (student self) param_groups lr epoch iter training_params
                         total_batch h.

(** [KDModule.replace_head] *)
Definition replace_head (self : KDModule) (kwargs : Kwargs) (h : Heap) : Heap :=
  sg_replace_head (student self) kwargs h.

(** A call of one of the methods of a [KDModule]. *)
Inductive Op :=
| OpTrain (mode : bool)
| OpEval
| OpForward (x : Input)
| OpInitializeParamGroups (lr : R) (training_params : HpmStruct)
| OpUpdateParamGroups (param_groups : ParamGroups) (lr : R) (epoch iter : nat)
    (training_params : HpmStruct) (total_batch : nat)
| OpReplaceHead (kwargs : Kwargs).

(** The heap after the call. *)
Definition exec (self : KDModule) (op : Op) (h : Heap) : Heap :=
  match op with
  | OpTrain mode => train self mode h
  | OpEval => eval self h
  | OpForward x => snd (forward self x h)
  | OpInitializeParamGroups lr tp => snd (initialize_param_groups self lr tp h)
  | OpUpdateParamGroups pg lr epoch iter tp tb =>
      snd (update_param_groups self pg lr epoch iter tp tb h)
  | OpReplaceHead kwargs => replace_head self kwargs h
  end.

(** The heap after a sequence of calls, first call first. *)
Definition exec_all (self : KDModule) (ops : list Op) (h : Heap) : Heap :=
  fold_left (fun h op => exec self op h) ops h.

Definition is_train_or_eval (op : Op) : bool :=
  match op with
  | OpTrain _ | OpEval => true
  | _ => false
  end.

(** *** Vocabulary of the statements about the teacher *)

(** Every parameter of [t] has [requires_grad = False]. *)
Definition frozen (t : TorchModule) (h : Heap) : Prop :=
  forall p, p ∈ parameters t -> requires_grad h !! p = Some false.

(** Every module of [t] has [training = False]. *)
Definition in_eval_mode (t : TorchModule) (h : Heap) : Prop :=
  forall m, m ∈ modules t -> training h !! m = Some false.

(** [f] sets no [requires_grad] of a parameter of [t] back to [True]. *)
Definition keeps_frozen (t : TorchModule) (f : Heap -> Heap) : Prop :=
  forall h p, p ∈ parameters t ->
    requires_grad h !! p = Some false -> requires_grad (f h) !! p = Some false.

(** [f] leaves the [training] flags of the modules of [t] as they are. *)
Definition keeps_mode (t : TorchModule) (f : Heap -> Heap) : Prop :=
  forall h m, m ∈ modules t -> training (f h) !! m = training h !! m.

(** The methods of the student and the forward pass of the teacher do not
    unfreeze a parameter of the teacher. *)
Record external_keep_frozen (self : KDModule) : Prop := {
  kf_train : forall mode, keeps_frozen (teacher self) (sg_train (student self) mode);
  kf_eval : keeps_frozen (teacher self) (sg_eval (student self));
  kf_call : forall x, keeps_frozen (teacher self) (fun h => snd (sg_call (student self) x h));
  kf_teacher_call :
    forall x, keeps_frozen (teacher self) (fun h => snd (Module_call (teacher self) x h));
  kf_initialize :
    forall lr tp, keeps_frozen (teacher self)
      (fun h => snd (sg_initialize_param_groups (student self) lr tp h));
  kf_update :
    forall pg lr epoch iter tp tb, keeps_frozen (teacher self)
      (fun h => snd (sg_update_param_groups (student self) pg lr epoch iter tp tb h));
  kf_replace_head :
    forall kwargs, keeps_frozen (teacher self) (sg_replace_head (student self) kwargs)
}.

(** The [train] and [eval] methods of the student leave the mode of the
    teacher's modules alone: student and teacher share no module. *)
Record student_keeps_teacher_mode (self : KDModule) : Prop := {
  km_train : forall mode, keeps_mode (teacher self) (sg_train (student self) mode);
  km_eval : keeps_mode (teacher self) (sg_eval (student self))
}.

End WithTypes.

Arguments TorchModule : clear implicits.
Arguments SgModule : clear implicits.
Arguments ArchParams : clear implicits.
Arguments KDOutput : clear implicits.
Arguments KDModule : clear implicits.
Arguments Op : clear implicits.

End KD.

(** ** [yolox_training_native.py]: the collate function of the loaders *)

Module Collate.
Import Torch.

Local Open Scope nat_scope.

(** [np.roll(t, shift, axis)]: entry [j] along [axis] comes from entry
    [j - shift], modulo the size of the axis. *)
Definition roll (t : Tensor) (shift axis : nat) : option Tensor :=
  if axis <? length (shape t)
  then
    let d := nth axis (shape t) 0 in
    Some (tabulate (shape t) (fun idx =>
            get t (set_nth axis ((nth axis idx 0 + (d - shift mod d)) mod d) idx)))
  else None.

(** An assignment to a slice drops the leading dimensions of size one
    that the value has beyond the rank of the slice. *)
Fixpoint strip_ones (k : nat) (sh : list nat) : list nat :=
  match k, sh with
  | S k', 1 :: sh' => strip_ones k' sh'
  | _, _ => sh
  end.

(** [boxes[:n, :] = v] for a two-dimensional [boxes] with at least [n]
    rows: [v] is broadcast to the shape of the slice, and the assignment
    raises when it cannot be. *)
Definition assign_rows (boxes : Tensor) (n : nat) (v : Tensor) : option Tensor :=
  match shape boxes with
  | [_; columns] =>
      let vs := strip_ones (length (shape v) - 2) (shape v) in
      do sh <- broadcast_shapes vs [n; columns];
      if list_eqb sh [n; columns]
      then Some (tabulate (shape boxes) (fun idx =>
                   if nth 0 idx 0 <? n
                   then get (mkTensor vs (data v)) (broadcast_index vs idx)
                   else get boxes idx))
      else None
  | _ => None
  end.

Section WithImages.
Context {Image ImageBatch : Type}.

(** A sample of the dataset: [sample[0]] is the image, [sample[1]] the
    array of its targets, one row per object. *)
Record Sample := mkSample { image : Image; targets : Tensor }.

(** The attributes of a [get_targets_prep_collate_fn]. *)
Record get_targets_prep_collate_fn := mkCollate {
  resolution : R;
  val : bool;
  max_targets : nat
}.

(** The body of the loop of [_pad_targets] for one sample; [shape[0]] of
    an array without dimensions raises. *)
Definition pad_sample (self : get_targets_prep_collate_fn) (sample : Sample)
    : option Sample :=
  match shape (targets sample) with
  | [] => None
  | n :: _ =>
      if n <? max_targets self
      then
        let boxes := zeros [max_targets self; 5] in
        do boxes <- assign_rows boxes n (targets sample);
        do boxes <- roll boxes 1 1;
        Some (mkSample (image sample) boxes)
      else Some sample
  end.

(** [get_targets_prep_collate_fn._pad_targets]: the list after the loop. *)
Fixpoint _pad_targets (self : get_targets_prep_collate_fn) (data : list Sample)
    : option (list Sample) :=
  match data with
  | [] => Some []
  | sample :: data' =>
      do sample <- pad_sample self sample;
      do data' <- _pad_targets self data';
      Some (sample :: data')
  end.

(** [(targets.sum(dim=2) > 0).sum(dim=1)[i]] for [targets] of shape
    [[N, T, K]]: the number of rows of image [i] whose sum is positive. *)
Definition nlabel (targets : Tensor) (T K i : nat) : nat :=
  length (List.filter
            (fun j => if Rlt_dec 0 (sumR (fun k => get targets [i; j; k]) K)
                      then true else false)
            (seq 0 T)).

(** [targets[:, :, 1:] /= resolution] *)
Definition scale_boxes (targets : Tensor) (resolution : R) : Tensor :=
  tabulate (shape targets) (fun idx =>
    if nth 2 idx 0 =? 0 then get targets idx else Rdiv (get targets idx) resolution).

(** The body of the loop of [__call__] for image [i], of which the first
    [n] rows are kept. *)
Definition merge_image (targets : Tensor) (K i n : nat) : option Tensor :=
  let targets_im := tabulate [n; K] (fun idx => get targets (i :: idx)) in
  let batch_column := tabulate [n; 1] (fun _ => Rmult 1 (INR i)) in
  cat [batch_column; targets_im] 1.

(** The loop [for i in range(targets.shape[0])] of [__call__]. *)
Fixpoint merge_loop (targets : Tensor) (K : nat) (nlabel : nat -> nat) (range : list nat)
    (targets_merged : list Tensor) : option (list Tensor) :=
  match range with
  | [] => Some targets_merged
  | i :: range' =>
      do m <- merge_image targets K i (nlabel i);
      merge_loop targets K nlabel range' (targets_merged ++ [m])
  end.

(** Lines 52-61 of [__call__]: the rows kept for every image of the
    batch, each behind the index of its image, one image after the other. *)
Definition merge_targets (resolution : R) (targets : Tensor) : option Tensor :=
  match shape targets with
  | [N; T; K] =>
      let nlabel := nlabel targets T K in
      let targets := scale_boxes targets resolution in
      do targets_merged <- merge_loop targets K nlabel (seq 0 N) [];
      cat targets_merged 0
  | _ => None
  end.

(** [get_targets_prep_collate_fn.__call__].  [default_collate] stacks the
    targets of the samples; what it does with the images is the parameter
    [collate_images]. *)
Definition __call__ (collate_images : list Image -> option ImageBatch)
    (self : get_targets_prep_collate_fn) (data : list Sample)
    : option (ImageBatch * Tensor) :=
  do data <- (if val self then _pad_targets self data else Some data);
  do ims <- collate_images (map image data);
  do targets <- stack (map targets data) 0;
  do merged <- merge_targets (resolution self) targets;
  Some (ims, merged).

(** *** Vocabulary of the statements about the collate function *)

(** Entry [k] of row [j] of the targets of the [i]-th sample. *)
Definition target_entry (data : list Sample) (i j k : nat) : R :=
  match nth_error data i with
  | Some s => get (targets s) [j; k]
  | None => 0%R
  end.

(** Number of rows of the targets of the [i]-th sample. *)
Definition n_rows (data : list Sample) (i : nat) : nat :=
  match nth_error data i with
  | Some s => nth 0 (shape (targets s)) 0
  | None => 0
  end.

(** Number of rows of the [i]-th sample, among its first [T], whose [K]
    entries have a positive sum. *)
Definition kept_rows (data : list Sample) (T K i : nat) : nat :=
  length (List.filter
            (fun j => if Rlt_dec 0 (sumR (fun k => target_entry data i j k) K)
                      then true else false)
            (seq 0 T)).

(** [s'] is the sample [s] after [_pad_targets]: a sample of fewer than
    [max_targets] rows gets [max_targets] rows, its own rows with the last
    column moved to the front, then rows of zeros; another sample is left
    as it is. *)
Definition padded (self : get_targets_prep_collate_fn) (s s' : Sample) : Prop :=
  image s' = image s /\
  exists n, shape (targets s) = [n; 5] /\
    if n <? max_targets self
    then shape (targets s') = [max_targets self; 5] /\
         (forall r, r < n ->
            get (targets s') [r; 0] = get (targets s) [r; 4] /\
            forall c, c < 4 -> get (targets s') [r; S c] = get (targets s) [r; c]) /\
         (forall r c, n <= r -> r < max_targets self -> c < 5 ->
            get (targets s') [r; c] = 0%R)
    else s' = s.

(** Number of rows kept for the samples before the [i]-th. *)
Fixpoint rows_before (nl : nat -> nat) (i : nat) : nat :=
  match i with
  | 0 => 0
  | S i' => rows_before nl i' + nl i'
  end.

End WithImages.

Arguments Sample : clear implicits.

End Collate.

(** ** Concrete instances *)

Module Examples.

(** *** A head with one level, two bins per side and one class *)

Definition ex_feat : Torch.Tensor := Torch.mkTensor [1; 1; 1; 1] [1%R].

Definition ex_reg : Torch.Tensor :=
  Torch.mkTensor [1; 8; 1; 1] [0%R; 1%R; 2%R; 0%R; 1%R; 1%R; 3%R; 2%R].

Definition ex_cls : Torch.Tensor := Torch.mkTensor [1; 1; 1; 1] [0%R].

Definition ex_head : DflHeads.Head := fun _ => Some (ex_reg, ex_cls).

Definition ex_anchor_points : Torch.Tensor := Torch.mkTensor [1; 2] [(1/2)%R; (1/2)%R].

Definition ex_stride_tensor : Torch.Tensor := Torch.mkTensor [1; 1] [8%R].

Definition ex_ppyoloe : DflHeads.PPYoloE :=
  {| DflHeads._generate_anchors := fun _ _ => Some (ex_anchor_points, ex_stride_tensor);
     DflHeads.generate_anchors_for_grid_cell :=
       fun _ _ _ _ => Some (ex_anchor_points, ex_anchor_points, [1], ex_stride_tensor);
     DflHeads.batch_distance2bbox := fun _ distance => Some distance |}.

Definition ex_proj : Torch.Tensor :=
  Torch.mkTensor [1; 2; 1; 1] (Torch.data (Torch.linspace 0 (INR 1) 2)).

Definition ex_self : DflHeads.NDFLHeads :=
  DflHeads.mkNDFLHeads 1 [8] 5%R (1/2)%R 1 (Some (8, 8)) ex_proj
    (Some ex_anchor_points) (Some ex_stride_tensor) [ex_head].

Definition ex_level : DflHeads.Level :=
  DflHeads.mkLevel ex_feat ex_head ex_reg ex_cls 1 1 1.

(** *** The regression output with the logits of its first side shifted *)

Definition ex_reg_shifted : Torch.Tensor :=
  Torch.mkTensor [1; 8; 1; 1]
    [(0 + 5)%R; (1 + 5)%R; 2%R; 0%R; 1%R; 1%R; 3%R; 2%R].

(** *** Layers that return zeros of the shape of a convolution *)

Definition ex_groups_valid (a : DflHead.ConvArgs) : bool :=
  ((0 <? DflHead.groups a) && (DflHead.conv_in a mod DflHead.groups a =? 0)
   && (DflHead.conv_out a mod DflHead.groups a =? 0))%Z.

Definition ex_fn (a : DflHead.ConvArgs) (_ : option Torch.Tensor) (x : Torch.Tensor)
    : option Torch.Tensor :=
  match Torch.shape x with
  | [B; C; H; W] =>
      if (Z.of_nat C =? DflHead.conv_in a)%Z
         && (DflHead.kernel_size a <=? H + 2 * DflHead.padding a)
         && (DflHead.kernel_size a <=? W + 2 * DflHead.padding a)
      then Some (Torch.zeros [B; Z.to_nat (DflHead.conv_out a);
                              DflHead.conv_out_size a H; DflHead.conv_out_size a W])
      else None
  | _ => None
  end.

Definition ex_modules : DflHead.Modules :=
  {| DflHead.Seed := unit;
     DflHead.width_multiplier := fun original _ _ => original;
     DflHead.ConvBNReLU := fun _ a =>
       if ex_groups_valid a then Some (DflHead.mkLayer a None (ex_fn a)) else None;
     DflHead.Conv2d := fun _ a =>
       if ex_groups_valid a
       then Some (DflHead.mkLayer a
                    (if DflHead.with_bias a
                     then Some (Torch.zeros [Z.to_nat (DflHead.conv_out a)])
                     else None)
                    (ex_fn a))
       else None |}.

Definition ex_seeds : nat -> unit := fun _ => tt.

(** A feature map of three channels. *)
Definition ex_map : Torch.Tensor := Torch.zeros [1; 3; 2; 2].

(** A head before its biases are initialised, with a prior of one half. *)
Definition ex_bare_head : DflHead.DeciYOLODFLHead :=
  let a := DflHead.mkConvArgs 8 1 1 1 0 1 true in
  DflHead.mkDeciYOLODFLHead 1 (DflHead.mkLayer a None (ex_fn a)) [] []
    (DflHead.mkLayer a (Some (Torch.zeros [1])) (ex_fn a))
    (DflHead.mkLayer a (Some (Torch.zeros [1])) (ex_fn a))
    (Torch.zeros [1]) 8 (1 / 2)%R.

(** *** A detection pipeline on images that are numbers *)

Definition ex_array (n : nat) : Pipelines.ndarray :=
  Pipelines.mkArray (Torch.mkTensor [1] [INR n]) Pipelines.uint8.

Definition ex_processing : Pipelines.Processing nat :=
  Pipelines.mkProcessing (fun a => (a, 7)) (fun a _ => a).

Definition ex_external : Pipelines.External nat nat nat :=
  {| Pipelines.load_image := ex_array;
     Pipelines.np_array := fun l => hd (ex_array 0) l;
     Pipelines.Module_call := fun _ _ _ => 0;
     Pipelines.ComposeProcessing := fun l => hd ex_processing l |}.

Definition ex_callback : Pipelines.DetectionPostPredictionCallback nat :=
  fun _ _ => [None; Some (Pipelines.torch_zeros [2; 6] Pipelines.float32)].

Definition ex_pipeline : Pipelines.Pipeline nat :=
  Pipelines.mkPipeline (Some "cuda") (Some ex_processing).

Definition ex_detection : Pipelines.DetectionPipeline nat nat :=
  Pipelines.mkDetectionPipeline ex_pipeline ex_callback ["person"].

Definition ex_world : Pipelines.World :=
  Pipelines.mkWorld (Pipelines.mkModel true "cpu") true [].

(** *** A distillation module: the student is module 0, the teacher is
    module 1 with the parameters 10 and 11 *)

Definition ex_student : KD.SgModule nat nat unit (list nat) unit :=
  KD.mkSgModule
    (fun mode h => KD.mkHeap (KD.requires_grad h) (<[0 := mode]> (KD.training h)))
    (fun h => KD.mkHeap (KD.requires_grad h) (<[0 := false]> (KD.training h)))
    (fun x h => (x, h))
    (fun _ _ h => ([], h))
    (fun pg _ _ _ _ _ h => (pg, h))
    (fun _ h => h).

Definition ex_teacher : KD.TorchModule nat nat :=
  KD.mkTorchModule [1] [10; 11] (fun x h => (x + 1, h)).

Definition ex_arch : KD.ArchParams nat nat unit (list nat) unit :=
  {| KD.arch_student := fun _ => ex_student;
     KD.arch_teacher := fun _ => ex_teacher;
     KD.get_param := fun _ _ _ => true |}.

Definition ex_kd : KD.KDModule nat nat unit (list nat) unit :=
  KD.mkKDModule ex_student ex_teacher true.

(** The same module without [run_teacher_on_eval]. *)
Definition ex_kd_follow : KD.KDModule nat nat unit (list nat) unit :=
  KD.mkKDModule ex_student ex_teacher false.

Definition ex_heap : KD.Heap :=
  KD.mkHeap (<[10 := true]> (<[11 := true]> ∅)) (<[0 := true]> (<[1 := true]> ∅)).

(** *** Samples of a detection dataset: images are numbers *)

Definition ex_targets : Torch.Tensor :=
  Torch.mkTensor [1; 5] [10%R; 20%R; 30%R; 40%R; 2%R].

Definition ex_sample : Collate.Sample nat := Collate.mkSample 7 ex_targets.

Definition ex_long_sample : Collate.Sample nat := Collate.mkSample 8 (Torch.zeros [4; 5]).

(** The collate function of the evaluation loader, with room for three
    objects, and that of the training loader. *)
Definition ex_collate : Collate.get_targets_prep_collate_fn := Collate.mkCollate 2%R true 3.

Definition ex_collate_train : Collate.get_targets_prep_collate_fn :=
  Collate.mkCollate 2%R false 3.

Definition ex_collate_images (images : list nat) : option (list nat) := Some images.

End Examples.

(** * Properties *)

(** ** Tensors: indexing, concatenation, broadcasting *)

Section TorchFacts.
Import Torch.

Local Open Scope nat_scope.

Lemma ravel_lt sh idx : in_bounds sh idx -> ravel sh idx < numel sh.
Proof.
  unfold in_bounds. intros Hb. induction Hb as [|i d is' ds Hi _ IH]; simpl.
  - lia.
  - nia.
Qed.

Lemma unravel_ravel sh idx : in_bounds sh idx -> unravel sh (ravel sh idx) = idx.
Proof.
  unfold in_bounds. intros Hb. induction Hb as [|i d is' ds Hi Hrest IH]; simpl.
  - reflexivity.
  - pose proof (ravel_lt ds is' Hrest) as Hlt.
    assert (Hn : numel ds <> 0) by lia.
    rewrite Nat.div_add_l by exact Hn.
    rewrite (Nat.div_small (ravel ds is')) by exact Hlt.
    rewrite (Nat.add_comm (i * numel ds)), Nat.Div0.mod_add, Nat.mod_small by exact Hlt.
    rewrite IH. f_equal. lia.
Qed.

Lemma in_bounds_unravel sh k : k < numel sh -> in_bounds sh (unravel sh k).
Proof.
  unfold in_bounds. revert k. induction sh as [|d ds IH]; intros k Hk; simpl in *.
  - constructor.
  - assert (Hn : numel ds <> 0) by (intros E; rewrite E in Hk; lia).
    constructor.
    + apply Nat.Div0.div_lt_upper_bound. lia.
    + apply IH. apply Nat.mod_upper_bound. exact Hn.
Qed.

Lemma get_tabulate sh f idx : in_bounds sh idx -> get (tabulate sh f) idx = f idx.
Proof.
  intros Hb. unfold get, tabulate. simpl.
  pose proof (ravel_lt sh idx Hb) as Hlt.
  rewrite (nth_indep _ 0%R (f (unravel sh 0))) by (rewrite length_map, length_seq; exact Hlt).
  rewrite (map_nth (fun k => f (unravel sh k))).
  rewrite seq_nth by exact Hlt. simpl.
  rewrite unravel_ravel by exact Hb. reflexivity.
Qed.


Lemma sumR_ext f g n : (forall k, k < n -> f k = g k) -> sumR f n = sumR g n.
Proof.
  intros Hfg. unfold sumR. f_equal. apply map_ext_in.
  intros k Hk. apply in_seq in Hk. apply Hfg. lia.
Qed.

Lemma sumR_one f : sumR f 1 = f 0.
Proof. unfold sumR. simpl. apply Rplus_0_r. Qed.

End TorchFacts.

(** ** The tensor operations on small tensors *)

Section TorchExamples.
Import Torch.
Variables a b c d e f : R.

Example permute_transposes :
  permute (mkTensor [2; 3] [a; b; c; d; e; f]) [1; 0]
  = Some (mkTensor [3; 2] [a; d; b; e; c; f]).
Proof. reflexivity. Qed.

Example permute_bins_first (a0 a1 a2 a3 a4 a5 a6 a7 : R) :
  permute (mkTensor [1; 4; 2; 1] [a0; a1; a2; a3; a4; a5; a6; a7]) [0; 2; 3; 1]
  = Some (mkTensor [1; 2; 1; 4] [a0; a2; a4; a6; a1; a3; a5; a7]).
Proof. reflexivity. Qed.

Example reshape_infers :
  reshape (mkTensor [2; 3] [a; b; c; d; e; f]) [(-1)%Z; 2%Z]
  = Some (mkTensor [3; 2] [a; b; c; d; e; f]).
Proof. reflexivity. Qed.

Example reshape_rejects :
  reshape (mkTensor [2; 3] [a; b; c; d; e; f]) [(-1)%Z; 4%Z] = None.
Proof. reflexivity. Qed.

Example cat_appends :
  cat [mkTensor [1; 2] [a; b]; mkTensor [1; 1] [c]] (-1)
  = Some (mkTensor [1; 3] [a; b; c]).
Proof. reflexivity. Qed.

Example conv2d_projects :
  conv2d (mkTensor [1; 2; 1; 1] [a; b]) (mkTensor [1; 2; 1; 1] [c; d])
  = Some (mkTensor [1; 1; 1; 1] [(a * c + 0 + 0 + (b * d + 0 + 0 + 0))%R]).
Proof. reflexivity. Qed.

Example softmax_two :
  softmax (mkTensor [2] [a; b]) 0
  = Some (mkTensor [2] [(exp a / (exp a + (exp b + 0)))%R; (exp b / (exp a + (exp b + 0)))%R]).
Proof. reflexivity. Qed.

Example mul_broadcasts :
  mul (mkTensor [1; 2; 2] [a; b; c; d]) (mkTensor [2; 1] [e; f])
  = Some (mkTensor [1; 2; 2] [(a * e)%R; (b * e)%R; (c * f)%R; (d * f)%R]).
Proof. reflexivity. Qed.

Example linspace_bins :
  data (linspace 0 (INR 2) 3)
  = [(0 + INR 0 * ((INR 2 - 0) / INR 2))%R; (0 + INR 1 * ((INR 2 - 0) / INR 2))%R;
     (0 + INR 2 * ((INR 2 - 0) / INR 2))%R].
Proof. reflexivity. Qed.

End TorchExamples.

(** ** [NDFLHeads.forward_eval] *)

Section DflFacts.
Import Torch DflHeads.
Context `{PP : PPYoloE}.

Local Open Scope nat_scope.

(** Settles the tests [infer_shape] makes on the entries of a shape
    argument whose entries are [-1], a literal or [Z.of_nat _]. *)
Ltac decide_shape_tests :=
  repeat match goal with
         | |- context [Z.eq_dec ?a ?b] => destruct (Z.eq_dec a b); try lia
         end;
  repeat match goal with
         | |- context [(?a <? ?b)%Z] => destruct (Z.ltb_spec a b); try lia
         end;
  cbn [orb];
  repeat match goal with
         | |- context [(?a =? ?b)%Z] => destruct (Z.eqb_spec a b); try lia
         end.

Lemma infer_shape_dfl B R1 H W :
  0 < R1 -> 0 < H * W ->
  infer_shape (numel [B; 4 * R1; H; W]) [(-1)%Z; 4%Z; Z.of_nat R1; Z.of_nat (H * W)]
  = Some [B; 4; R1; H * W].
Proof.
  intros HR HHW. unfold infer_shape. cbv zeta.
  cbn [existsb List.filter count_occ map].
  decide_shape_tests.
  cbn [negb List.filter map numel]. rewrite !Nat2Z.id.
  change (Z.to_nat 4) with 4.
  assert (Hk : 4 * (R1 * (H * W * 1)) <> 0) by lia.
  assert (Hn : B * (4 * R1 * (H * (W * 1))) = B * (4 * (R1 * (H * W * 1)))) by lia.
  rewrite Hn.
  destruct (Nat.eqb_spec (4 * (R1 * (H * W * 1))) 0) as [E|_]; [contradiction|].
  rewrite Nat.Div0.mod_mul. cbn [Nat.eqb].
  rewrite Nat.div_mul by exact Hk. reflexivity.
Qed.

Lemma proj_of_spec reg_max :
  exists p, proj_of reg_max = Some p /\ shape p = [1; reg_max + 1; 1; 1] /\
            forall j, j <= reg_max -> get p [0; j; 0; 0] = INR j.
Proof.
  unfold proj_of, reshape, infer_shape. cbv zeta.
  cbn [existsb List.filter count_occ map shape linspace].
  decide_shape_tests.
  cbn [negb List.filter map numel]. rewrite !Nat2Z.id.
  change (Z.to_nat 1) with 1.
  destruct (Nat.eqb_spec ((reg_max + 1) * 1) (1 * ((reg_max + 1) * (1 * (1 * 1))))) as [_|E]; [|lia].
  eexists. split; [reflexivity|]. split; [reflexivity|].
  intros j Hj. unfold get. cbn [shape data ravel numel].
  replace (0 * ((reg_max + 1) * (1 * (1 * 1))) + (j * (1 * (1 * 1)) + (0 * (1 * 1) + (0 * 1 + 0)))) with j by lia.
  unfold linspace. cbn [data].
  match goal with |- nth j (map ?g _) _ = _ => set (f := g) end.
  rewrite (nth_indep _ 0%R (f 0)) by (rewrite length_map, length_seq; lia).
  rewrite (map_nth f), seq_nth by lia. subst f. cbn beta.
  destruct (Nat.eqb_spec (reg_max + 1) 1) as [E|E].
  - assert (j = 0) by lia. subst j. reflexivity.
  - replace (reg_max + 1 - 1) with reg_max by lia. simpl.
    assert (INR reg_max <> 0%R) by (apply not_0_INR; lia).
    field. assumption.
Qed.

Lemma in_bounds4 a b c d A B C D :
  a < A -> b < B -> c < C -> d < D -> in_bounds [A; B; C; D] [a; b; c; d].
Proof. intros. repeat constructor; assumption. Qed.

Lemma in_bounds3 a b c A B C :
  a < A -> b < B -> c < C -> in_bounds [A; B; C] [a; b; c].
Proof. intros. repeat constructor; assumption. Qed.

Lemma get_same_offset sh t idx1 idx2 :
  ravel sh idx1 = ravel (shape t) idx2 ->
  get (mkTensor sh (data t)) idx1 = get t idx2.
Proof. intros E. unfold get. cbn [shape data]. rewrite E. reflexivity. Qed.

Lemma reg_dist_reduce_spec (self : NDFLHeads) reg_distri B H W :
  proj_of (reg_max self) = Some (proj_conv self) ->
  shape reg_distri = [B; 4 * (reg_max self + 1); H; W] ->
  0 < H * W ->
  exists out,
    reg_dist_reduce self reg_distri (H * W) = Some out /\
    shape out = [B; H * W; 4] /\
    well_formed out /\
    forall b h w s, b < B -> h < H -> w < W -> s < 4 ->
      get out [b; h * W + w; s]
      = expected_bin (fun j => get reg_distri [b; s * (reg_max self + 1) + j; h; w])
                     (reg_max self + 1).
Proof.
  intros Hproj Hshape HHW.
  destruct (proj_of_spec (reg_max self)) as (p & Hp & Hpshape & Hpget).
  rewrite Hproj in Hp. injection Hp as <-.
  set (R1 := reg_max self + 1) in *.
  assert (HR1 : 0 < R1) by (subst R1; lia).
  unfold reg_dist_reduce, reshape. fold R1.
  rewrite Hshape, infer_shape_dfl by assumption.
  unfold permute. cbn [shape length is_perm].
  change (is_perm 4 [0; 2; 3; 1]) with true. cbv iota.
  cbn [permute_list map nth].
  set (perm_t := tabulate [B; R1; H * W; 4] _).
  unfold softmax. cbn [shape tabulate length perm_t nth].
  change (1 <? 4) with true. cbv iota.
  set (sm := tabulate [B; R1; H * W; 4] _).
  unfold conv2d. cbn [shape sm tabulate]. rewrite Hpshape.
  rewrite Nat.eqb_refl.
  destruct (Nat.leb_spec 1 (H * W)) as [_|]; [|lia].
  change (1 <=? 4) with true. cbn [andb].
  set (cv := tabulate [B; 1; H * W - 1 + 1; 4 - 1 + 1] _).
  unfold squeeze. cbn [shape cv tabulate length nth remove_nth firstn skipn app].
  change (1 <? 4) with true. change (1 =? 1) with true. cbv iota.
  eexists. split; [reflexivity|]. cbn [shape].
  split; [f_equal; [f_equal; lia]|].
  split.
  { unfold well_formed. cbn [shape data]. unfold cv, tabulate. cbn [data].
    rewrite length_map, length_seq. cbn [numel]. lia. }
  intros b h w s Hb Hh Hw Hs.
  assert (Ha : h * W + w < H * W) by nia.
  assert (Hperm : forall k, k < R1 ->
            get perm_t [b; k; h * W + w; s] = get reg_distri [b; s * R1 + k; h; w]).
  { intros k Hk. unfold perm_t. rewrite get_tabulate by (apply in_bounds4; assumption).
    cbn [unpermute_list length seq map position Nat.eqb nth].
    apply get_same_offset. rewrite Hshape. cbn [ravel numel]. ring. }
  assert (Hsm : forall k, k < R1 ->
            get sm [b; k; h * W + w; s]
            = Rdiv (exp (get reg_distri [b; s * R1 + k; h; w]))
                   (sumR (fun j => exp (get reg_distri [b; s * R1 + j; h; w])) R1)).
  { intros k Hk. unfold sm. rewrite get_tabulate by (apply in_bounds4; assumption).
    rewrite Hperm by assumption. f_equal.
    apply sumR_ext. intros j Hj. cbn [set_nth]. f_equal.
    change (<[1:=j]> [b; k; h * W + w; s]) with [b; j; h * W + w; s].
    apply Hperm. assumption. }
  rewrite (get_same_offset _ cv _ [b; 0; h * W + w; s])
    by (unfold cv; cbn [shape tabulate ravel numel]; ring).
  unfold cv. rewrite get_tabulate by (apply in_bounds4; lia).
  unfold expected_bin. apply sumR_ext. intros j Hj.
  rewrite !sumR_one, !Nat.add_0_r.
  rewrite Hsm by assumption. rewrite Hpget by (subst R1; lia).
  apply Rmult_comm.
Qed.

Lemma constructed_inv self :
  constructed self ->
  proj_of (reg_max self) = Some (proj_conv self) /\ anchors_cached self.
Proof.
  induction 1 as [nc hl fs gs go rm es self Hinit | self sz self' _ [IHp IHa] Hcache].
  - unfold __init__ in Hinit.
    destruct (proj_of rm) as [proj|] eqn:Hproj; [|discriminate].
    unfold _init_weights in Hinit. cbn [eval_size] in Hinit.
    destruct es as [sz|].
    + destruct (_generate_anchors _ None) as [[ap st]|] eqn:Hgen; [|discriminate].
      injection Hinit as <-. cbn. split; [exact Hproj|].
      intros sz' [= <-]. eexists _, ap, st. split; [|split; [exact Hgen|split; reflexivity]].
      reflexivity.
    + injection Hinit as <-. cbn. split; [exact Hproj|]. intros sz' [=].
  - unfold cache_anchors in Hcache.
    destruct (_generate_anchors _ None) as [[ap st]|] eqn:Hgen; [|discriminate].
    injection Hcache as <-. cbn. split; [exact IHp|].
    intros sz' [= <-]. eexists _, ap, st. split; [|split; [exact Hgen|split; reflexivity]].
    reflexivity.
Qed.

(** C1.  For a head built by [__init__], in [NDFLHeads.forward_eval] the
    raw regression output of a feature map, of shape [[B, 4*(reg_max+1), H, W]], is reduced to a
    tensor of shape [[B, H*W, 4]]: the distance of side [s] of the anchor
    at cell [(h, w)] of image [b] is the expected bin index of the softmax
    of the [reg_max+1] logits [reg_distri[b, s*(reg_max+1)+j, h, w]], that
    is the sum over [j] from 0 to [reg_max] of [j * softmax(logits)_j].
    It is computed by a 1x1 convolution with the weights [proj_conv] of
    shape [[1, reg_max+1, 1, 1]], which are [linspace(0, reg_max,
    reg_max+1)]: the weight of bin [j] is [j]. *)
Theorem reg_dist_reduce_expected (self : NDFLHeads) reg_distri B H W b h w s :
  constructed self ->
  shape reg_distri = [B; 4 * (reg_max self + 1); H; W] ->
  b < B -> h < H -> w < W -> s < 4 ->
  shape (proj_conv self) = [1; reg_max self + 1; 1; 1] /\
  (forall j, j <= reg_max self -> get (proj_conv self) [0; j; 0; 0] = INR j) /\
  exists out,
    reg_dist_reduce self reg_distri (H * W) = Some out /\
    shape out = [B; H * W; 4] /\
    get out [b; h * W + w; s]
    = expected_bin (fun j => get reg_distri [b; s * (reg_max self + 1) + j; h; w])
                   (reg_max self + 1).
Proof.
  intros Hcon Hshape Hb Hh Hw Hs.
  destruct (constructed_inv self Hcon) as [Hproj _].
  destruct (proj_of_spec (reg_max self)) as (p & Hp & Hpshape & Hpget).
  rewrite Hproj in Hp. injection Hp as <-.
  split; [exact Hpshape|]. split; [exact Hpget|].
  destruct (reg_dist_reduce_spec self reg_distri B H W Hproj Hshape) as (out & Hout & Hsh & _ & Hget);
    [nia|].
  exists out. split; [exact Hout|]. split; [exact Hsh|]. apply Hget; assumption.
Qed.


Lemma nth_set_nth d v (idx : list nat) : d < length idx -> nth d (set_nth d v idx) 0 = v.
Proof.
  intros Hd. unfold set_nth. apply nth_lookup_Some. apply list_lookup_insert_eq. exact Hd.
Qed.

Lemma list_eqb_refl l : list_eqb l l = true.
Proof.
  unfold list_eqb. rewrite Nat.eqb_refl. cbn [andb].
  induction l as [|a l IH]; [reflexivity|]. cbn. rewrite Nat.eqb_refl. exact IH.
Qed.

Lemma cat_get_offset ts1 t ts2 d idx a :
  d < length idx ->
  a < nth d (shape t) 0 ->
  nth d idx 0 = dim_total d ts1 + a ->
  cat_get (ts1 ++ t :: ts2) d idx = get t (set_nth d a idx).
Proof.
  revert idx. induction ts1 as [|t1 ts1 IH]; intros idx Hd Ha Hi; cbn [app cat_get].
  - assert (Hi' : nth d idx 0 = a) by (cbn in Hi; lia). rewrite Hi'.
    destruct (Nat.ltb_spec a (nth d (shape t) 0)) as [_|]; [|lia].
    f_equal. unfold set_nth. symmetry. apply list_insert_id'.
    intros _. rewrite <- Hi'.
    destruct (nth_lookup_or_length idx d 0) as [E|E]; [exact E|lia].
  - cbn [dim_total fold_right] in Hi. fold (dim_total d ts1) in Hi.
    destruct (Nat.ltb_spec (nth d idx 0) (nth d (shape t1) 0)) as [|_]; [lia|].
    rewrite IH.
    + unfold set_nth. rewrite list_insert_insert_eq. reflexivity.
    + unfold set_nth. rewrite length_insert. exact Hd.
    + exact Ha.
    + rewrite nth_set_nth by exact Hd. lia.
Qed.

Lemma cat_dim1 B K ts :
  ts <> [] ->
  Forall (fun t => exists n, shape t = [B; n; K]) ts ->
  cat ts 1 = Some (tabulate [B; dim_total 1 ts; K] (cat_get ts 1)).
Proof.
  intros Hne Hall. destruct ts as [|t0 ts']; [contradiction|].
  unfold cat. pose proof (Forall_inv Hall) as (n0 & Hsh0). rewrite Hsh0.
  cbn [length norm_dim]. change (norm_dim 3 1) with (Some 1).
  assert (Hchk : forallb (fun t => list_eqb (remove_nth 1 (shape t)) (remove_nth 1 [B; n0; K])
                                   && (length (shape t) =? 3)) (t0 :: ts') = true).
  { apply forallb_forall. intros t Ht.
    assert (Ht' : exists n, shape t = [B; n; K]).
    { clear - Hall Ht. induction Hall as [|x l Hx _ IH]; [destruct Ht|].
      destruct Ht as [->|Ht]; [exact Hx|exact (IH Ht)]. }
    destruct Ht' as (n & ->). cbn [remove_nth firstn skipn app length].
    rewrite list_eqb_refl. reflexivity. }
  cbv iota beta. rewrite Hchk. reflexivity.
Qed.

Lemma cat_dim_last B K ts :
  ts <> [] ->
  Forall (fun t => exists n, shape t = [B; K; n]) ts ->
  cat ts (-1) = Some (tabulate [B; K; dim_total 2 ts] (cat_get ts 2)).
Proof.
  intros Hne Hall. destruct ts as [|t0 ts']; [contradiction|].
  unfold cat. pose proof (Forall_inv Hall) as (n0 & Hsh0). rewrite Hsh0.
  cbn [length]. change (norm_dim 3 (-1)) with (Some 2).
  assert (Hchk : forallb (fun t => list_eqb (remove_nth 2 (shape t)) (remove_nth 2 [B; K; n0])
                                   && (length (shape t) =? 3)) (t0 :: ts') = true).
  { apply forallb_forall. intros t Ht.
    assert (Ht' : exists n, shape t = [B; K; n]).
    { clear - Hall Ht. induction Hall as [|x l Hx _ IH]; [destruct Ht|].
      destruct Ht as [->|Ht]; [exact Hx|exact (IH Ht)]. }
    destruct Ht' as (n & ->). cbn [remove_nth firstn skipn app length].
    rewrite list_eqb_refl. reflexivity. }
  cbv iota beta. rewrite Hchk. reflexivity.
Qed.

Lemma infer_shape_plain3 n a b c :
  n = a * (b * (c * 1)) ->
  infer_shape n [Z.of_nat a; Z.of_nat b; Z.of_nat c] = Some [a; b; c].
Proof.
  intros ->. unfold infer_shape. cbv zeta.
  cbn [existsb List.filter count_occ map].
  decide_shape_tests.
  cbn [negb List.filter map numel]. rewrite !Nat2Z.id, Nat.eqb_refl. reflexivity.
Qed.

Lemma forward_eval_loop_spec (self : NDFLHeads) B lvs :
  proj_of (reg_max self) = Some (proj_conv self) ->
  Forall (level_ok self B) lvs ->
  forall i acc,
  (forall j lv, nth_error lvs j = Some lv -> nth_error (heads self) (i + j) = Some (lv_head lv)) ->
  exists cl fl rl,
    forward_eval_loop self i (map lv_feat lvs) acc
    = Some (fst (fst acc) ++ cl, snd (fst acc) ++ fl, snd acc ++ rl) /\
    Forall2 (cls_rel self B) lvs cl /\
    Forall2 (flp_rel self B) lvs fl /\
    Forall2 (red_rel self B) lvs rl.
Proof.
  intros Hproj Hall. induction Hall as [|lv lvs Hlv _ IH]; intros i [[a1 a2] a3] Hheads.
  - exists [], [], []. cbn. rewrite !app_nil_r. repeat split; constructor.
  - destruct Hlv as (Hfeat & Hhead & Hreg & Hcls & Hh & Hw).
    cbn [map forward_eval_loop fst snd]. rewrite Hfeat.
    pose proof (Hheads 0 lv eq_refl) as Hh0. rewrite Nat.add_0_r in Hh0. rewrite Hh0.
    rewrite Hhead.
    unfold flatten. rewrite Hreg. cbn [length]. change (2 <? 4) with true. cbv iota.
    cbn [firstn skipn app numel].
    unfold permute at 1. cbn [shape length]. change (is_perm 3 [0; 2; 1]) with true.
    cbv iota. cbn [permute_list map nth].
    destruct (reg_dist_reduce_spec self (lv_reg lv) B (lv_h lv) (lv_w lv) Hproj Hreg)
      as (out & Hout & Hsh & _ & Hget); [nia|].
    rewrite Hout.
    unfold reshape. rewrite Hcls.
    rewrite infer_shape_plain3 by (cbn [numel]; lia).
    set (flp := tabulate _ _). set (cls := mkTensor _ _).
    destruct (IH (S i) (a1 ++ [cls], a2 ++ [flp], a3 ++ [out])) as (cl & fl & rl & Hloop & Hcl & Hfl & Hrl).
    { intros j lv' Hj. replace (S i + j) with (i + S j) by lia. apply Hheads. exact Hj. }
    exists (cls :: cl), (flp :: fl), (out :: rl).
    rewrite Hloop. cbn [fst snd]. rewrite <- !app_assoc. cbn [app].
    split; [reflexivity|].
    split; [constructor; [|exact Hcl]|split; [constructor; [|exact Hfl]|constructor; [|exact Hrl]]].
    + split; [reflexivity|]. intros b c y x Hb Hc Hy Hx.
      unfold cls. apply get_same_offset. rewrite Hcls. cbn [ravel numel]. ring.
    + eexists. reflexivity.
    + split; [exact Hsh|]. exact Hget.
Qed.

Lemma Forall2_dim_total d (R : Level -> Tensor -> Prop) lvs ts :
  (forall lv t, R lv t -> nth d (shape t) 0 = lv_h lv * lv_w lv) ->
  Forall2 R lvs ts -> dim_total d ts = anchors_of lvs.
Proof.
  intros HR Hall. induction Hall as [|lv t lvs ts Hlt _ IH]; [reflexivity|].
  cbn [dim_total anchors_of fold_right]. fold (dim_total d ts). fold (anchors_of lvs).
  rewrite (HR lv t Hlt), IH. reflexivity.
Qed.

Lemma Forall2_nth_split (R : Level -> Tensor -> Prop) lvs ts i lv :
  Forall2 R lvs ts -> nth_error lvs i = Some lv ->
  exists ts1 t ts2, ts = ts1 ++ t :: ts2 /\ R lv t /\ Forall2 R (firstn i lvs) ts1.
Proof.
  intros Hall. revert i. induction Hall as [|lv0 t0 lvs ts Hlt Hrest IH]; intros i Hi.
  - destruct i; discriminate Hi.
  - destruct i as [|i]; cbn in Hi.
    + injection Hi as <-. exists [], t0, ts. repeat split; [exact Hlt|constructor].
    + destruct (IH i Hi) as (ts1 & t & ts2 & -> & Ht & Hfirst).
      exists (t0 :: ts1), t, ts2. repeat split; [exact Ht|].
      cbn [firstn]. constructor; assumption.
Qed.

Lemma get_sigmoid t idx :
  well_formed t -> in_bounds (shape t) idx ->
  get (sigmoid t) idx = (1 / (1 + exp (- get t idx)))%R.
Proof.
  intros Hwf Hb. unfold get, sigmoid. cbn [shape data].
  pose proof (ravel_lt _ _ Hb) as Hlt. rewrite <- Hwf in Hlt.
  set (f := fun x : R => (1 / (1 + exp (- x)))%R).
  rewrite (nth_indep _ 0%R (f 0%R)) by (rewrite length_map; exact Hlt).
  apply (map_nth f).
Qed.


Lemma anchors_of_nth lvs i lv :
  nth_error lvs i = Some lv ->
  anchors_of (firstn i lvs) + lv_h lv * lv_w lv <= anchors_of lvs.
Proof.
  revert i. induction lvs as [|lv0 lvs IH]; intros i Hi.
  - destruct i; discriminate Hi.
  - destruct i as [|i]; cbn in Hi.
    + injection Hi as <-. cbn. lia.
    + specialize (IH i Hi). cbn [firstn anchors_of fold_right].
      fold (anchors_of (firstn i lvs)). fold (anchors_of lvs). lia.
Qed.

Lemma Forall2_Forall_r {A B} (R : A -> B -> Prop) (P : B -> Prop) l1 l2 :
  (forall a b, R a b -> P b) -> Forall2 R l1 l2 -> Forall P l2.
Proof. intros HRP Hall. induction Hall; constructor; eauto. Qed.


End DflFacts.

(** ** [Pipeline._run] and [DetectionPipeline] *)

Section PipelineFacts.
Import Pipelines.
Context {ImageType ModelOutput Metadata : Type}.
Context `{Ext : External ImageType ModelOutput Metadata}.

Abbreviation Processing := (Processing Metadata).
Abbreviation Pipeline := (Pipeline Metadata).
Abbreviation DetectionPipeline := (DetectionPipeline ModelOutput Metadata).
Abbreviation Images := (Images ImageType).

Lemma add_trace_nil w : add_trace w [] = w.
Proof. destruct w. unfold add_trace. cbn. rewrite app_nil_r. reflexivity. Qed.

Lemma add_trace_add_trace w es1 es2 :
  add_trace (add_trace w es1) es2 = add_trace w (es1 ++ es2).
Proof. unfold add_trace. cbn. rewrite app_assoc. reflexivity. Qed.

(** *** The loops *)

Lemma preprocess_loop_world (self : Pipeline) images acc w :
  exists r es,
    preprocess_loop self images acc w = (r, add_trace w es) /\
    forallb is_preprocess es = true.
Proof.
  revert acc w. induction images as [|image images IH]; intros [pi pm] w.
  - exists (Some (pi, pm)), []. rewrite add_trace_nil. split; reflexivity.
  - cbn [preprocess_loop]. destruct (image_processor self) as [ip|].
    + unfold bind, log.
      destruct (preprocess_image ip (copy image)) as [a b].
      destruct (IH (pi ++ [a], pm ++ [b]) (add_trace w [EvPreprocess image]))
        as (r & es & Hr & Hes).
      exists r, (EvPreprocess image :: es). split.
      * unfold add_trace in Hr at 1. rewrite Hr, add_trace_add_trace. reflexivity.
      * exact Hes.
    + exists None, []. rewrite add_trace_nil. split; reflexivity.
Qed.

Lemma postprocess_loop_world (self : Pipeline) zipped acc w :
  exists r es,
    postprocess_loop self zipped acc w = (r, add_trace w es) /\
    forallb is_postprocess es = true.
Proof.
  revert acc w. induction zipped as [|[[t|] meta] zipped IH]; intros acc w.
  - exists (Some acc), []. rewrite add_trace_nil. split; reflexivity.
  - cbn [postprocess_loop]. destruct (image_processor self) as [ip|].
    + unfold bind, log.
      destruct (IH (acc ++ [postprocess_predictions ip (numpy (cpu (detach t))) meta])
                   (add_trace w [EvPostprocess (numpy (cpu (detach t)))]))
        as (r & es & Hr & Hes).
      exists r, (EvPostprocess (numpy (cpu (detach t))) :: es). split.
      * unfold add_trace in Hr at 1. rewrite Hr, add_trace_add_trace. reflexivity.
      * exact Hes.
    + exists None, []. rewrite add_trace_nil. split; reflexivity.
  - exists None, []. rewrite add_trace_nil. split; reflexivity.
Qed.

Lemma preprocess_loop_spec (self : Pipeline) (ip : Processing) images acc w :
  image_processor self = Some ip ->
  preprocess_loop self images acc w
  = (Some (fst acc ++ map fst (stage_preprocess ip images),
           snd acc ++ map snd (stage_preprocess ip images)),
     add_trace w (map EvPreprocess images)).
Proof.
  intros Hip. revert acc w. induction images as [|image images IH]; intros [pi pm] w.
  - cbn. rewrite !app_nil_r, add_trace_nil. reflexivity.
  - cbn [preprocess_loop]. rewrite Hip. unfold bind, log.
    destruct (preprocess_image ip (copy image)) as [a b] eqn:E.
    rewrite IH. cbn [fst snd stage_preprocess map]. rewrite E. cbn [fst snd].
    rewrite <- !app_assoc. unfold add_trace. cbn [trace model grad_enabled].
    rewrite <- app_assoc. reflexivity.
Qed.

Lemma postprocess_loop_spec (self : Pipeline) (ip : Processing) (ts : list TorchTensor)
    (metas : list Metadata) acc w :
  image_processor self = Some ip ->
  postprocess_loop self (combine (map Some ts) metas) acc w
  = (Some (acc ++ stage_postprocess ip ts metas),
     add_trace w (map (fun pm => EvPostprocess (as_array (fst pm))) (combine ts metas))).
Proof.
  intros Hip. unfold stage_postprocess.
  revert metas acc w. induction ts as [|t ts IH]; intros metas acc w.
  - cbn. rewrite !app_nil_r, add_trace_nil. reflexivity.
  - destruct metas as [|meta metas].
    + cbn. rewrite !app_nil_r, add_trace_nil. reflexivity.
    + cbn [map combine postprocess_loop]. rewrite Hip. unfold bind, log. rewrite IH.
      cbn [fst snd]. unfold add_trace. cbn [trace model grad_enabled].
      rewrite <- !app_assoc. reflexivity.
Qed.

(** *** [eval_mode] *)

Lemma eval_mode_spec {A} (body : M A) (w : World) :
  eval_mode body w
  = match body (eval_mode_entry w) with
    | (Some a, w1) =>
        (Some a,
         mkWorld (mkModel (training (model w)) (model_device (model w1)))
                 (grad_enabled w)
                 (trace w1 ++ [EvSetGrad (grad_enabled w); EvModelTrain (training (model w))]))
    | (None, w1) =>
        (None,
         mkWorld (model w1) (grad_enabled w) (trace w1 ++ [EvSetGrad (grad_enabled w)]))
    end.
Proof.
  unfold eval_mode, Module_eval, Module_train, no_grad, set_grad_enabled, bind, log, ret,
    eval_mode_entry.
  cbn [fst snd model grad_enabled trace training model_device].
  rewrite <- app_assoc. cbn [app].
  destruct (body _) as [[a|] w1]; cbn [fst snd model grad_enabled trace];
    rewrite <- ?app_assoc; reflexivity.
Qed.

(** *** [_run] *)

Lemma load_images_stage (images : Images) : load_images images = stage_load images.
Proof. destruct images; reflexivity. Qed.

(** The predict stage of [_run], from the world [w1] the preprocessing
    left: it cannot raise. *)
Lemma predict_stage (self : Pipeline) (decode : ModelOutput -> list (option TorchTensor))
    (pis : list ndarray) (w1 : World) :
  eval_mode
    (bind (call_model (Tensor_to (torch_Tensor (np_array pis)) (device self)))
          (fun model_output => bind (log EvDecode) (fun _ => ret (decode model_output))))
    w1
  = (Some (decode (Module_call (mkModel false (model_device (model w1))) false
                     (batch_inputs self pis))),
     mkWorld (model w1) (grad_enabled w1)
       (trace w1 ++ [EvModelTrain false; EvSetGrad false;
                     EvForward (mkModel false (model_device (model w1))) false
                       (batch_inputs self pis);
                     EvDecode;
                     EvSetGrad (grad_enabled w1); EvModelTrain (training (model w1))])).
Proof.
  rewrite eval_mode_spec. unfold call_model, bind, log, ret, eval_mode_entry, batch_inputs.
  cbn [fst snd model grad_enabled trace training model_device].
  rewrite <- !app_assoc. cbn [app]. destruct w1 as [[tr dev] g t]. reflexivity.
Qed.

(** [_run] in terms of its two loops. *)
Lemma run_steps (self : Pipeline) decode (images : Images) (w : World) :
  _run self decode images w
  = match preprocess_loop self (stage_load images) ([], [])
            (world_after self w [EvModelTo (device self); EvLoadImages]) with
    | (Some (pis, metas), w1) =>
        match postprocess_loop self
                (combine (decode (Module_call (mkModel false (model_device (model w1))) false
                                    (batch_inputs self pis)))
                         metas)
                []
                (mkWorld (model w1) (grad_enabled w1)
                   (trace w1 ++ [EvModelTrain false; EvSetGrad false;
                                 EvForward (mkModel false (model_device (model w1))) false
                                   (batch_inputs self pis);
                                 EvDecode;
                                 EvSetGrad (grad_enabled w1);
                                 EvModelTrain (training (model w1))])) with
        | (Some predictions, w2) => (Some (stage_load images, predictions), w2)
        | (None, w2) => (None, w2)
        end
    | (None, w1) => (None, w1)
    end.
Proof.
  unfold _run. rewrite load_images_stage.
  unfold bind at 1. unfold Module_to at 1. unfold bind at 1. cbn [log].
  unfold bind at 1. cbn [log].
  set (w0 := mkWorld _ _ _).
  assert (Hw0 : w0 = world_after self w [EvModelTo (device self); EvLoadImages]).
  { unfold w0, world_after, device_after_to.
    destruct (device self); cbn [model grad_enabled trace training model_device];
      rewrite <- app_assoc; [reflexivity|]. destruct w as [[tr dev] g t]. reflexivity. }
  clearbody w0. subst w0.
  unfold bind at 1.
  destruct (preprocess_loop _ _ _ _) as [[[pis metas]|] w1]; [|reflexivity].
  unfold bind at 1. cbv zeta. rewrite predict_stage.
  unfold bind, ret. destruct (postprocess_loop _ _ _ _) as [[r|] w2]; reflexivity.
Qed.

(** What [_run] does, whatever happens: either the preprocessing raises,
    or the predict stage is run once and the postprocessing follows. *)
Lemma run_trace (self : Pipeline) decode (images : Images) (w : World) :
  exists r pre_es,
    forallb is_preprocess pre_es = true /\
    ((r = None /\
      _run self decode images w
      = (r, world_after self w (EvModelTo (device self) :: EvLoadImages :: pre_es)))
     \/
     (exists pis post_es,
        forallb is_postprocess post_es = true /\
        _run self decode images w
        = (r, world_after self w
                (EvModelTo (device self) :: EvLoadImages :: pre_es
                   ++ predict_events self w pis ++ post_es)))).
Proof.
  rewrite run_steps.
  destruct (preprocess_loop_world self (stage_load images) ([], [])
              (world_after self w [EvModelTo (device self); EvLoadImages]))
    as ([[pis metas]|] & pre_es & Hpre & Hpre_es); rewrite Hpre.
  - unfold add_trace, world_after. cbn [model grad_enabled trace training model_device].
    match goal with
    | |- context [postprocess_loop self ?z ?a ?w1] =>
        destruct (postprocess_loop_world self z a w1) as (r & post_es & Hpost & Hpost_es);
        rewrite Hpost
    end.
    exists (option_map (pair (stage_load images)) r), pre_es.
    split; [exact Hpre_es|]. right. exists pis, post_es. split; [exact Hpost_es|].
    unfold add_trace, predict_events, predict_model. cbn [model grad_enabled trace].
    rewrite <- ?app_assoc. cbn [app]. rewrite <- ?app_assoc. cbn [app].
    destruct r; reflexivity.
  - exists None, pre_es. split; [exact Hpre_es|]. left. split; [reflexivity|].
    unfold add_trace, world_after. cbn [model grad_enabled trace].
    rewrite <- app_assoc. reflexivity.
Qed.

Lemma forallb_In {A} (P : A -> bool) (l : list A) (x : A) :
  forallb P l = true -> In x l -> P x = true.
Proof. intros Hall Hin. exact (proj1 (forallb_forall P l) Hall x Hin). Qed.

Lemma forallb_impl {A} (P Q : A -> bool) (l : list A) :
  (forall x, P x = true -> Q x = true) -> forallb P l = true -> forallb Q l = true.
Proof.
  intros HPQ. induction l as [|x l IH]; [reflexivity|]. cbn. intros Hall.
  apply andb_prop in Hall as [Hx Hl]. rewrite (HPQ x Hx), (IH Hl). reflexivity.
Qed.

Lemma preprocess_is_io e : is_preprocess e = true -> is_io e = true.
Proof. destruct e; try discriminate; reflexivity. Qed.

Lemma postprocess_is_io e : is_postprocess e = true -> is_io e = true.
Proof. destruct e; try discriminate; reflexivity. Qed.

Lemma io_not_forward e : is_io e = true -> negb (is_forward e) = true.
Proof. destruct e; try discriminate; reflexivity. Qed.

(** A forward pass among the events of a run is the one of its predict
    stage. *)
Lemma forward_in_run (self : Pipeline) w pre_es pis post_es m g inputs :
  forallb is_preprocess pre_es = true ->
  forallb is_postprocess post_es = true ->
  In (EvForward m g inputs)
     (EvModelTo (device self) :: EvLoadImages :: pre_es
        ++ predict_events self w pis ++ post_es) ->
  m = predict_model self w /\ g = false /\ inputs = batch_inputs self pis.
Proof.
  intros Hpre Hpost Hin.
  destruct Hin as [Hin|[Hin|Hin]]; try discriminate Hin.
  apply in_app_or in Hin as [Hin|Hin].
  { pose proof (forallb_In _ _ _ Hpre Hin) as Hp. discriminate Hp. }
  apply in_app_or in Hin as [Hin|Hin].
  - unfold predict_events in Hin. cbn [In] in Hin.
    repeat (destruct Hin as [Hin|Hin]; try discriminate Hin); [|contradiction].
    injection Hin as <- <- <-. repeat split.
  - pose proof (forallb_In _ _ _ Hpost Hin) as Hp. discriminate Hp.
Qed.

(** C3.  [eval_mode] runs its body with the model in evaluation mode and
    gradients disabled and, when the body returns, calls [model.train]
    with the mode saved on entry.  In [Pipeline._run] every forward pass
    is made by a model whose [training] flag is [False], with gradients
    disabled; when [_run] is over the [training] flag of the model and the
    gradient mode are what they were before; and a run that returns has
    made its forward pass between [model.eval()] and
    [model.train(saved mode)], no other call touching the mode. *)
Theorem run_eval_mode_restored (self : Pipeline) decode (images : Images) (w : World) :
  (forall (A : Type) (body : M A) (w0 : World),
     training (model (eval_mode_entry w0)) = false /\
     grad_enabled (eval_mode_entry w0) = false /\
     eval_mode body w0
     = match body (eval_mode_entry w0) with
       | (Some a, w1) =>
           (Some a,
            mkWorld (mkModel (training (model w0)) (model_device (model w1)))
                    (grad_enabled w0)
                    (trace w1 ++ [EvSetGrad (grad_enabled w0);
                                  EvModelTrain (training (model w0))]))
       | (None, w1) =>
           (None,
            mkWorld (model w1) (grad_enabled w0) (trace w1 ++ [EvSetGrad (grad_enabled w0)]))
       end) /\
  let r := _run self decode images w in
  training (model (snd r)) = training (model w) /\
  grad_enabled (snd r) = grad_enabled w /\
  exists es,
    trace (snd r) = trace w ++ es /\
    (forall m g inputs, In (EvForward m g inputs) es -> training m = false /\ g = false) /\
    (fst r <> None ->
     exists before inputs after,
       es = before
            ++ [EvModelTrain false; EvSetGrad false;
                EvForward (predict_model self w) false inputs; EvDecode;
                EvSetGrad (grad_enabled w); EvModelTrain (training (model w))]
            ++ after /\
       forallb is_io before = true /\ forallb is_io after = true).
Proof.
  split.
  { intros A body w0. split; [reflexivity|]. split; [reflexivity|]. apply eval_mode_spec. }
  cbv zeta.
  destruct (run_trace self decode images w)
    as (r & pre_es & Hpre & [[-> Hrun]|(pis & post_es & Hpost & Hrun)]); rewrite Hrun;
    cbn [fst snd world_after model training grad_enabled trace];
    (split; [reflexivity|]); (split; [reflexivity|]).
  - exists (EvModelTo (device self) :: EvLoadImages :: pre_es).
    split; [reflexivity|]. split; [|intros Hne; contradiction].
    intros m g inputs [Hin|[Hin|Hin]]; try discriminate Hin.
    pose proof (forallb_In _ _ _ Hpre Hin) as Hp. discriminate Hp.
  - exists (EvModelTo (device self) :: EvLoadImages :: pre_es
              ++ predict_events self w pis ++ post_es).
    split; [reflexivity|]. split.
    + intros m g inputs Hin.
      destruct (forward_in_run self w pre_es pis post_es m g inputs Hpre Hpost Hin)
        as (-> & -> & _).
      split; reflexivity.
    + intros _. exists (EvModelTo (device self) :: EvLoadImages :: pre_es),
        (batch_inputs self pis), post_es.
      split; [reflexivity|].
      split.
      * cbn [forallb is_io andb]. apply (forallb_impl is_preprocess); [|exact Hpre].
        apply preprocess_is_io.
      * apply (forallb_impl is_postprocess); [|exact Hpost]. apply postprocess_is_io.
Qed.

(** C6.  For a pipeline constructed with the device [d], the first call
    every [_run] makes is [model.to(d)]; every forward pass of the run is
    made by a model that is on [d], on an input tensor that is on [d]; a
    run that returns has made exactly one. *)
Theorem run_on_configured_device
    (image_processor : option (Processing + list Processing))
    (d : string) (w0 w1 : World) (self : Pipeline) decode (images : Images) (w : World) :
  Pipeline__init__ image_processor (Some d) w0 = (Some self, w1) ->
  device self = Some d /\ model_device (model w1) = d /\
  let r := _run self decode images w in
  exists es,
    trace (snd r) = trace w ++ EvModelTo (Some d) :: es /\
    (forall m g inputs, In (EvForward m g inputs) es ->
       model_device m = d /\ tensor_device inputs = d) /\
    model_device (model (snd r)) = d /\
    (fst r <> None ->
     exists before m inputs after,
       es = before ++ EvForward m false inputs :: after /\
       forallb (fun e => negb (is_forward e)) before = true /\
       forallb (fun e => negb (is_forward e)) after = true).
Proof.
  intros Hinit.
  unfold Pipeline__init__, bind, Module_to, log, ret in Hinit.
  cbn [fst snd model grad_enabled trace] in Hinit. injection Hinit as <- <-.
  cbn [device model model_device]. split; [reflexivity|]. split; [reflexivity|].
  cbv zeta. set (self := mkPipeline _ _).
  assert (Hdev : device self = Some d) by reflexivity.
  destruct (run_trace self decode images w)
    as (r & pre_es & Hpre & [[-> Hrun]|(pis & post_es & Hpost & Hrun)]); rewrite Hrun;
    cbn [fst snd world_after model model_device trace]; rewrite Hdev;
    cbn [device_after_to].
  - exists (EvLoadImages :: pre_es). split; [reflexivity|]. split.
    + intros m g inputs [Hin|Hin]; try discriminate Hin.
      pose proof (forallb_In _ _ _ Hpre Hin) as Hp. discriminate Hp.
    + split; [reflexivity|]. intros Hne. contradiction.
  - exists (EvLoadImages :: pre_es ++ predict_events self w pis ++ post_es).
    split; [reflexivity|]. split.
    + intros m g inputs Hin.
      destruct (forward_in_run self w pre_es pis post_es m g inputs Hpre Hpost)
        as (-> & -> & ->).
      { right. exact Hin. }
      unfold predict_model, batch_inputs. rewrite Hdev. split; reflexivity.
    + split; [reflexivity|]. intros _.
      exists (EvLoadImages :: pre_es ++ [EvModelTrain false; EvSetGrad false]),
        (predict_model self w), (batch_inputs self pis),
        ([EvDecode; EvSetGrad (grad_enabled w); EvModelTrain (training (model w))] ++ post_es).
      split; [unfold predict_events; cbn [app]; rewrite <- app_assoc; reflexivity|].
      split.
      * cbn [forallb is_forward negb andb]. rewrite forallb_app. cbn.
        rewrite andb_true_r. apply (forallb_impl is_preprocess); [|exact Hpre].
        intros e He. apply io_not_forward, preprocess_is_io, He.
      * cbn [app forallb is_forward negb andb].
        apply (forallb_impl is_postprocess); [|exact Hpost].
        intros e He. apply io_not_forward, postprocess_is_io, He.
Qed.

Lemma decode_as_tensors (self : DetectionPipeline) model_output :
  _decode_model_output self model_output = map Some (decoded_tensors self model_output).
Proof.
  unfold _decode_model_output, decoded_tensors. rewrite map_map.
  apply map_ext. intros [t|]; reflexivity.
Qed.

(** C7.  [DetectionPipeline._decode_model_output] returns a list as long
    as the result of [post_prediction_callback]; an entry that was [None]
    is a [float32] tensor of zeros of shape [(0, 6)] (it has no element),
    any other entry is unchanged, and no entry of the result is [None]. *)
Theorem decode_model_output_replaces_none (self : DetectionPipeline)
    (model_output : ModelOutput) :
  let decoded := post_prediction_callback self model_output (device (pipeline self)) in
  let out := _decode_model_output self model_output in
  length out = length decoded /\
  (forall i, nth_error decoded i = Some None ->
             nth_error out i = Some (Some (torch_zeros [0; 6] float32))) /\
  (forall i t, nth_error decoded i = Some (Some t) -> nth_error out i = Some (Some t)) /\
  Forall (fun v => v <> None) out /\
  dtype (torch_zeros [0; 6] float32) = float32 /\
  Torch.shape (value (torch_zeros [0; 6] float32)) = [0; 6] /\
  Torch.data (value (torch_zeros [0; 6] float32)) = [].
Proof.
  cbv zeta. unfold _decode_model_output.
  set (decoded := post_prediction_callback self model_output _).
  split; [apply length_map|].
  split; [intros i Hi; rewrite nth_error_map, Hi; reflexivity|].
  split; [intros i t Hi; rewrite nth_error_map, Hi; reflexivity|].
  split; [|repeat split].
  induction decoded as [|[t|] decoded IH]; constructor; try discriminate; exact IH.
Qed.

Lemma stage_load_length (images : Images) :
  length (stage_load images) = length (inputs_of images).
Proof. apply length_map. Qed.

Lemma nth_error_combine {A B} (l1 : list A) (l2 : list B) i a b :
  nth_error l1 i = Some a -> nth_error l2 i = Some b ->
  nth_error (combine l1 l2) i = Some (a, b).
Proof.
  revert l2 i. induction l1 as [|a0 l1 IH]; intros l2 i H1 H2.
  - destruct i; discriminate H1.
  - destruct l2 as [|b0 l2]; [destruct i; discriminate H2|].
    destruct i as [|i]; cbn in *.
    + congruence.
    + apply IH; assumption.
Qed.


End PipelineFacts.

(** ** [KDModule] *)

Section KDFacts.
Import KD.
Context {Input Output HpmStruct ParamGroups Kwargs : Type}.
Context `{AP : ArchParams Input Output HpmStruct ParamGroups Kwargs}.

Abbreviation TorchModule := (TorchModule Input Output).
Abbreviation KDModule := (KDModule Input Output HpmStruct ParamGroups Kwargs).
Abbreviation Op := (Op Input HpmStruct ParamGroups Kwargs).

Lemma fold_insert_lookup (v : bool) (l : list nat) (m : gmap nat bool) (k : nat) :
  fold_left (fun t i => <[i := v]> t) l m !! k
  = if decide (k ∈ l) then Some v else m !! k.
Proof.
  revert m. induction l as [|a l IH]; intros m; simpl.
  - destruct (decide (k ∈ [])) as [Hin|_]; [|reflexivity].
    apply elem_of_nil in Hin. contradiction.
  - rewrite IH. destruct (decide (k ∈ l)) as [Hin|Hnin].
    + rewrite decide_True by (apply elem_of_cons; auto). reflexivity.
    + destruct (decide (k = a)) as [->|Hne].
      * rewrite decide_True by (apply elem_of_cons; auto). apply lookup_insert_eq.
      * rewrite decide_False by (rewrite elem_of_cons; tauto).
        apply lookup_insert_ne. congruence.
Qed.

Lemma freeze_teacher_frozen (self : KDModule) h : frozen (teacher self) (_freeze_teacher self h).
Proof.
  intros p Hp. unfold _freeze_teacher. cbn [requires_grad].
  rewrite fold_insert_lookup. rewrite decide_True by assumption. reflexivity.
Qed.

Lemma Module_train_requires_grad (t : TorchModule) mode h :
  requires_grad (Module_train t mode h) = requires_grad h.
Proof. reflexivity. Qed.

Lemma Module_train_mode (t : TorchModule) mode h :
  forall m, m ∈ modules t -> training (Module_train t mode h) !! m = Some mode.
Proof.
  intros m Hm. unfold Module_train. cbn [training].
  rewrite fold_insert_lookup. rewrite decide_True by assumption. reflexivity.
Qed.

Lemma exec_keeps_frozen (self : KDModule) op :
  external_keep_frozen self -> keeps_frozen (teacher self) (exec self op).
Proof.
  intros E h p Hp Hf. destruct op; cbn [exec].
  - unfold train. destruct (run_teacher_on_eval self); cbn [negb].
    + apply (kf_train self E); assumption.
    + rewrite Module_train_requires_grad. apply (kf_train self E); assumption.
  - unfold eval, Module_eval. rewrite Module_train_requires_grad.
    apply (kf_eval self E); assumption.
  - unfold forward.
    pose proof (kf_call self E x h p Hp Hf) as H1. cbn beta in H1.
    destruct (sg_call (student self) x h) as [so h1]. cbn [snd] in H1.
    pose proof (kf_teacher_call self E x h1 p Hp H1) as H2. cbn beta in H2.
    destruct (Module_call (teacher self) x h1) as [to h2]. exact H2.
  - apply (kf_initialize self E lr training_params); assumption.
  - apply (kf_update self E param_groups lr epoch iter training_params total_batch); assumption.
  - apply (kf_replace_head self E kwargs); assumption.
Qed.

Lemma exec_all_keeps_frozen (self : KDModule) ops h :
  external_keep_frozen self -> frozen (teacher self) h ->
  frozen (teacher self) (exec_all self ops h).
Proof.
  intros E. revert h. unfold exec_all.
  induction ops as [|op ops IH]; intros h Hf; simpl.
  - exact Hf.
  - apply IH. intros p Hp. apply exec_keeps_frozen; auto.
Qed.

(** C8.  After [KDModule.__init__] every parameter of the teacher has
    [requires_grad = False], and they all still have after any sequence of
    calls of [train], [eval], [forward], [initialize_param_groups],
    [update_param_groups] and [replace_head], as long as the methods of
    the student and the forward pass of the teacher, which [KDModule] only
    calls, do not unfreeze a parameter of the teacher themselves. *)
Theorem teacher_stays_frozen (arch_params : HpmStruct) (h0 h1 : Heap) (self : KDModule)
    (ops : list Op) :
  __init__ arch_params h0 = (self, h1) ->
  external_keep_frozen self ->
  frozen (teacher self) h1 /\ frozen (teacher self) (exec_all self ops h1).
Proof.
  intros Hinit E.
  assert (Hf : frozen (teacher self) h1).
  { unfold __init__ in Hinit. cbv zeta in Hinit.
    destruct (run_teacher_on_eval _) in Hinit; injection Hinit as <- <-.
    - intros p Hp. unfold Module_eval. rewrite Module_train_requires_grad.
      apply (freeze_teacher_frozen _ h0 p Hp).
    - apply freeze_teacher_frozen. }
  split; [exact Hf|]. apply exec_all_keeps_frozen; assumption.
Qed.

Lemma init_run_teacher_on_eval arch_params h0 h1 (self : KDModule) :
  __init__ arch_params h0 = (self, h1) ->
  run_teacher_on_eval self = true ->
  h1 = Module_eval (teacher self) (_freeze_teacher self h0).
Proof.
  unfold __init__. cbv zeta. intros Hinit Hrun.
  destruct (run_teacher_on_eval _) eqn:E in Hinit; injection Hinit as <- <-.
  - reflexivity.
  - cbn [run_teacher_on_eval] in Hrun, E. congruence.
Qed.

Lemma exec_keeps_eval (self : KDModule) op h :
  run_teacher_on_eval self = true ->
  student_keeps_teacher_mode self ->
  is_train_or_eval op = true ->
  in_eval_mode (teacher self) h -> in_eval_mode (teacher self) (exec self op h).
Proof.
  intros Hrun K Hop He m Hm. destruct op; try discriminate Hop; cbn [exec].
  - unfold train. rewrite Hrun. cbn [negb].
    rewrite (km_train self K mode h m Hm). apply He, Hm.
  - unfold eval, Module_eval. apply Module_train_mode, Hm.
Qed.

(** C9.  With [run_teacher_on_eval] the teacher is in evaluation mode
    after [KDModule.__init__]; [train(mode)] is [student.train(mode)] and
    nothing else, so it leaves the mode of the teacher's modules as it is;
    and after any sequence of [train] and [eval] calls the teacher is in
    evaluation mode.  The student's [train] and [eval] are assumed not to
    reach the teacher's modules. *)
Theorem teacher_on_eval_never_trains (arch_params : HpmStruct) (h0 h1 : Heap)
    (self : KDModule) (ops : list Op) :
  __init__ arch_params h0 = (self, h1) ->
  run_teacher_on_eval self = true ->
  student_keeps_teacher_mode self ->
  forallb is_train_or_eval ops = true ->
  in_eval_mode (teacher self) h1 /\
  (forall mode h, train self mode h = sg_train (student self) mode h) /\
  (forall mode h m, m ∈ modules (teacher self) ->
     training (train self mode h) !! m = training h !! m) /\
  in_eval_mode (teacher self) (exec_all self ops h1).
Proof.
  intros Hinit Hrun K Hops.
  assert (He : in_eval_mode (teacher self) h1).
  { rewrite (init_run_teacher_on_eval _ _ _ _ Hinit Hrun).
    intros m Hm. apply Module_train_mode, Hm. }
  assert (Htrain : forall mode h, train self mode h = sg_train (student self) mode h).
  { intros mode h. unfold train. rewrite Hrun. reflexivity. }
  split; [exact He|]. split; [exact Htrain|]. split.
  - intros mode h m Hm. rewrite Htrain. apply (km_train self K mode h m Hm).
  - clear Hinit. revert h1 He. unfold exec_all.
    induction ops as [|op ops IH]; intros h He; simpl.
    + exact He.
    + simpl in Hops. apply andb_prop in Hops as [Hop Hops].
      apply IH; [exact Hops|]. apply exec_keeps_eval; assumption.
Qed.

(** C5.  [KDModule.forward(x)] returns the [KDOutput] whose
    [student_output] is what the student returns for [x] and whose
    [teacher_output] is what the teacher returns for the same [x], called
    after the student; neither output is altered. *)
Theorem forward_outputs (self : KDModule) (x : Input) (h : Heap) :
  let s := sg_call (student self) x h in
  let t := Module_call (teacher self) x (snd s) in
  forward self x h = (mkKDOutput (fst s) (fst t), snd t) /\
  student_output (fst (forward self x h)) = fst s /\
  teacher_output (fst (forward self x h)) = fst t.
Proof.
  cbv zeta. unfold forward.
  destruct (sg_call (student self) x h) as [so h1]. cbn [fst snd].
  destruct (Module_call (teacher self) x h1) as [to h2]. cbn [fst snd].
  repeat split.
Qed.

End KDFacts.

(** ** The decoded distances and scores *)

Section DflNumeric.
Import Torch DflHeads.
Context `{PP : PPYoloE}.
Local Open Scope nat_scope.

Lemma sumR_S f n : sumR f (S n) = (sumR f n + f n)%R.
Proof.
  unfold sumR. rewrite seq_S, map_app, fold_right_app. cbn [map fold_right Nat.add].
  generalize (map f (seq 0 n)) as l. induction l as [|a l IH]; cbn; [lra|].
  rewrite IH. lra.
Qed.

Lemma sumR_le f g n : (forall k, k < n -> (f k <= g k)%R) -> (sumR f n <= sumR g n)%R.
Proof.
  induction n as [|n IH]; intros Hfg; [unfold sumR; cbn; lra|].
  rewrite !sumR_S. specialize (Hfg n (Nat.lt_succ_diag_r n)) as Hn.
  assert (sumR f n <= sumR g n)%R by (apply IH; intros k Hk; apply Hfg; lia). lra.
Qed.

Lemma sumR_scal c f n : sumR (fun k => (c * f k)%R) n = (c * sumR f n)%R.
Proof.
  induction n as [|n IH]; [unfold sumR; cbn; lra|]. rewrite !sumR_S, IH. lra.
Qed.

Lemma sumR_div f c n : sumR (fun k => (f k / c)%R) n = (sumR f n / c)%R.
Proof.
  induction n as [|n IH]; [unfold sumR, Rdiv; cbn; lra|]. rewrite !sumR_S, IH.
  unfold Rdiv. lra.
Qed.

Lemma sumR_exp_pos (l : nat -> R) n : 0 < n -> (0 < sumR (fun k => exp (l k)) n)%R.
Proof.
  intros Hn. destruct n as [|n]; [lia|]. clear Hn.
  induction n as [|n IH].
  - rewrite sumR_S. unfold sumR at 1. cbn. pose proof (exp_pos (l 0)). lra.
  - rewrite sumR_S. pose proof (exp_pos (l (S n))). lra.
Qed.

(** The weights of [expected_bin] are positive and sum to one. *)
Lemma softmax_weights_sum (l : nat -> R) n :
  0 < n ->
  sumR (fun j => (exp (l j) / sumR (fun k => exp (l k)) n)%R) n = 1%R.
Proof.
  intros Hn. rewrite sumR_div. pose proof (sumR_exp_pos l n Hn). field. lra.
Qed.

Lemma expected_bin_bounds (l : nat -> R) n :
  0 < n -> (0 <= expected_bin l n <= INR (n - 1))%R.
Proof.
  intros Hn. unfold expected_bin.
  pose proof (sumR_exp_pos l n Hn) as HS.
  assert (Hp : forall j, (0 < exp (l j) / sumR (fun k => exp (l k)) n)%R).
  { intros j. apply Rdiv_lt_0_compat; [apply exp_pos|exact HS]. }
  split.
  - replace 0%R with (sumR (fun _ => 0%R) n).
    + apply sumR_le. intros j Hj. pose proof (pos_INR j). specialize (Hp j). nra.
    + clear. induction n as [|n IH]; [reflexivity|]. rewrite sumR_S, IH. lra.
  - rewrite <- (Rmult_1_r (INR (n - 1))), <- (softmax_weights_sum l n Hn), <- sumR_scal.
    apply sumR_le. intros j Hj. specialize (Hp j).
    assert (INR j <= INR (n - 1))%R by (apply le_INR; lia). nra.
Qed.

Lemma expected_bin_ext (l l' : nat -> R) n :
  (forall j, j < n -> l j = l' j) -> expected_bin l n = expected_bin l' n.
Proof.
  intros Hl. unfold expected_bin.
  assert (HS : sumR (fun k => exp (l k)) n = sumR (fun k => exp (l' k)) n).
  { apply sumR_ext. intros k Hk. rewrite Hl by exact Hk. reflexivity. }
  rewrite HS. apply sumR_ext. intros j Hj. rewrite Hl by exact Hj. reflexivity.
Qed.

Lemma expected_bin_shift (l : nat -> R) (c : R) n :
  0 < n -> expected_bin (fun j => (l j + c)%R) n = expected_bin l n.
Proof.
  intros Hn. unfold expected_bin.
  assert (HS : sumR (fun k => exp (l k + c)) n = (exp c * sumR (fun k => exp (l k)) n)%R).
  { rewrite <- sumR_scal. apply sumR_ext. intros k _. rewrite exp_plus. lra. }
  rewrite HS. apply sumR_ext. intros j _. rewrite exp_plus.
  pose proof (sumR_exp_pos l n Hn). pose proof (exp_pos c). field. lra.
Qed.

Lemma sumR_INR n : (2 * sumR INR n = INR n * INR (n - 1))%R.
Proof.
  induction n as [|n IH]; [unfold sumR; cbn; lra|].
  rewrite sumR_S. replace (S n - 1) with n by lia. rewrite S_INR.
  destruct n as [|n]; [unfold sumR; cbn; lra|].
  replace (S n - 1) with n in IH by lia. rewrite S_INR in *. nra.
Qed.

Lemma expected_bin_const (v : R) n :
  0 < n -> expected_bin (fun _ => v) n = (INR (n - 1) / 2)%R.
Proof.
  intros Hn. unfold expected_bin.
  assert (HS : sumR (fun _ => exp v) n = (INR n * exp v)%R).
  { clear. induction n as [|n IH]; [unfold sumR; cbn; lra|].
    rewrite sumR_S, IH, S_INR. lra. }
  rewrite HS.
  assert (Hterm : forall j, (INR j * (exp v / (INR n * exp v)) = / INR n * INR j)%R).
  { intros j. pose proof (exp_pos v). assert (0 < INR n)%R by (apply lt_0_INR; exact Hn).
    field. split; lra. }
  rewrite (sumR_ext _ (fun j => (/ INR n * INR j)%R)) by (intros; apply Hterm).
  rewrite sumR_scal. pose proof (sumR_INR n).
  assert (0 < INR n)%R by (apply lt_0_INR; exact Hn).
  apply (Rmult_eq_reg_l (2 * INR n)); [|lra]. field_simplify; lra.
Qed.

(** X1.  Every distance [forward_eval] decodes lies between 0 and [reg_max]. *)
Theorem reg_dist_reduce_bounded (self : NDFLHeads) reg_distri B H W :
  constructed self ->
  shape reg_distri = [B; 4 * (reg_max self + 1); H; W] ->
  0 < H -> 0 < W ->
  exists out,
    reg_dist_reduce self reg_distri (H * W) = Some out /\
    forall b h w s, b < B -> h < H -> w < W -> s < 4 ->
      Rle 0 (get out [b; h * W + w; s]) /\ Rle (get out [b; h * W + w; s]) (INR (reg_max self)).
Proof.
  intros Hcon Hshape HH HW.
  destruct (constructed_inv self Hcon) as [Hproj _].
  destruct (reg_dist_reduce_spec self reg_distri B H W Hproj Hshape)
    as (out & Hout & _ & _ & Hget); [nia|].
  exists out. split; [exact Hout|]. intros b h w s Hb Hh Hw Hs.
  rewrite Hget by assumption.
  pose proof (expected_bin_bounds
                (fun j => get reg_distri [b; s * (reg_max self + 1) + j; h; w])
                (reg_max self + 1)) as Hbnd.
  replace (reg_max self + 1 - 1) with (reg_max self) in Hbnd by lia.
  apply Hbnd. lia.
Qed.

(** X2.  The distance of a side depends on the differences of its logits
    only: adding [c] to all of them leaves it as it is. *)
Theorem reg_dist_reduce_shift (self : NDFLHeads) reg_distri reg_distri' B H W b h w s (c : R) :
  constructed self ->
  shape reg_distri = [B; 4 * (reg_max self + 1); H; W] ->
  shape reg_distri' = [B; 4 * (reg_max self + 1); H; W] ->
  b < B -> h < H -> w < W -> s < 4 ->
  (forall j, j <= reg_max self ->
     get reg_distri' [b; s * (reg_max self + 1) + j; h; w]
     = Rplus (get reg_distri [b; s * (reg_max self + 1) + j; h; w]) c) ->
  exists out out',
    reg_dist_reduce self reg_distri (H * W) = Some out /\
    reg_dist_reduce self reg_distri' (H * W) = Some out' /\
    get out' [b; h * W + w; s] = get out [b; h * W + w; s].
Proof.
  intros Hcon Hshape Hshape' Hb Hh Hw Hs Hshift.
  destruct (constructed_inv self Hcon) as [Hproj _].
  destruct (reg_dist_reduce_spec self reg_distri B H W Hproj Hshape)
    as (out & Hout & _ & _ & Hget); [nia|].
  destruct (reg_dist_reduce_spec self reg_distri' B H W Hproj Hshape')
    as (out' & Hout' & _ & _ & Hget'); [nia|].
  exists out, out'. split; [exact Hout|]. split; [exact Hout'|].
  rewrite Hget, Hget' by assumption.
  rewrite <- (expected_bin_shift
                (fun j => get reg_distri [b; s * (reg_max self + 1) + j; h; w]) c
                (reg_max self + 1)) by lia.
  apply expected_bin_ext. intros j Hj. cbn beta. apply Hshift. lia.
Qed.

(** X3.  Equal logits on a side give the middle of the range. *)
Theorem reg_dist_reduce_uniform (self : NDFLHeads) reg_distri B H W b h w s (v : R) :
  constructed self ->
  shape reg_distri = [B; 4 * (reg_max self + 1); H; W] ->
  b < B -> h < H -> w < W -> s < 4 ->
  (forall j, j <= reg_max self ->
     get reg_distri [b; s * (reg_max self + 1) + j; h; w] = v) ->
  exists out,
    reg_dist_reduce self reg_distri (H * W) = Some out /\
    get out [b; h * W + w; s] = Rdiv (INR (reg_max self)) 2.
Proof.
  intros Hcon Hshape Hb Hh Hw Hs Hv.
  destruct (constructed_inv self Hcon) as [Hproj _].
  destruct (reg_dist_reduce_spec self reg_distri B H W Hproj Hshape)
    as (out & Hout & _ & _ & Hget); [nia|].
  exists out. split; [exact Hout|]. rewrite Hget by assumption.
  rewrite (expected_bin_ext _ (fun _ => v)) by (intros j Hj; apply Hv; lia).
  rewrite expected_bin_const by lia.
  replace (reg_max self + 1 - 1) with (reg_max self) by lia. reflexivity.
Qed.




End DflNumeric.

(** ** [forward_train], [forward] and [cache_anchors] *)

Section DflTrain.
Import Torch DflHeads.
Context `{PP : PPYoloE}.
Local Open Scope nat_scope.

Lemma tabulate_ext sh f g :
  (forall idx, in_bounds sh idx -> f idx = g idx) -> tabulate sh f = tabulate sh g.
Proof.
  intros Hfg. unfold tabulate. f_equal. apply map_ext_in.
  intros k Hk. apply in_seq in Hk. apply Hfg. apply in_bounds_unravel. lia.
Qed.

Lemma in_bounds3_inv A B C idx :
  in_bounds [A; B; C] idx -> exists a b c, idx = [a; b; c] /\ a < A /\ b < B /\ c < C.
Proof.
  unfold in_bounds. intros Hb.
  inversion Hb as [|a A' r1 s1 Ha H1]; subst.
  inversion H1 as [|b B' r2 s2 Hb' H2]; subst.
  inversion H2 as [|c C' r3 s3 Hc H3]; subst.
  inversion H3; subst. exists a, b, c. repeat split; assumption.
Qed.

Lemma anchors_decompose lvs a :
  Forall (fun lv => 0 < lv_w lv) lvs -> a < anchors_of lvs ->
  exists i lv y x, nth_error lvs i = Some lv /\ y < lv_h lv /\ x < lv_w lv /\
    a = anchors_of (firstn i lvs) + y * lv_w lv + x.
Proof.
  intros Hall. revert a. induction Hall as [|lv lvs Hw _ IH]; intros a Ha.
  - cbn in Ha. lia.
  - cbn [anchors_of fold_right] in Ha. fold (anchors_of lvs) in Ha.
    destruct (Nat.lt_ge_cases a (lv_h lv * lv_w lv)) as [Hlt|Hge].
    + exists 0, lv, (a / lv_w lv), (a mod lv_w lv). cbn [nth_error firstn anchors_of fold_right].
      split; [reflexivity|]. split.
      * apply Nat.Div0.div_lt_upper_bound. lia.
      * split; [apply Nat.mod_upper_bound; lia|].
        pose proof (Nat.div_mod_eq a (lv_w lv)). lia.
    + destruct (IH (a - lv_h lv * lv_w lv)) as (i & lv' & y & x & Hi & Hy & Hx & E); [lia|].
      exists (S i), lv', y, x. cbn [nth_error firstn anchors_of fold_right].
      fold (anchors_of (firstn i lvs)). repeat split; try assumption. lia.
Qed.

Lemma forward_train_loop_spec (self : NDFLHeads) B lvs :
  Forall (level_ok self B) lvs ->
  forall i acc,
  (forall j lv, nth_error lvs j = Some lv -> nth_error (heads self) (i + j) = Some (lv_head lv)) ->
  exists tcl trl,
    forward_train_loop self i (map lv_feat lvs) acc = Some (fst acc ++ tcl, snd acc ++ trl) /\
    Forall2 (train_cls_rel self B) lvs tcl /\
    Forall2 (train_reg_rel self B) lvs trl.
Proof.
  intros Hall. induction Hall as [|lv lvs Hlv _ IH]; intros i [a1 a2] Hheads.
  - exists [], []. cbn. rewrite !app_nil_r. repeat split; constructor.
  - destruct Hlv as (Hfeat & Hhead & Hreg & Hcls & Hh & Hw).
    cbn [map forward_train_loop fst snd].
    pose proof (Hheads 0 lv eq_refl) as Hh0. rewrite Nat.add_0_r in Hh0. rewrite Hh0.
    rewrite Hhead.
    unfold flatten. rewrite Hreg, Hcls. cbn [length]. change (2 <? 4) with true. cbv iota.
    cbn [firstn skipn app numel].
    unfold permute. cbn [shape length]. change (is_perm 3 [0; 2; 1]) with true.
    cbv iota. cbn [permute_list map nth].
    set (cfp := tabulate _ _). set (rfp := tabulate _ _).
    destruct (IH (S i) (a1 ++ [cfp], a2 ++ [rfp])) as (tcl & trl & Hloop & Htc & Htr).
    { intros j lv' Hj. replace (S i + j) with (i + S j) by lia. apply Hheads. exact Hj. }
    exists (cfp :: tcl), (rfp :: trl).
    rewrite Hloop. cbn [fst snd]. rewrite <- !app_assoc. cbn [app].
    split; [reflexivity|].
    split; (constructor; [|assumption]).
    + split; [unfold cfp; cbn [tabulate shape]; rewrite Nat.mul_1_r; reflexivity|].
      intros b c y x Hb Hc Hy Hx. unfold cfp.
      rewrite get_tabulate by (apply in_bounds3; [assumption|nia|assumption]).
      cbn [unpermute_list length seq map position Nat.eqb nth].
      apply get_same_offset. rewrite Hcls. cbn [ravel numel]. ring.
    + split; [unfold rfp; cbn [tabulate shape]; rewrite Nat.mul_1_r; reflexivity|].
      intros b k y x Hb Hk Hy Hx. unfold rfp.
      rewrite get_tabulate by (apply in_bounds3; [assumption|nia|assumption]).
      cbn [unpermute_list length seq map position Nat.eqb nth].
      apply get_same_offset. rewrite Hreg. cbn [ravel numel]. ring.
Qed.

Lemma loops_same_reg (self : NDFLHeads) feats :
  forall i a1 a2 a3 c1 c2 c3 t1 tc t2,
  forward_eval_loop self i feats (a1, a2, a3) = Some (c1, c2, c3) ->
  forward_train_loop self i feats (t1, a2) = Some (tc, t2) ->
  t2 = c2.
Proof.
  induction feats as [|feat feats IH]; intros i a1 a2 a3 c1 c2 c3 t1 tc t2 He Ht.
  - cbn in He, Ht. congruence.
  - cbn [forward_eval_loop forward_train_loop] in He, Ht.
    destruct (shape feat) as [|b [|c [|h [|w [|? ?]]]]]; try discriminate He.
    destruct (nth_error (heads self) i) as [head|]; [|discriminate He].
    destruct (head feat) as [[reg_distri cls_logit]|]; [|discriminate He].
    destruct (flatten reg_distri 2) as [fl|]; [|discriminate He].
    destruct (permute fl [0; 2; 1]) as [flp|]; [|discriminate He].
    destruct (reg_dist_reduce self reg_distri (h * w)) as [red|]; [|discriminate He].
    destruct (reshape cls_logit _) as [cls|]; [|discriminate He].
    destruct (flatten cls_logit 2) as [cf|]; [|discriminate Ht].
    destruct (permute cf [0; 2; 1]) as [cfp|]; [|discriminate Ht].
    eapply IH; eassumption.
Qed.

Lemma nth_error_Some_lt {A} (l : list A) i a : nth_error l i = Some a -> i < length l.
Proof. intros E. apply nth_error_Some. rewrite E. discriminate. Qed.

Lemma cat_level_get (R : Level -> Tensor -> Prop) d lvs ts i lv idx a :
  (forall lv t, R lv t -> nth d (shape t) 0 = lv_h lv * lv_w lv) ->
  Forall2 R lvs ts -> nth_error lvs i = Some lv ->
  d < length idx -> a < lv_h lv * lv_w lv ->
  nth d idx 0 = anchors_of (firstn i lvs) + a ->
  exists t, R lv t /\ cat_get ts d idx = get t (set_nth d a idx).
Proof.
  intros HR Hall Hi Hd Ha Hidx.
  destruct (Forall2_nth_split R lvs ts i lv Hall Hi) as (ts1 & t & ts2 & -> & Ht & Hfirst).
  exists t. split; [exact Ht|].
  apply cat_get_offset; [exact Hd|rewrite (HR lv t Ht); exact Ha|].
  rewrite (Forall2_dim_total d R (firstn i lvs) ts1 HR Hfirst). exact Hidx.
Qed.

Lemma Forall2_nonempty {A B} (R : A -> B -> Prop) l1 l2 :
  Forall2 R l1 l2 -> l1 <> [] -> l2 <> [].
Proof. intros Hall Hne ->. inversion Hall. subst. contradiction. Qed.

Lemma level_ok_width (self : NDFLHeads) B lvs :
  Forall (level_ok self B) lvs -> Forall (fun lv => 0 < lv_w lv) lvs.
Proof.
  intros Hall. induction Hall as [|lv lvs Hlv _ IH]; constructor; [|exact IH].
  destruct Hlv as (_ & _ & _ & _ & _ & Hw). exact Hw.
Qed.

Lemma train_cat_spec (self : NDFLHeads) B K (R : Level -> Tensor -> Prop) lvs ts
    (src : Level -> Tensor) :
  (forall lv t, R lv t ->
     shape t = [B; lv_h lv * lv_w lv; K] /\
     forall b k y x, b < B -> k < K -> y < lv_h lv -> x < lv_w lv ->
       get t [b; y * lv_w lv + x; k] = get (src lv) [b; k; y; x]) ->
  lvs <> [] -> Forall2 R lvs ts ->
  cat ts 1 = Some (tabulate [B; anchors_of lvs; K] (cat_get ts 1)) /\
  forall i lv b k y x, nth_error lvs i = Some lv ->
    b < B -> k < K -> y < lv_h lv -> x < lv_w lv ->
    cat_get ts 1 [b; anchors_of (firstn i lvs) + y * lv_w lv + x; k]
    = get (src lv) [b; k; y; x].
Proof.
  intros HR Hne Hall.
  assert (Hdim : forall lv t, R lv t -> nth 1 (shape t) 0 = lv_h lv * lv_w lv).
  { intros lv t Ht. destruct (HR lv t Ht) as [-> _]. reflexivity. }
  split.
  - rewrite (cat_dim1 B K ts).
    + rewrite (Forall2_dim_total 1 R lvs ts Hdim Hall). reflexivity.
    + exact (Forall2_nonempty R lvs ts Hall Hne).
    + apply (Forall2_Forall_r R _ lvs); [|exact Hall].
      intros lv t Ht. destruct (HR lv t Ht) as [Hs _]. eexists. exact Hs.
  - intros i lv b k y x Hi Hb Hk Hy Hx.
    assert (Ha : y * lv_w lv + x < lv_h lv * lv_w lv) by nia.
    destruct (cat_level_get R 1 lvs ts i lv
                [b; anchors_of (firstn i lvs) + y * lv_w lv + x; k] (y * lv_w lv + x)
                Hdim Hall Hi) as (t & Ht & ->); [cbn; lia|exact Ha|cbn [nth]; lia|].
    destruct (HR lv t Ht) as [_ Hget].
    change (set_nth 1 (y * lv_w lv + x) [b; anchors_of (firstn i lvs) + y * lv_w lv + x; k])
      with [b; y * lv_w lv + x; k].
    apply Hget; assumption.
Qed.

(** X5.  [forward_train] returns the class logits and the regression logits of all
    levels, each flattened over the cells of its feature map and laid out
    anchor-major, concatenated along the anchors, together with the anchors
    [generate_anchors_for_grid_cell] gives for the feature maps. *)
Theorem forward_train_outputs (self : NDFLHeads) (B : nat) (lvs : list Level)
    (anchors ap : Tensor) (nal : list nat) (st : Tensor) :
  lvs <> [] ->
  Forall (level_ok self B) lvs ->
  (forall j lv, nth_error lvs j = Some lv -> nth_error (heads self) j = Some (lv_head lv)) ->
  generate_anchors_for_grid_cell (map lv_feat lvs) (fpn_strides self)
    (grid_cell_scale self) (grid_cell_offset self) = Some (anchors, ap, nal, st) ->
  exists cls reg,
    forward_train self (map lv_feat lvs) = Some (cls, reg, anchors, ap, nal, st) /\
    shape cls = [B; anchors_of lvs; num_classes self] /\
    shape reg = [B; anchors_of lvs; 4 * (reg_max self + 1)] /\
    (forall i lv b c y x,
       nth_error lvs i = Some lv ->
       b < B -> c < num_classes self -> y < lv_h lv -> x < lv_w lv ->
       get cls [b; anchors_of (firstn i lvs) + y * lv_w lv + x; c]
       = get (lv_cls lv) [b; c; y; x]) /\
    (forall i lv b k y x,
       nth_error lvs i = Some lv ->
       b < B -> k < 4 * (reg_max self + 1) -> y < lv_h lv -> x < lv_w lv ->
       get reg [b; anchors_of (firstn i lvs) + y * lv_w lv + x; k]
       = get (lv_reg lv) [b; k; y; x]).
Proof.
  intros Hne Hall Hheads Hgrid.
  destruct (forward_train_loop_spec self B lvs Hall 0 ([], []) Hheads)
    as (tcl & trl & Hloop & Htc & Htr).
  cbn [fst snd app] in Hloop.
  destruct (train_cat_spec self B (num_classes self) (train_cls_rel self B) lvs tcl lv_cls
              (fun lv t Ht => Ht) Hne Htc) as [Hcatc Hgetc].
  destruct (train_cat_spec self B (4 * (reg_max self + 1)) (train_reg_rel self B) lvs trl lv_reg
              (fun lv t Ht => Ht) Hne Htr) as [Hcatr Hgetr].
  unfold forward_train. rewrite Hgrid, Hloop, Hcatc, Hcatr.
  eexists. eexists. split; [reflexivity|].
  split; [reflexivity|]. split; [reflexivity|].
  split.
  - intros i lv b c y x Hi Hb Hc Hy Hx.
    pose proof (anchors_of_nth lvs i lv Hi) as Hoff.
    rewrite get_tabulate by (apply in_bounds3; [lia|nia|lia]).
    apply Hgetc; assumption.
  - intros i lv b k y x Hi Hb Hk Hy Hx.
    pose proof (anchors_of_nth lvs i lv Hi) as Hoff.
    rewrite get_tabulate by (apply in_bounds3; [lia|nia|lia]).
    apply Hgetr; assumption.
Qed.

(** X6.  Outside of tracing, the raw predictions [forward_eval] returns are the
    outputs of [forward_train] on the same feature maps, except for the
    stride tensor, which is the one the boxes were decoded with. *)
Theorem forward_eval_raw_is_train (self : NDFLHeads) (B : nat) (lvs : list Level)
    (d : Decoded) (cls reg anchors ap : Tensor) (nal : list nat) (st : Tensor) :
  constructed self ->
  Forall (level_ok self B) lvs ->
  (forall j lv, nth_error lvs j = Some lv -> nth_error (heads self) j = Some (lv_head lv)) ->
  forward_eval self false (map lv_feat lvs)
  = Some (Full d (cls, reg, anchors, ap, nal, st)) ->
  exists st_grid api,
    forward_train self (map lv_feat lvs) = Some (cls, reg, anchors, ap, nal, st_grid) /\
    inference_anchors self (map lv_feat lvs) = Some (api, st).
Proof.
  intros Hcon Hall Hheads Hout.
  destruct (constructed_inv self Hcon) as [Hproj _].
  destruct (forward_eval_loop_spec self B lvs Hproj Hall 0 ([], [], []) Hheads)
    as (cl & fl & rl & Hloop & Hcl & Hfl & Hrl).
  destruct (forward_train_loop_spec self B lvs Hall 0 ([], []) Hheads)
    as (tcl & trl & Htloop & Htc & Htr).
  cbn [fst snd app] in Hloop, Htloop.
  assert (Hne : lvs <> []).
  { intros ->. inversion Hcl; subst. unfold forward_eval in Hout. rewrite Hloop in Hout.
    cbn in Hout. discriminate Hout. }
  assert (Hsame : trl = fl) by exact (loops_same_reg _ _ _ _ _ _ _ _ _ _ _ _ Hloop Htloop).
  subst trl.
  destruct (train_cat_spec self B (num_classes self) (train_cls_rel self B) lvs tcl lv_cls
              (fun lv t Ht => Ht) Hne Htc) as [Hcatc Hgetc].
  destruct (train_cat_spec self B (4 * (reg_max self + 1)) (train_reg_rel self B) lvs fl lv_reg
              (fun lv t Ht => Ht) Hne Htr) as [Hcatr _].
  assert (Hcdim : forall lv t, cls_rel self B lv t -> nth 2 (shape t) 0 = lv_h lv * lv_w lv).
  { intros lv t [Hs _]. rewrite Hs. reflexivity. }
  unfold forward_eval in Hout. rewrite Hloop in Hout.
  rewrite (cat_dim_last B (num_classes self) cl) in Hout;
    [|exact (Forall2_nonempty _ _ _ Hcl Hne)
     |apply (Forall2_Forall_r (cls_rel self B) _ lvs); [|exact Hcl];
      intros lv t [Hs _]; eexists; exact Hs].
  rewrite (Forall2_dim_total 2 (cls_rel self B) lvs cl Hcdim Hcl) in Hout.
  unfold permute in Hout. cbn [shape tabulate length] in Hout.
  change (is_perm 3 [0; 2; 1]) with true in Hout.
  cbv iota in Hout. cbn [permute_list map nth] in Hout.
  rewrite Hcatr in Hout.
  destruct (cat rl 1) as [reduced|]; [|discriminate Hout].
  destruct (inference_anchors self (map lv_feat lvs)) as [[api st0]|] eqn:Hanch;
    [|discriminate Hout].
  destruct (batch_distance2bbox api reduced) as [bb|]; [|discriminate Hout].
  destruct (mul bb st0) as [pb|]; [|discriminate Hout].
  destruct (generate_anchors_for_grid_cell (map lv_feat lvs) (fpn_strides self)
              (grid_cell_scale self) (grid_cell_offset self))
    as [[[[anchors0 ap0] nal0] st_grid]|] eqn:Hgrid; [|discriminate Hout].
  injection Hout as _ Hcls Hreg Hanc Hap Hnal Hst. subst.
  exists st_grid, api. split; [|reflexivity].
  unfold forward_train. rewrite Hgrid, Htloop, Hcatc, Hcatr.
  do 2 f_equal. f_equal. f_equal. f_equal. f_equal.
  apply tabulate_ext. intros idx Hidx.
  destruct (in_bounds3_inv _ _ _ _ Hidx) as (b & a & c & -> & Hb & Ha & Hc).
  destruct (anchors_decompose lvs a (level_ok_width self B lvs Hall) Ha)
    as (i & lv & y & x & Hi & Hy & Hx & ->).
  rewrite (Hgetc i lv b c y x Hi Hb Hc Hy Hx).
  cbn [unpermute_list length seq map position Nat.eqb nth].
  pose proof (anchors_of_nth lvs i lv Hi) as Hoff.
  assert (Hyx : y * lv_w lv + x < lv_h lv * lv_w lv) by nia.
  rewrite get_tabulate by (apply in_bounds3; lia).
  destruct (cat_level_get (cls_rel self B) 2 lvs cl i lv
              [b; c; anchors_of (firstn i lvs) + y * lv_w lv + x] (y * lv_w lv + x)
              Hcdim Hcl Hi) as (t & [_ Htget] & ->); [cbn; lia|exact Hyx|cbn [nth]; lia|].
  change (set_nth 2 (y * lv_w lv + x) [b; c; anchors_of (firstn i lvs) + y * lv_w lv + x])
    with [b; c; y * lv_w lv + x].
  symmetry. apply Htget; assumption.
Qed.

Lemma forward_eval_loop_ok (self : NDFLHeads) feats :
  forall i acc r, forward_eval_loop self i feats acc = Some r ->
    (feats = [] \/ i + length feats <= length (heads self)) /\
    Forall (fun f => length (shape f) = 4) feats.
Proof.
  induction feats as [|feat feats IH]; intros i [[a1 a2] a3] r Hr.
  - split; [left; reflexivity|constructor].
  - cbn [forward_eval_loop] in Hr.
    destruct (shape feat) as [|b [|c [|h [|w [|? ?]]]]] eqn:Hsh; try discriminate Hr.
    destruct (nth_error (heads self) i) as [head|] eqn:Hhd; [|discriminate Hr].
    destruct (head feat) as [[reg_distri cls_logit]|]; [|discriminate Hr].
    destruct (flatten reg_distri 2) as [fl|]; [|discriminate Hr].
    destruct (permute fl [0; 2; 1]) as [flp|]; [|discriminate Hr].
    destruct (reg_dist_reduce self reg_distri (h * w)) as [red|]; [|discriminate Hr].
    destruct (reshape cls_logit _) as [cls|]; [|discriminate Hr].
    destruct (IH _ _ _ Hr) as [Hlen Hrank].
    apply nth_error_Some_lt in Hhd.
    split; [right; destruct Hlen as [->|Hlen]; cbn [length]; lia|].
    constructor; [rewrite Hsh; reflexivity|exact Hrank].
Qed.

Lemma forward_train_loop_ok (self : NDFLHeads) feats :
  forall i acc r, forward_train_loop self i feats acc = Some r ->
    feats = [] \/ i + length feats <= length (heads self).
Proof.
  induction feats as [|feat feats IH]; intros i [a1 a2] r Hr.
  - left. reflexivity.
  - cbn [forward_train_loop] in Hr.
    destruct (nth_error (heads self) i) as [head|] eqn:Hhd; [|discriminate Hr].
    destruct (head feat) as [[reg_distri cls_logit]|]; [|discriminate Hr].
    destruct (flatten cls_logit 2) as [cf|]; [|discriminate Hr].
    destruct (permute cf [0; 2; 1]) as [cfp|]; [|discriminate Hr].
    destruct (flatten reg_distri 2) as [fl|]; [|discriminate Hr].
    destruct (permute fl [0; 2; 1]) as [flp|]; [|discriminate Hr].
    specialize (IH _ _ _ Hr). apply nth_error_Some_lt in Hhd.
    right. destruct IH as [->|IH]; cbn [length]; lia.
Qed.

(** X7.  [forward] raises, in training and in evaluation mode, when it is given
    no feature map or more feature maps than there are heads. *)
Theorem forward_rejects (self : NDFLHeads) (training is_tracing : bool) (feats : list Tensor) :
  feats = [] \/ length (heads self) < length feats ->
  forward self training is_tracing feats = None.
Proof.
  intros Hbad. unfold forward. destruct training.
  - unfold forward_train.
    destruct (generate_anchors_for_grid_cell _ _ _ _) as [[[[a p] n] s]|]; [|reflexivity].
    destruct (forward_train_loop self 0 feats ([], [])) as [[tc tr]|] eqn:Hloop; [|reflexivity].
    destruct Hbad as [->|Hlen].
    + cbn in Hloop. injection Hloop as <- <-. reflexivity.
    + apply forward_train_loop_ok in Hloop. destruct Hloop as [->|Hloop]; cbn in Hlen; lia.
  - unfold forward_eval.
    destruct (forward_eval_loop self 0 feats ([], [], [])) as [[[c f] r]|] eqn:Hloop;
      [|reflexivity].
    destruct Hbad as [->|Hlen].
    + cbn in Hloop. injection Hloop as <- <- <-. reflexivity.
    + apply forward_eval_loop_ok in Hloop.
      destruct Hloop as [[->|Hloop] _]; cbn in Hlen; lia.
Qed.

(** X8.  [forward_eval] raises when a feature map is not four-dimensional. *)
Theorem forward_eval_rank (self : NDFLHeads) (is_tracing : bool) (feats : list Tensor) :
  Exists (fun f => length (shape f) <> 4) feats ->
  forward_eval self is_tracing feats = None.
Proof.
  intros Hex. unfold forward_eval.
  destruct (forward_eval_loop self 0 feats ([], [], [])) as [[[c f] r]|] eqn:Hloop;
    [|reflexivity].
  apply forward_eval_loop_ok in Hloop. destruct Hloop as [_ Hrank].
  exfalso. induction Hex as [f0 l Hf|f0 l _ IH].
  - inversion Hrank; subst. contradiction.
  - inversion Hrank; subst. auto.
Qed.

(** X9.  After [cache_anchors] the evaluation size is the given one, the heads and
    the projection are untouched, and [forward_eval] decodes with the cached
    anchors whatever the feature maps are: those [_generate_anchors]
    returned, without feature maps, for the new evaluation size. *)
Theorem cache_anchors_spec (self self' : NDFLHeads) (input_size : nat * nat) :
  cache_anchors self input_size = Some self' ->
  eval_size self' = Some input_size /\
  heads self' = heads self /\ proj_conv self' = proj_conv self /\
  reg_max self' = reg_max self /\ num_classes self' = num_classes self /\
  exists ap st,
    _generate_anchors (set_anchors self (Some input_size) (anchor_points self)
                         (stride_tensor self)) None = Some (ap, st) /\
    forall feats, inference_anchors self' feats = Some (ap, st).
Proof.
  unfold cache_anchors. intros Hc.
  destruct (_generate_anchors _ None) as [[ap st]|]; [|discriminate Hc].
  injection Hc as <-. cbn. repeat split. exists ap, st. split; reflexivity.
Qed.

End DflTrain.

(** ** One [DeciYOLODFLHead] *)

Section HeadFacts.
Import Torch DflHead.
Context `{MD : Modules}.
Local Open Scope nat_scope.

Lemma conv_out_size_1 a n :
  kernel_size a = 1 -> conv_stride a = 1 -> padding a = 0 -> 0 < n -> conv_out_size a n = n.
Proof.
  intros Hk Hs Hp Hn. unfold conv_out_size. rewrite Hk, Hs, Hp, Nat.div_1_r. lia.
Qed.

Lemma conv_out_size_3 a n :
  kernel_size a = 3 -> conv_stride a = 1 -> padding a = 1 -> 0 < n -> conv_out_size a n = n.
Proof.
  intros Hk Hs Hp Hn. unfold conv_out_size. rewrite Hk, Hs, Hp, Nat.div_1_r. lia.
Qed.

(** A layer that keeps the spatial sizes, on an input of its [conv_in]. *)
Lemma layer_call_same_size (a : ConvArgs) (l : Layer) x B C H W :
  layer_shapes a l -> bias_fits a (bias l) ->
  (kernel_size a = 1 /\ conv_stride a = 1 /\ padding a = 0) \/
  (kernel_size a = 3 /\ conv_stride a = 1 /\ padding a = 1) ->
  shape x = [B; C; H; W] -> Z.of_nat C = conv_in a -> 0 < H -> 0 < W ->
  exists y, Layer_call l x = Some y /\ shape y = [B; Z.to_nat (conv_out a); H; W].
Proof.
  intros Hl Hb Hk Hx HC HH HW.
  destruct (Hl (bias l) x B C H W Hb Hx HC) as (y & Hy & Hsh);
    [destruct Hk as [(-> & _ & ->)|(-> & _ & ->)]; lia
    |destruct Hk as [(-> & _ & ->)|(-> & _ & ->)]; lia|].
  exists y. split; [exact Hy|]. rewrite Hsh.
  destruct Hk as [(Hk & Hs & Hp)|(Hk & Hs & Hp)].
  - rewrite !conv_out_size_1 by assumption. reflexivity.
  - rewrite !conv_out_size_3 by assumption. reflexivity.
Qed.



Lemma sequential_same_size (c : Z) (ls : list Layer) x B H W :
  (0 <= c)%Z ->
  Forall (fun l => exists g, layer_shapes (conv3 c g) l /\ bias_fits (conv3 c g) (bias l)) ls ->
  shape x = [B; Z.to_nat c; H; W] -> 0 < H -> 0 < W ->
  exists y, Sequential ls x = Some y /\ shape y = [B; Z.to_nat c; H; W].
Proof.
  intros Hc Hall. revert x. induction Hall as [|l ls (g & Hl & Hb) _ IH]; intros x Hx HH HW.
  - exists x. split; [reflexivity|exact Hx].
  - cbn [Sequential].
    destruct (layer_call_same_size (conv3 c g) l x B (Z.to_nat c) H W Hl Hb) as (y & Hy & Hsh);
      [right; repeat split|exact Hx|cbn; lia|exact HH|exact HW|].
    rewrite Hy. apply IH; assumption.
Qed.

Lemma first_conv_layers (seed : Seed) (c g : Z) ls :
  modules_ok -> first_conv seed c g = Some ls ->
  Forall (fun l => exists g, layer_shapes (conv3 c g) l /\ bias_fits (conv3 c g) (bias l)) ls /\
  length ls = (if (g =? 0)%Z then 0 else 1).
Proof.
  intros Hok. unfold first_conv. destruct (g =? 0)%Z.
  - intros [= <-]. split; [constructor|reflexivity].
  - destruct (ConvBNReLU seed _) as [l|] eqn:E; [|discriminate].
    intros [= <-]. split; [|reflexivity].
    destruct (ConvBNReLU_layer Hok seed _ l E) as (_ & Hb & Hl).
    constructor; [|constructor]. exists g. split; [exact Hl|].
    rewrite Hb. exact I.
Qed.

Lemma constant_shape t v : shape (constant_ t v) = shape t.
Proof. reflexivity. Qed.

Lemma well_formed_constant t v : well_formed t -> well_formed (constant_ t v).
Proof. unfold well_formed, constant_. cbn [shape data]. rewrite length_map. auto. Qed.

Lemma get_constant t v idx :
  well_formed t -> in_bounds (shape t) idx -> get (constant_ t v) idx = v.
Proof.
  intros Hwf Hb. unfold get, constant_. cbn [shape data].
  pose proof (ravel_lt _ _ Hb) as Hlt. rewrite <- Hwf in Hlt.
  apply nth_error_nth. rewrite nth_error_map.
  destruct (nth_error (data t) (ravel (shape t) idx)) eqn:E; [reflexivity|].
  apply nth_error_None in E. lia.
Qed.

Lemma initialize_biases_inv (self self' : DeciYOLODFLHead) :
  _initialize_biases self = Some self' ->
  (0 < prior_prob self < 1)%R /\
  exists b,
    bias (cls_pred self) = Some b /\
    self' = mkDeciYOLODFLHead (num_classes self) (stem self) (cls_convs self) (reg_convs self)
              (mkLayer (args (cls_pred self))
                       (Some (constant_ b (- ln ((1 - prior_prob self) / prior_prob self))))
                       (fn (cls_pred self)))
              (reg_pred self) (grid self) (stride self) (prior_prob self).
Proof.
  unfold _initialize_biases. intros Hi.
  destruct (Req_dec_T (prior_prob self) 0) as [|Hne]; [discriminate|].
  destruct (Rlt_dec 0 ((1 - prior_prob self) / prior_prob self)) as [Hpos|]; [|discriminate].
  destruct (bias (cls_pred self)) as [b|]; [|discriminate].
  injection Hi as <-. split; [|exists b; split; reflexivity].
  destruct (Rlt_or_le 0 (prior_prob self)) as [Hp|Hp].
  - split; [exact Hp|].
    destruct (Rlt_or_le (prior_prob self) 1) as [H1|H1]; [exact H1|].
    exfalso. assert (((1 - prior_prob self) / prior_prob self) <= 0)%R; [|lra].
    unfold Rdiv. rewrite <- (Rmult_0_l (/ prior_prob self)).
    apply Rmult_le_compat_r; [left; apply Rinv_0_lt_compat; exact Hp|lra].
  - exfalso. assert (Hneg : (prior_prob self < 0)%R) by lra.
    assert (((1 - prior_prob self) / prior_prob self) < 0)%R; [|lra].
    unfold Rdiv. assert (Hinv : (/ prior_prob self < 0)%R) by (apply Rinv_lt_0_compat; lra).
    nra.
Qed.

Lemma sigmoid_prior (p : R) :
  (0 < p < 1)%R -> (1 / (1 + exp (- - ln ((1 - p) / p))) = p)%R.
Proof.
  intros [Hp0 Hp1]. rewrite Ropp_involutive.
  assert (Hpos : (0 < (1 - p) / p)%R).
  { unfold Rdiv. apply Rmult_lt_0_compat; [lra|apply Rinv_0_lt_compat; exact Hp0]. }
  rewrite exp_ln by exact Hpos. field. lra.
Qed.

Lemma initialize_biases_returns (self : DeciYOLODFLHead) (b : Tensor) :
  (0 < prior_prob self < 1)%R ->
  bias (cls_pred self) = Some b ->
  _initialize_biases self
  = Some (mkDeciYOLODFLHead (num_classes self) (stem self) (cls_convs self) (reg_convs self)
            (mkLayer (args (cls_pred self))
                     (Some (constant_ b (- ln ((1 - prior_prob self) / prior_prob self))))
                     (fn (cls_pred self)))
            (reg_pred self) (grid self) (stride self) (prior_prob self)).
Proof.
  intros Hp Hb. unfold _initialize_biases.
  destruct (Req_dec_T (prior_prob self) 0) as [E|_]; [lra|].
  destruct (Rlt_dec 0 ((1 - prior_prob self) / prior_prob self)) as [_|Hn].
  - rewrite Hb. reflexivity.
  - exfalso. apply Hn. unfold Rdiv.
    apply Rmult_lt_0_compat; [lra|apply Rinv_0_lt_compat; lra].
Qed.


(** X15.  [_initialize_biases] raises when [prior_prob] is not strictly between 0
    and 1, or when [cls_pred] has no bias. *)
Theorem initialize_biases_raises (self : DeciYOLODFLHead) :
  (prior_prob self <= 0)%R \/ (1 <= prior_prob self)%R \/ bias (cls_pred self) = None ->
  _initialize_biases self = None.
Proof.
  intros Hbad. destruct (_initialize_biases self) as [self'|] eqn:E; [|reflexivity].
  destruct (initialize_biases_inv self self' E) as [Hp (b & Hb & _)].
  destruct Hbad as [H0|[H1|Hn]]; [lra|lra|congruence].
Qed.

(** What [__init__] built, when it returns. *)
Lemma init_inv (seeds : nat -> Seed) (ic inter : Z) (wm : R) (gs nc st rm : Z) head :
  modules_ok ->
  __init__ seeds ic inter wm gs nc st rm = Some head ->
  let c := width_multiplier inter wm 8 in
  let g := first_conv_groups c gs in
  layer_shapes (mkConvArgs ic c 1 1 0 1 false) (stem head) /\ bias (stem head) = None /\
  Forall (fun l => exists g, layer_shapes (conv3 c g) l /\ bias_fits (conv3 c g) (bias l))
         (cls_convs head) /\
  Forall (fun l => exists g, layer_shapes (conv3 c g) l /\ bias_fits (conv3 c g) (bias l))
         (reg_convs head) /\
  length (cls_convs head) = (if (g =? 0)%Z then 1 else 2) /\
  length (reg_convs head) = (if (g =? 0)%Z then 1 else 2) /\
  layer_shapes (mkConvArgs c nc 1 1 0 1 true) (cls_pred head) /\
  layer_shapes (mkConvArgs c (4 * (rm + 1)) 1 1 0 1 true) (reg_pred head) /\
  (exists b, bias (cls_pred head) = Some b /\ shape b = [Z.to_nat nc] /\ well_formed b /\
     forall idx, in_bounds [Z.to_nat nc] idx -> get (sigmoid b) idx = (1 / 100)%R) /\
  (exists b, bias (reg_pred head) = Some b /\ shape b = [Z.to_nat (4 * (rm + 1))]) /\
  num_classes head = nc /\ stride head = st /\ prior_prob head = (1 / 100)%R /\
  grid head = zeros [1].
Proof.
  intros Hok Hinit c g. unfold __init__ in Hinit. fold c in Hinit. fold g in Hinit.
  destruct (ConvBNReLU (seeds 0) _) as [stem0|] eqn:Estem; [|discriminate Hinit].
  destruct (first_conv (seeds 1) c g) as [fc|] eqn:Efc; [|discriminate Hinit].
  destruct (ConvBNReLU (seeds 2) _) as [cc|] eqn:Ecc; [|discriminate Hinit].
  destruct (first_conv (seeds 3) c g) as [fr|] eqn:Efr; [|discriminate Hinit].
  destruct (ConvBNReLU (seeds 4) _) as [rc|] eqn:Erc; [|discriminate Hinit].
  destruct (Conv2d (seeds 5) _) as [cp|] eqn:Ecp; [|discriminate Hinit].
  destruct (Conv2d (seeds 6) _) as [rp|] eqn:Erp; [|discriminate Hinit].
  cbn [mbind option_bind] in Hinit.
  destruct (initialize_biases_inv _ _ Hinit) as [Hp (b & Hb & ->)].
  cbn [cls_pred bias prior_prob num_classes stem cls_convs reg_convs reg_pred grid stride
       args fn] in *.
  destruct (ConvBNReLU_layer Hok _ _ _ Estem) as (_ & Hsb & Hsl).
  destruct (ConvBNReLU_layer Hok _ _ _ Ecc) as (_ & Hcb & Hcl).
  destruct (ConvBNReLU_layer Hok _ _ _ Erc) as (_ & Hrb & Hrl).
  destruct (Conv2d_layer Hok _ _ _ Ecp) as (_ & Hcpl & Hcpb).
  destruct (Conv2d_layer Hok _ _ _ Erp) as (_ & Hrpl & Hrpb).
  destruct (Hcpb eq_refl) as (b0 & Hb0 & Hb0s & Hb0w). cbn [conv_out] in Hb0s.
  destruct (Hrpb eq_refl) as (b1 & Hb1 & Hb1s & _). cbn [conv_out] in Hb1s.
  assert (b0 = b) by congruence. subst b0.
  destruct (first_conv_layers _ _ _ _ Hok Efc) as [Hfc Hfcl].
  destruct (first_conv_layers _ _ _ _ Hok Efr) as [Hfr Hfrl].
  assert (Hone : forall l, layer_shapes (conv3 c 1) l -> bias l = None ->
            Forall (fun l => exists g, layer_shapes (conv3 c g) l /\
                                       bias_fits (conv3 c g) (bias l)) [l]).
  { intros l Hl Hbl. constructor; [|constructor]. exists 1%Z. split; [exact Hl|].
    rewrite Hbl. exact I. }
  split; [exact Hsl|]. split; [exact Hsb|].
  split; [apply Forall_app; split; [exact Hfc|apply Hone; assumption]|].
  split; [apply Forall_app; split; [exact Hfr|apply Hone; assumption]|].
  split; [rewrite length_app, Hfcl; destruct (g =? 0)%Z; reflexivity|].
  split; [rewrite length_app, Hfrl; destruct (g =? 0)%Z; reflexivity|].
  split; [exact Hcpl|]. split; [exact Hrpl|].
  split.
  { eexists. split; [reflexivity|]. split; [exact Hb0s|].
    split; [apply well_formed_constant; exact Hb0w|].
    intros idx Hidx. rewrite get_sigmoid;
      [|apply well_formed_constant; exact Hb0w|rewrite constant_shape, Hb0s; exact Hidx].
    rewrite get_constant; [|exact Hb0w|rewrite Hb0s; exact Hidx].
    apply sigmoid_prior. lra. }
  split; [exists b1; split; assumption|].
  repeat split.
Qed.

(** The forward pass through layers that chain as [__init__] builds them. *)
Lemma forward_shapes_from_layers (head : DeciYOLODFLHead) (ic c nc rc : Z) (x : Tensor)
    (B C H W : nat) :
  (0 <= c)%Z ->
  layer_shapes (mkConvArgs ic c 1 1 0 1 false) (stem head) -> bias (stem head) = None ->
  Forall (fun l => exists g, layer_shapes (conv3 c g) l /\ bias_fits (conv3 c g) (bias l))
         (cls_convs head) ->
  Forall (fun l => exists g, layer_shapes (conv3 c g) l /\ bias_fits (conv3 c g) (bias l))
         (reg_convs head) ->
  layer_shapes (mkConvArgs c nc 1 1 0 1 true) (cls_pred head) ->
  bias_fits (mkConvArgs c nc 1 1 0 1 true) (bias (cls_pred head)) ->
  layer_shapes (mkConvArgs c rc 1 1 0 1 true) (reg_pred head) ->
  bias_fits (mkConvArgs c rc 1 1 0 1 true) (bias (reg_pred head)) ->
  shape x = [B; C; H; W] -> Z.of_nat C = ic -> 0 < H -> 0 < W ->
  exists reg_output cls_output,
    forward head x = Some (reg_output, cls_output) /\
    shape reg_output = [B; Z.to_nat rc; H; W] /\
    shape cls_output = [B; Z.to_nat nc; H; W].
Proof.
  intros Hc Hstem Hsb Hcls Hreg Hcp Hcb Hrp Hrb Hx HC HH HW.
  unfold forward.
  destruct (layer_call_same_size _ (stem head) x B C H W Hstem) as (x1 & -> & Hx1);
    [rewrite Hsb; exact I|left; repeat split|exact Hx|exact HC|exact HH|exact HW|].
  cbn [conv_out] in Hx1. cbn [mbind option_bind].
  destruct (sequential_same_size c (cls_convs head) x1 B H W Hc Hcls Hx1 HH HW)
    as (cf & -> & Hcf).
  destruct (layer_call_same_size _ (cls_pred head) cf B (Z.to_nat c) H W Hcp)
    as (co & -> & Hco);
    [exact Hcb|left; repeat split|exact Hcf|cbn; lia|exact HH|exact HW|].
  destruct (sequential_same_size c (reg_convs head) x1 B H W Hc Hreg Hx1 HH HW)
    as (rf & -> & Hrf).
  destruct (layer_call_same_size _ (reg_pred head) rf B (Z.to_nat c) H W Hrp)
    as (ro & -> & Hro);
    [exact Hrb|left; repeat split|exact Hrf|cbn; lia|exact HH|exact HW|].
  exists ro, co. split; [reflexivity|]. split; [exact Hro|exact Hco].
Qed.

(** X10.  A head that [__init__] built maps a feature map of [in_channels]
    channels to regression logits of [4 * (reg_max + 1)] channels and class
    logits of [num_classes] channels, both of the spatial size of the
    feature map. *)
Theorem head_forward_shapes (seeds : nat -> Seed) (ic inter : Z) (wm : R)
    (gs nc st rm : Z) (head : DeciYOLODFLHead) (x : Tensor) (B C H W : nat) :
  modules_ok ->
  __init__ seeds ic inter wm gs nc st rm = Some head ->
  (0 <= width_multiplier inter wm 8)%Z ->
  shape x = [B; C; H; W] -> Z.of_nat C = ic -> 0 < H -> 0 < W ->
  exists reg_output cls_output,
    forward head x = Some (reg_output, cls_output) /\
    shape reg_output = [B; Z.to_nat (4 * (rm + 1)); H; W] /\
    shape cls_output = [B; Z.to_nat nc; H; W].
Proof.
  intros Hok Hinit Hc Hx HC HH HW.
  destruct (init_inv _ _ _ _ _ _ _ _ _ Hok Hinit)
    as (Hstem & Hsb & Hcls & Hreg & _ & _ & Hcp & Hrp & (b & Hb & Hbs & _)
        & (b1 & Hb1 & Hb1s) & _).
  apply (forward_shapes_from_layers head ic (width_multiplier inter wm 8) nc (4 * (rm + 1))
           x B C H W); try assumption.
  - rewrite Hb. exact Hbs.
  - rewrite Hb1. exact Hb1s.
Qed.

Lemma groups_valid_one (i o : Z) k st p b : groups_valid (mkConvArgs i o k st p 1 b).
Proof. unfold groups_valid. cbn. rewrite !Z.mod_1_r. lia. Qed.

(** X12.  [__init__] raises when the number of groups of the first convolutions,
    [inter_channels // first_conv_group_size], is negative or does not
    divide the number of channels; a group size below [-1] makes it
    negative. *)
Theorem head_init_raises (seeds : nat -> Seed) (ic inter : Z) (wm : R) (gs nc st rm : Z) :
  modules_ok ->
  let c := width_multiplier inter wm 8 in
  (gs < -1 /\ 0 < c)%Z \/
  (first_conv_groups c gs <> 0 /\ c mod first_conv_groups c gs <> 0)%Z ->
  __init__ seeds ic inter wm gs nc st rm = None.
Proof.
  intros Hok c Hbad.
  assert (Hg : (first_conv_groups c gs <> 0)%Z /\
               ~ groups_valid (conv3 c (first_conv_groups c gs))).
  { destruct Hbad as [[Hgs Hc]|[Hg0 Hmod]].
    - assert (Hneg : (first_conv_groups c gs < 0)%Z).
      { unfold first_conv_groups.
        destruct (Z.eqb_spec gs 0) as [|_]; [lia|].
        destruct (Z.eqb_spec gs (-1)) as [|_]; [lia|].
        pose proof (Z.div_mod c gs ltac:(lia)) as Hdm.
        pose proof (Z.mod_neg_bound c gs ltac:(lia)) as Hmb. nia. }
      split; [lia|]. unfold groups_valid. cbn. lia.
    - split; [exact Hg0|]. unfold groups_valid. cbn. lia. }
  destruct Hg as [Hg0 Hinv].
  unfold __init__. fold c.
  destruct (ConvBNReLU (seeds 0) _) as [stem0|]; [|reflexivity].
  cbn [mbind option_bind].
  unfold first_conv at 1. destruct (Z.eqb_spec (first_conv_groups c gs) 0) as [|_]; [contradiction|].
  fold (conv3 c (first_conv_groups c gs)).
  rewrite (ConvBNReLU_raises Hok (seeds 1) _ Hinv). reflexivity.
Qed.

(** X13.  [__init__] returns a head when the numbers of channels are positive and
    the number of groups is zero or a positive divisor of the number of
    channels.  Each branch has two convolutions, or one when the number of
    groups is zero: the grouped convolution is left out. *)
Theorem head_init_builds (seeds : nat -> Seed) (ic inter : Z) (wm : R) (gs nc st rm : Z) :
  modules_ok ->
  let c := width_multiplier inter wm 8 in
  let g := first_conv_groups c gs in
  (0 < ic)%Z -> (0 < c)%Z -> (0 < nc)%Z -> (0 <= rm)%Z ->
  (g = 0 \/ (0 < g /\ c mod g = 0))%Z ->
  exists head,
    __init__ seeds ic inter wm gs nc st rm = Some head /\
    length (cls_convs head) = (if (g =? 0)%Z then 1 else 2) /\
    length (reg_convs head) = (if (g =? 0)%Z then 1 else 2).
Proof.
  intros Hok c g Hic Hc Hnc Hrm Hg.
  assert (Hfirst : forall seed, exists ls, first_conv seed c g = Some ls).
  { intros seed. unfold first_conv. destruct (Z.eqb_spec g 0) as [|Hne].
    - eexists. reflexivity.
    - destruct (ConvBNReLU_builds Hok seed (conv3 c g)) as (l & Hl);
        [unfold groups_valid; cbn; lia|exact Hc|exact Hc|].
      unfold conv3 in Hl. rewrite Hl. eexists. reflexivity. }
  destruct (ConvBNReLU_builds Hok (seeds 0) (mkConvArgs ic c 1 1 0 1 false))
    as (stem0 & Estem); [apply groups_valid_one|exact Hic|exact Hc|].
  destruct (Hfirst (seeds 1)) as (fc & Efc).
  destruct (ConvBNReLU_builds Hok (seeds 2) (mkConvArgs c c 3 1 1 1 false))
    as (cc & Ecc); [apply groups_valid_one|exact Hc|exact Hc|].
  destruct (Hfirst (seeds 3)) as (fr & Efr).
  destruct (ConvBNReLU_builds Hok (seeds 4) (mkConvArgs c c 3 1 1 1 false))
    as (rc & Erc); [apply groups_valid_one|exact Hc|exact Hc|].
  destruct (Conv2d_builds Hok (seeds 5) (mkConvArgs c nc 1 1 0 1 true))
    as (cp & Ecp); [apply groups_valid_one|exact Hc|exact Hnc|].
  destruct (Conv2d_builds Hok (seeds 6) (mkConvArgs c (4 * (rm + 1)) 1 1 0 1 true))
    as (rp & Erp); [apply groups_valid_one|exact Hc|cbn; lia|].
  destruct (Conv2d_layer Hok _ _ _ Ecp) as (_ & _ & Hcpb).
  destruct (Hcpb eq_refl) as (b0 & Hb0 & _ & Hb0w).
  set (pre := mkDeciYOLODFLHead nc stem0 (fc ++ [cc]) (fr ++ [rc]) cp rp (zeros [1]) st
                (1 / 100)%R).
  pose proof (initialize_biases_returns pre b0 ltac:(cbn; lra) Hb0) as Hhead.
  set (head := mkDeciYOLODFLHead _ _ _ _ _ _ _ _ _) in Hhead.
  assert (Hinit : __init__ seeds ic inter wm gs nc st rm = Some head).
  { unfold __init__. fold c. fold g. rewrite Estem. cbn [mbind option_bind].
    rewrite Efc. cbn [mbind option_bind]. rewrite Ecc. cbn [mbind option_bind].
    rewrite Efr. cbn [mbind option_bind]. rewrite Erc. cbn [mbind option_bind].
    rewrite Ecp. cbn [mbind option_bind]. rewrite Erp. cbn [mbind option_bind].
    exact Hhead. }
  exists head. split; [exact Hinit|].
  destruct (init_inv _ _ _ _ _ _ _ _ _ Hok Hinit) as (_ & _ & _ & _ & Hl1 & Hl2 & _).
  split; assumption.
Qed.

Lemma get_arange n i : i < n -> get (arange n) [i] = INR i.
Proof.
  intros Hi. unfold get, arange. cbn [shape data ravel numel].
  replace (i * 1 + 0) with i by lia.
  apply nth_error_nth. rewrite nth_error_map, nth_error_seq.
  destruct (Nat.ltb_spec i n) as [_|]; [reflexivity|lia].
Qed.

Lemma infer_shape_grid ny nx :
  infer_shape (numel [ny; nx; 2]) [1%Z; 1%Z; Z.of_nat ny; Z.of_nat nx; 2%Z]
  = Some [1; 1; ny; nx; 2].
Proof.
  unfold infer_shape. cbv zeta. cbn [existsb List.filter count_occ map].
  repeat match goal with
         | |- context [Z.eq_dec ?a ?b] => destruct (Z.eq_dec a b); try lia
         end.
  repeat match goal with
         | |- context [(?a <? ?b)%Z] => destruct (Z.ltb_spec a b); try lia
         end.
  cbn [orb].
  repeat match goal with
         | |- context [(?a =? ?b)%Z] => destruct (Z.eqb_spec a b); try lia
         end.
  cbn [negb List.filter map]. rewrite !Nat2Z.id.
  change (Z.to_nat 1) with 1. change (Z.to_nat 2) with 2.
  replace (numel [1; 1; ny; nx; 2]) with (numel [ny; nx; 2]) by (cbn [numel]; lia).
  rewrite Nat.eqb_refl. reflexivity.
Qed.

(** X16.  [_make_grid] returns the grid of cell coordinates: a tensor of shape
    [[1, 1, ny, nx, 2]] whose entry at row [y] and column [x] is the pair
    [(x, y)], with either version of torch. *)
Theorem make_grid_spec (new_torch : bool) (nx ny : nat) :
  exists g,
    _make_grid new_torch nx ny = Some g /\
    shape g = [1; 1; ny; nx; 2] /\
    forall y x, y < ny -> x < nx ->
      get g [0; 0; y; x; 0] = INR x /\ get g [0; 0; y; x; 1] = INR y.
Proof.
  unfold _make_grid.
  assert (Hm : (if new_torch then meshgrid (arange ny) (arange nx)
                else meshgrid (arange ny) (arange nx))
               = Some (tabulate [ny; nx] (fun idx => get (arange ny) [nth 0 idx 0]),
                       tabulate [ny; nx] (fun idx => get (arange nx) [nth 1 idx 0]))).
  { destruct new_torch; reflexivity. }
  rewrite Hm. cbn [mbind option_bind].
  set (yv := tabulate [ny; nx] (fun idx => get (arange ny) [nth 0 idx 0])).
  set (xv := tabulate [ny; nx] (fun idx => get (arange nx) [nth 1 idx 0])).
  unfold stack. cbn [shape xv yv tabulate length forallb].
  change (2 <=? 2) with true. rewrite !list_eqb_refl. cbn [andb firstn skipn app].
  cbn [mbind option_bind].
  fold xv. fold yv.
  set (s := tabulate [ny; nx; 2] _).
  unfold reshape. cbn [shape s tabulate]. rewrite infer_shape_grid.
  eexists. split; [reflexivity|]. split; [reflexivity|].
  intros y x Hy Hx.
  assert (Hs : forall k, k < 2 ->
            get (mkTensor [1; 1; ny; nx; 2] (data s)) [0; 0; y; x; k] = get s [y; x; k]).
  { intros k Hk. apply get_same_offset. cbn [shape s tabulate ravel numel]. lia. }
  fold s. rewrite !Hs by lia.
  unfold s. rewrite !get_tabulate by (apply in_bounds3; lia).
  cbn [nth remove_nth firstn skipn app].
  unfold xv, yv.
  rewrite !get_tabulate by (repeat constructor; assumption).
  cbn [nth]. split; apply get_arange; assumption.
Qed.

End HeadFacts.

Section HeadLevels.
Import Torch DflHeads.
Context `{MD : DflHead.Modules}.
Local Open Scope nat_scope.

(** X11.  A [DeciYOLODFLHead] built with the [num_classes] and the [reg_max] of an
    [NDFLHeads], as [_pass_args] arranges, is a head of the kind
    [forward_eval] and [forward_train] expect: on a feature map of its
    [in_channels] its outputs have the shapes of a level. *)
Theorem head_level_ok (self : NDFLHeads) (seeds : nat -> DflHead.Seed) (ic inter : Z)
    (wm : R) (gs st : Z) (head : DflHead.DeciYOLODFLHead) (x : Tensor) (B C H W : nat) :
  DflHead.modules_ok ->
  DflHead.__init__ seeds ic inter wm gs (Z.of_nat (num_classes self)) st
    (Z.of_nat (reg_max self)) = Some head ->
  (0 <= DflHead.width_multiplier inter wm 8)%Z ->
  shape x = [B; C; H; W] -> Z.of_nat C = ic -> 0 < H -> 0 < W ->
  exists reg_output cls_output,
    level_ok self B (mkLevel x (DflHead.forward head) reg_output cls_output C H W).
Proof.
  intros Hok Hinit Hc Hx HC HH HW.
  destruct (init_inv _ _ _ _ _ _ _ _ _ Hok Hinit)
    as (Hstem & Hsb & Hcls & Hreg & _ & _ & Hcp & Hrp & (b & Hb & Hbs & _)
        & (b1 & Hb1 & Hb1s) & _).
  destruct (forward_shapes_from_layers head ic (DflHead.width_multiplier inter wm 8)
              (Z.of_nat (num_classes self)) (4 * (Z.of_nat (reg_max self) + 1)) x B C H W)
    as (ro & co & Hf & Hro & Hco); try assumption.
  - rewrite Hb. exact Hbs.
  - rewrite Hb1. exact Hb1s.
  - exists ro, co. unfold level_ok. cbn [lv_feat lv_head lv_reg lv_cls lv_c lv_h lv_w].
    rewrite Nat2Z.id in Hco.
    replace (Z.to_nat (4 * (Z.of_nat (reg_max self) + 1))) with (4 * (reg_max self + 1))
      in Hro by lia.
    repeat split; assumption.
Qed.

End HeadLevels.

(** ** Edge cases of the pipeline and modes of the distillation module *)

Section PipelineEdges.
Import Pipelines.
Context {ImageType ModelOutput Metadata : Type}.
Context `{Ext : External ImageType ModelOutput Metadata}.

Abbreviation Processing := (Processing Metadata).
Abbreviation Pipeline := (Pipeline Metadata).
Abbreviation DetectionPipeline := (DetectionPipeline ModelOutput Metadata).
Abbreviation Images := (Images ImageType).

(** X17.  When the body of [with eval_mode(model)] raises, the exception leaves
    the block with the gradient mode put back but without the call of
    [model.train]: the model stays as the body left it, in evaluation mode
    if the body did not touch it. *)
Theorem eval_mode_body_raises {A} (body : M A) (w w1 : World) :
  body (eval_mode_entry w) = (None, w1) ->
  fst (eval_mode body w) = None /\
  grad_enabled (snd (eval_mode body w)) = grad_enabled w /\
  model (snd (eval_mode body w)) = model w1 /\
  trace (snd (eval_mode body w)) = trace w1 ++ [EvSetGrad (grad_enabled w)] /\
  (model w1 = model (eval_mode_entry w) ->
   training (model (snd (eval_mode body w))) = false).
Proof.
  intros Hbody. rewrite eval_mode_spec, Hbody. cbn [fst snd model grad_enabled trace].
  repeat split. intros ->. reflexivity.
Qed.

(** X18.  Without an image processor, [__call__] on at least one image raises at
    the first preprocessing: the model was moved to the device and the
    images were loaded, but the model was not run and its mode and the
    gradient mode were not touched. *)
Theorem call_without_processor_raises (self : DetectionPipeline) (images : Images)
    (w : World) :
  image_processor (pipeline self) = None ->
  inputs_of images <> [] ->
  __call__ self images w
  = (None, world_after (pipeline self) w [EvModelTo (device (pipeline self)); EvLoadImages]).
Proof.
  intros Hip Hne. unfold __call__. unfold bind at 1. rewrite run_steps.
  unfold stage_load. destruct (inputs_of images) as [|image rest]; [contradiction|].
  cbn [map preprocess_loop]. rewrite Hip. reflexivity.
Qed.


Lemma decoded_length (self : DetectionPipeline) output :
  length (decoded_tensors self output)
  = length (post_prediction_callback self output (device (pipeline self))).
Proof. unfold decoded_tensors. apply length_map. Qed.

(** X20.  [__call__] returns one image per input image and as many predictions as
    the shorter of the callback's result and the images: [zip] drops the
    entries beyond it, without an error. *)
Theorem call_predictions_length (self : DetectionPipeline) (ip : Processing)
    (images : Images) (w : World) :
  image_processor (pipeline self) = Some ip ->
  let p := pipeline self in
  let pre := stage_preprocess ip (stage_load images) in
  let output := Module_call (predict_model p w) false (batch_inputs p (map fst pre)) in
  exists res w',
    __call__ self images w = (Some res, w') /\
    length (results_images res) = length (inputs_of images) /\
    length (results_predictions res)
    = Nat.min (length (post_prediction_callback self output (device p)))
              (length (inputs_of images)).
Proof.
  intros Hip. cbv zeta. unfold __call__. unfold bind at 1. rewrite run_steps.
  rewrite (preprocess_loop_spec (pipeline self) ip) by exact Hip. cbn [fst snd app].
  unfold add_trace, world_after. cbn [model grad_enabled trace training model_device].
  fold (predict_model (pipeline self) w).
  rewrite decode_as_tensors.
  rewrite (postprocess_loop_spec (pipeline self) ip) by exact Hip.
  cbn [app]. eexists. eexists. split; [reflexivity|].
  cbn [results_images results_predictions].
  split; [apply stage_load_length|].
  unfold stage_postprocess. rewrite length_map, length_combine, decoded_length.
  unfold stage_preprocess. rewrite !length_map, stage_load_length. reflexivity.
Qed.

Lemma postprocess_loop_none (self : Pipeline) zipped :
  forall acc w i meta,
    nth_error zipped i = Some (None, meta) ->
    fst (postprocess_loop self zipped acc w) = None.
Proof.
  induction zipped as [|[[t|] m] zipped IH]; intros acc w i meta Hi.
  - destruct i; discriminate Hi.
  - destruct i as [|i]; [discriminate Hi|]. cbn [nth_error] in Hi.
    cbn [postprocess_loop]. destruct (image_processor self) as [ip|]; [|reflexivity].
    unfold bind, log. eapply IH. exact Hi.
  - reflexivity.
Qed.

(** X21.  [_run] raises when the decoding of the subclass leaves a [None] at the
    position of one of the images. *)
Theorem run_none_prediction_raises (self : Pipeline) (ip : Processing)
    (decode : ModelOutput -> list (option TorchTensor)) (images : Images) (w : World)
    (i : nat) :
  image_processor self = Some ip ->
  let pre := stage_preprocess ip (stage_load images) in
  let output := Module_call (predict_model self w) false (batch_inputs self (map fst pre)) in
  i < length (inputs_of images) ->
  nth_error (decode output) i = Some None ->
  fst (_run self decode images w) = None.
Proof.
  intros Hip pre output Hi Hnone. rewrite run_steps.
  rewrite (preprocess_loop_spec self ip) by exact Hip. cbn [fst snd app].
  unfold add_trace, world_after. cbn [model grad_enabled trace training model_device].
  fold (predict_model self w). fold pre. fold output.
  assert (Hmeta : exists meta, nth_error (map snd pre) i = Some meta).
  { destruct (nth_error (map snd pre) i) as [meta|] eqn:E; [exists meta; reflexivity|].
    apply nth_error_None in E. unfold pre, stage_preprocess in E.
    rewrite !length_map, stage_load_length in E. lia. }
  destruct Hmeta as (meta & Hmeta).
  pose proof (nth_error_combine _ _ _ _ _ Hnone Hmeta) as Hz.
  match goal with
  | |- context [postprocess_loop self ?z ?a ?w1] =>
      pose proof (postprocess_loop_none self z a w1 i meta Hz) as Hp;
      destruct (postprocess_loop self z a w1) as [[r|] w2]
  end; [discriminate Hp|reflexivity].
Qed.

End PipelineEdges.

Section KDModes.
Import KD.
Context {Input Output HpmStruct ParamGroups Kwargs : Type}.
Context `{AP : ArchParams Input Output HpmStruct ParamGroups Kwargs}.

Abbreviation TorchModule := (TorchModule Input Output).
Abbreviation KDModule := (KDModule Input Output HpmStruct ParamGroups Kwargs).

(** X22.  Unless [run_teacher_on_eval] is set, [train(mode)] puts every module of
    the teacher in [mode], whatever the student's [train] does. *)
Theorem train_sets_teacher_mode (self : KDModule) (mode : bool) (h : Heap) :
  run_teacher_on_eval self = false ->
  forall m, m ∈ modules (teacher self) -> training (train self mode h) !! m = Some mode.
Proof.
  intros Hflag m Hm. unfold train. rewrite Hflag. cbn [negb].
  apply Module_train_mode. exact Hm.
Qed.

(** X23.  [eval()] puts every module of the teacher in evaluation mode, with or
    without [run_teacher_on_eval] and whatever the student's [eval] does. *)
Theorem eval_sets_teacher_eval (self : KDModule) (h : Heap) :
  in_eval_mode (teacher self) (eval self h).
Proof.
  intros m Hm. unfold eval, Module_eval. apply Module_train_mode. exact Hm.
Qed.

(** X24.  [__init__] changes nothing but the teacher: the [requires_grad] of a
    parameter that is not the teacher's and the mode of a module that is
    not the teacher's are what they were; without [run_teacher_on_eval] no
    mode changes at all. *)
Theorem init_touches_only_teacher (arch_params : HpmStruct) (h : Heap) :
  let self := fst (__init__ arch_params h) in
  let h' := snd (__init__ arch_params h) in
  (forall p, p ∉ parameters (teacher self) -> requires_grad h' !! p = requires_grad h !! p) /\
  (forall m, m ∉ modules (teacher self) -> training h' !! m = training h !! m) /\
  (run_teacher_on_eval self = false -> training h' = training h).
Proof.
  cbv zeta. unfold __init__.
  set (self := mkKDModule _ _ _).
  destruct (run_teacher_on_eval self) eqn:Hflag; cbn [fst snd].
  - split; [|split].
    + intros p Hp. unfold Module_eval, Module_train, _freeze_teacher. cbn [requires_grad].
      rewrite fold_insert_lookup. rewrite decide_False by exact Hp. reflexivity.
    + intros m Hm. unfold Module_eval, Module_train, _freeze_teacher. cbn [training].
      rewrite fold_insert_lookup. rewrite decide_False by exact Hm. reflexivity.
    + intros Hf. congruence.
  - split; [|split].
    + intros p Hp. unfold _freeze_teacher. cbn [requires_grad].
      rewrite fold_insert_lookup. rewrite decide_False by exact Hp. reflexivity.
    + reflexivity.
    + reflexivity.
Qed.

(** X25.  Freezing the teacher twice is freezing it once. *)
Theorem freeze_teacher_idempotent (self : KDModule) (h : Heap) :
  _freeze_teacher self (_freeze_teacher self h) = _freeze_teacher self h.
Proof.
  unfold _freeze_teacher. cbn [requires_grad training]. f_equal.
  apply map_eq. intros k. rewrite !fold_insert_lookup.
  destruct (decide (k ∈ parameters (teacher self))); reflexivity.
Qed.

End KDModes.

(** ** The collate function *)

Section CollateFacts.
Import Torch Collate.
Context {Image ImageBatch : Type}.
Local Open Scope nat_scope.

Abbreviation Sample := (Sample Image).

Lemma get_zeros sh idx : get (zeros sh) idx = 0%R.
Proof. unfold get, zeros. cbn [shape data]. apply nth_repeat. Qed.

Lemma list_eqb_eq l1 l2 : list_eqb l1 l2 = true -> l1 = l2.
Proof.
  unfold list_eqb. intros H. apply andb_true_iff in H. destruct H as [Hlen Hall].
  apply Nat.eqb_eq in Hlen. revert l2 Hlen Hall.
  induction l1 as [|a l1 IH]; intros [|b l2] Hlen Hall; try discriminate; [reflexivity|].
  cbn in Hall. apply andb_true_iff in Hall. destruct Hall as [Hab Hall].
  apply Nat.eqb_eq in Hab. cbn in Hab. subst b. f_equal. apply IH; [|exact Hall].
  cbn in Hlen. lia.
Qed.

Lemma mkTensor_eta (t : Tensor) sh : shape t = sh -> mkTensor sh (data t) = t.
Proof. intros <-. destruct t. reflexivity. Qed.

Lemma in_bounds2 a b A B : a < A -> b < B -> in_bounds [A; B] [a; b].
Proof. intros. repeat constructor; assumption. Qed.

Lemma pad_sample_short (self : get_targets_prep_collate_fn) (s : Sample) n :
  shape (targets s) = [n; 5] -> n < max_targets self ->
  exists s', pad_sample self s = Some s' /\ padded self s s'.
Proof.
  intros Hs Hn. unfold pad_sample. rewrite Hs.
  destruct (Nat.ltb_spec n (max_targets self)) as [_|]; [|lia].
  unfold assign_rows. cbn [shape zeros length Nat.sub strip_ones].
  rewrite Hs. cbn [length Nat.sub strip_ones].
  unfold broadcast_shapes. cbn [rev app broadcast_rev]. rewrite !Nat.eqb_refl.
  cbn [mbind option_bind rev app]. rewrite list_eqb_refl.
  cbn [mbind option_bind].
  unfold roll. cbn [shape tabulate length]. change (1 <? 2) with true. cbv iota.
  cbn [nth].
  eexists. split; [reflexivity|].
  unfold padded. cbn [image targets]. split; [reflexivity|].
  exists n. split; [exact Hs|].
  destruct (Nat.ltb_spec n (max_targets self)) as [_|]; [|lia].
  split; [reflexivity|].
  rewrite (mkTensor_eta (targets s) [n; 5] Hs).
  set (boxes := tabulate [max_targets self; 5]
                  (fun idx => if nth 0 idx 0 <? n then _ else _)).
  set (rolled := tabulate [max_targets self; 5] _).
  assert (Hroll : forall r c, r < max_targets self -> c < 5 ->
            get rolled [r; c] = get boxes [r; (c + 4) mod 5]).
  { intros r c Hr Hc. unfold rolled.
    rewrite get_tabulate by (apply in_bounds2; assumption). reflexivity. }
  clearbody rolled.
  assert (Hbox : forall r c, r < max_targets self -> c < 5 ->
            get boxes [r; c] = if r <? n then get (targets s) [r; c] else 0%R).
  { intros r c Hr Hc. unfold boxes. rewrite get_tabulate by (apply in_bounds2; assumption).
    cbn [nth]. destruct (Nat.ltb_spec r n) as [Hrn|_]; [|apply get_zeros].
    cbn [broadcast_index length Nat.sub skipn combine map fst snd].
    change (5 =? 1) with false. cbv iota.
    destruct (Nat.eqb_spec n 1) as [->|_]; [|reflexivity].
    replace r with 0 by lia. reflexivity. }
  split.
  - intros r Hr. split.
    + rewrite Hroll by lia. change ((0 + 4) mod 5) with 4. rewrite Hbox by lia.
      destruct (Nat.ltb_spec r n); [reflexivity|lia].
    + intros c Hc. rewrite Hroll by lia.
      replace ((S c + 4) mod 5) with c
        by (destruct c as [|[|[|[|c]]]]; [reflexivity..|lia]).
      rewrite Hbox by lia. destruct (Nat.ltb_spec r n); [reflexivity|lia].
  - intros r c Hnr Hr Hc. rewrite Hroll by assumption.
    rewrite Hbox by (try assumption; apply Nat.mod_upper_bound; lia).
    destruct (Nat.ltb_spec r n); [lia|reflexivity].
Qed.

Lemma pad_sample_long (self : get_targets_prep_collate_fn) (s : Sample) n rest :
  shape (targets s) = n :: rest -> max_targets self <= n -> pad_sample self s = Some s.
Proof.
  intros Hs Hn. unfold pad_sample. rewrite Hs.
  destruct (Nat.ltb_spec n (max_targets self)); [lia|reflexivity].
Qed.

Lemma pad_targets_Forall2 (self : get_targets_prep_collate_fn) (data : list Sample) :
  Forall (fun s => exists n, shape (targets s) = [n; 5]) data ->
  exists data',
    _pad_targets self data = Some data' /\ Forall2 (padded self) data data'.
Proof.
  intros Hall. induction Hall as [|s data (n & Hs) _ (data' & Hpad & Hrel)].
  - exists []. split; [reflexivity|constructor].
  - cbn [_pad_targets].
    destruct (Nat.lt_ge_cases n (max_targets self)) as [Hn|Hn].
    + destruct (pad_sample_short self s n Hs Hn) as (s' & Hs' & Hp).
      rewrite Hs', Hpad. exists (s' :: data'). split; [reflexivity|].
      constructor; assumption.
    + rewrite (pad_sample_long self s n [5] Hs Hn), Hpad.
      exists (s :: data'). split; [reflexivity|]. constructor; [|exact Hrel].
      split; [reflexivity|]. exists n. split; [exact Hs|].
      destruct (Nat.ltb_spec n (max_targets self)); [lia|reflexivity].
Qed.

Lemma Forall2_nth_error_l {A B} (R : A -> B -> Prop) l1 l2 i a :
  Forall2 R l1 l2 -> nth_error l1 i = Some a ->
  exists b, nth_error l2 i = Some b /\ R a b.
Proof.
  intros Hall. revert i. induction Hall as [|x y l1 l2 Hxy _ IH]; intros i Hi.
  - destruct i; discriminate Hi.
  - destruct i as [|i]; cbn in Hi.
    + injection Hi as <-. exists y. split; [reflexivity|exact Hxy].
    + apply IH. exact Hi.
Qed.

Lemma Forall2_same_length {A B} (R : A -> B -> Prop) l1 l2 :
  Forall2 R l1 l2 -> length l1 = length l2.
Proof. intros Hall. induction Hall; cbn; congruence. Qed.

(** X26.  [_pad_targets] keeps the number and the images of the samples; it
    brings the targets of every sample of fewer than [max_targets] rows to
    [max_targets] rows, the given rows with the last column (the class)
    moved to the front, followed by rows of zeros, and leaves a sample of
    [max_targets] rows or more as it is: not truncated, and its columns
    not moved. *)
Theorem pad_targets_spec (self : get_targets_prep_collate_fn) (data : list Sample) :
  Forall (fun s => exists n, shape (targets s) = [n; 5]) data ->
  exists data',
    _pad_targets self data = Some data' /\
    length data' = length data /\
    forall i s, nth_error data i = Some s ->
      exists s', nth_error data' i = Some s' /\ padded self s s'.
Proof.
  intros Hall. destruct (pad_targets_Forall2 self data Hall) as (data' & Hpad & Hrel).
  exists data'. split; [exact Hpad|].
  split; [symmetry; exact (Forall2_same_length _ _ _ Hrel)|].
  intros i s Hi. exact (Forall2_nth_error_l _ _ _ _ _ Hrel Hi).
Qed.

Lemma cat_dim0 K ts :
  ts <> [] ->
  Forall (fun t => exists n, shape t = [n; K]) ts ->
  cat ts 0 = Some (tabulate [dim_total 0 ts; K] (cat_get ts 0)).
Proof.
  intros Hne Hall. destruct ts as [|t0 ts']; [contradiction|].
  unfold cat. pose proof (Forall_inv Hall) as (n0 & Hsh0). rewrite Hsh0.
  cbn [length]. change (norm_dim 2 0) with (Some 0).
  assert (Hchk : forallb (fun t => list_eqb (remove_nth 0 (shape t)) (remove_nth 0 [n0; K])
                                   && (length (shape t) =? 2)) (t0 :: ts') = true).
  { apply forallb_forall. intros t Ht.
    assert (Ht' : exists n, shape t = [n; K]).
    { clear - Hall Ht. induction Hall as [|x l Hx _ IH]; [destruct Ht|].
      destruct Ht as [->|Ht]; [exact Hx|exact (IH Ht)]. }
    destruct Ht' as (n & ->). cbn [remove_nth firstn skipn app length].
    rewrite list_eqb_refl. reflexivity. }
  cbn [mbind option_bind]. rewrite Hchk. reflexivity.
Qed.

Lemma dim_total_app d l1 l2 : dim_total d (l1 ++ l2) = dim_total d l1 + dim_total d l2.
Proof.
  induction l1 as [|t l1 IH]; [reflexivity|].
  cbn [app dim_total fold_right]. fold (dim_total d (l1 ++ l2)). fold (dim_total d l1).
  rewrite IH. lia.
Qed.

Lemma shape_tabulate sh f : shape (tabulate sh f) = sh.
Proof. reflexivity. Qed.

(** The tensor [merge_image] builds for image [i]. *)
Lemma merge_image_spec (t : Tensor) K i n :
  exists m,
    merge_image t K i n = Some m /\ shape m = [n; S K] /\
    forall j, j < n ->
      get m [j; 0] = INR i /\
      forall k, k < K -> get m [j; S k] = get t [i; j; k].
Proof.
  unfold merge_image, cat. cbn [shape tabulate length].
  change (norm_dim 2 1) with (Some 1). cbn [mbind option_bind forallb remove_nth firstn skipn app].
  rewrite !list_eqb_refl. cbn [andb length Nat.eqb fold_right nth set_nth].
  eexists. split; [reflexivity|].
  split; [cbn; rewrite Nat.add_0_r; reflexivity|].
  intros j Hj. split.
  - rewrite get_tabulate by (apply in_bounds2; [exact Hj|cbn; lia]).
    cbn [cat_get]. rewrite !shape_tabulate. cbn [nth].
    change (0 <? 1) with true. cbv iota.
    rewrite get_tabulate by (apply in_bounds2; [exact Hj|lia]). apply Rmult_1_l.
  - intros k Hk. rewrite get_tabulate by (apply in_bounds2; [exact Hj|cbn; lia]).
    cbn [cat_get]. rewrite !shape_tabulate. cbn [nth].
    change (S k <? 1) with false. cbv iota.
    change (set_nth 1 (S k - 1) [j; S k]) with [j; S k - 1].
    replace (S k - 1) with k by lia. cbn [nth].
    destruct (Nat.ltb_spec k K) as [_|]; [|lia].
    rewrite get_tabulate by (apply in_bounds2; assumption). reflexivity.
Qed.

Lemma merge_loop_spec (t : Tensor) K (nl : nat -> nat) range :
  forall acc, exists ms,
    merge_loop t K nl range acc = Some (acc ++ ms) /\
    Forall2 (fun i m => merge_image t K i (nl i) = Some m) range ms.
Proof.
  induction range as [|i range IH]; intros acc.
  - exists []. cbn. rewrite app_nil_r. split; [reflexivity|constructor].
  - cbn [merge_loop]. destruct (merge_image_spec t K i (nl i)) as (m & Hm & _).
    rewrite Hm. cbn [mbind option_bind].
    destruct (IH (acc ++ [m])) as (ms & Hms & Hall).
    exists (m :: ms). rewrite Hms, <- app_assoc. split; [reflexivity|].
    constructor; assumption.
Qed.

Lemma merged_rows (t : Tensor) K (nl : nat -> nat) n :
  forall a ms,
    Forall2 (fun i m => merge_image t K i (nl i) = Some m) (seq a n) ms ->
    rows_before nl (a + n) = rows_before nl a + dim_total 0 ms.
Proof.
  induction n as [|n IH]; intros a ms Hall.
  - inversion Hall; subst. cbn. rewrite Nat.add_0_r. lia.
  - cbn [seq] in Hall. inversion Hall as [|i m r ms' Hm Hrest]; subst.
    cbn [dim_total fold_right]. fold (dim_total 0 ms').
    specialize (IH (S a) ms' Hrest).
    destruct (merge_image_spec t K a (nl a)) as (m' & Hm' & Hsh & _).
    assert (m' = m) by congruence. subst m'. rewrite Hsh. cbn [nth].
    replace (a + S n) with (S a + n) by lia. rewrite IH. cbn [rows_before]. lia.
Qed.

Lemma Forall2_seq_split {B} (R : nat -> B -> Prop) n ms i :
  Forall2 R (seq 0 n) ms -> i < n ->
  exists ms1 m ms2, ms = ms1 ++ m :: ms2 /\ R i m /\ Forall2 R (seq 0 i) ms1.
Proof.
  intros Hall Hi.
  replace n with (i + S (n - S i)) in Hall by lia.
  rewrite seq_app in Hall. cbn [seq Nat.add] in Hall.
  apply Forall2_app_inv_l in Hall. destruct Hall as (ms1 & ms2 & H1 & H2 & ->).
  inversion H2 as [|x m r ms2' Hm Hrest]; subst.
  exists ms1, m, ms2'. repeat split; assumption.
Qed.

Lemma nlabel_le (t : Tensor) T K i : nlabel t T K i <= T.
Proof.
  unfold nlabel. etransitivity; [apply List.filter_length_le|]. rewrite length_seq. lia.
Qed.

Lemma get_scale_boxes (t : Tensor) (res : R) i j k N T K :
  shape t = [N; T; K] -> i < N -> j < T -> k < K ->
  get (scale_boxes t res) [i; j; k]
  = if k =? 0 then get t [i; j; k] else Rdiv (get t [i; j; k]) res.
Proof.
  intros Hs Hi Hj Hk. unfold scale_boxes. rewrite Hs.
  rewrite get_tabulate by (apply in_bounds3; assumption). reflexivity.
Qed.

(** The rows [merge_targets] returns, in terms of the collated targets. *)
Lemma merge_targets_spec (res : R) (t : Tensor) N T K :
  shape t = [N; T; K] -> 0 < N ->
  let nl := nlabel t T K in
  exists out,
    merge_targets res t = Some out /\
    shape out = [rows_before nl N; S K] /\
    forall i j, i < N -> j < nl i ->
      get out [rows_before nl i + j; 0] = INR i /\
      forall k, k < K ->
        get out [rows_before nl i + j; S k]
        = if k =? 0 then get t [i; j; k] else Rdiv (get t [i; j; k]) res.
Proof.
  intros Hs HN nl. unfold merge_targets. rewrite Hs. cbv zeta. fold nl.
  destruct (merge_loop_spec (scale_boxes t res) K nl (seq 0 N) []) as (ms & Hms & Hall).
  cbn [app] in Hms. rewrite Hms. cbn [mbind option_bind].
  assert (Hshapes : Forall (fun m => exists n, shape m = [n; S K]) ms).
  { eapply Forall2_Forall_r; [|exact Hall]. intros i m Hm. cbn beta in Hm.
    destruct (merge_image_spec (scale_boxes t res) K i (nl i)) as (m' & Hm' & Hsh & _).
    assert (m' = m) by congruence. subst m'. eexists. exact Hsh. }
  assert (Hne : ms <> []).
  { intros ->. destruct N; [lia|]. cbn [seq] in Hall. inversion Hall. }
  rewrite (cat_dim0 (S K) ms Hne Hshapes).
  pose proof (merged_rows _ _ _ _ 0 ms Hall) as Htot. cbn [Nat.add rows_before] in Htot.
  rewrite <- Htot.
  eexists. split; [reflexivity|]. split; [reflexivity|].
  intros i j Hi Hj.
  destruct (Forall2_seq_split _ N ms i Hall Hi) as (ms1 & m & ms2 & -> & Hm & Hfirst).
  pose proof (merged_rows _ _ _ _ 0 ms1 Hfirst) as Hoff. cbn [Nat.add rows_before] in Hoff.
  destruct (merge_image_spec (scale_boxes t res) K i (nl i)) as (m' & Hm' & Hsh & Hget).
  assert (m' = m) by congruence. subst m'.
  assert (Hrows : rows_before nl i + j < rows_before nl N).
  { rewrite Htot, Hoff, dim_total_app. cbn [dim_total fold_right].
    rewrite Hsh. cbn [nth]. lia. }
  assert (Hcat : forall c, c < S K ->
            get (tabulate [rows_before nl N; S K] (cat_get (ms1 ++ m :: ms2) 0))
                [rows_before nl i + j; c] = get m [j; c]).
  { intros c Hc. rewrite get_tabulate by (apply in_bounds2; assumption).
    rewrite (cat_get_offset ms1 m ms2 0 _ j);
      [reflexivity|cbn; lia|rewrite Hsh; exact Hj|cbn [nth]; lia]. }
  destruct (Hget j Hj) as [Hcol Hrow].
  pose proof (nlabel_le t T K i) as HleT. fold nl in HleT.
  split.
  - rewrite Hcat by lia. exact Hcol.
  - intros k Hk. rewrite Hcat by lia. rewrite Hrow by exact Hk.
    apply (get_scale_boxes t res i j k N T K); [exact Hs|exact Hi|lia|exact Hk].
Qed.

Lemma nth_map_targets (data : list Sample) i s d :
  nth_error data i = Some s -> nth i (map targets data) d = targets s.
Proof.
  intros Hi. apply nth_error_nth. rewrite nth_error_map, Hi. reflexivity.
Qed.

Lemma stack_targets (data : list Sample) T K :
  data <> [] ->
  Forall (fun s => shape (targets s) = [T; K]) data ->
  exists st,
    stack (map targets data) 0 = Some st /\
    shape st = [length data; T; K] /\
    forall i j k, i < length data -> j < T -> k < K ->
      get st [i; j; k] = target_entry data i j k.
Proof.
  intros Hne Hall. destruct data as [|s0 data']; [contradiction|].
  unfold stack. cbn [map]. cbn [Nat.leb].
  assert (Hchk : forallb (fun t => list_eqb (shape t) (shape (targets s0)))
                         (targets s0 :: map targets data') = true).
  { apply forallb_forall. intros t Ht. change (targets s0 :: map targets data')
      with (map targets (s0 :: data')) in Ht.
    apply in_map_iff in Ht. destruct Ht as (s & <- & Hs).
    assert (Hsh : forall s, In s (s0 :: data') -> shape (targets s) = [T; K]).
    { clear - Hall. induction Hall as [|x l Hx _ IH]; intros s []; subst; auto. }
    rewrite (Hsh s Hs), (Hsh s0 (or_introl eq_refl)). apply list_eqb_refl. }
  rewrite Hchk. cbn [andb].
  rewrite (Forall_inv Hall). cbn [firstn skipn app length].
  eexists. split; [reflexivity|]. split; [rewrite length_map; reflexivity|].
  intros i j k Hi Hj Hk. rewrite length_map.
  rewrite get_tabulate by (apply in_bounds3; [cbn [length] in Hi; exact Hi|exact Hj|exact Hk]).
  change (nth 0 [i; j; k] 0) with i. change (remove_nth 0 [i; j; k]) with [j; k].
  unfold target_entry.
  destruct (nth_error (s0 :: data') i) as [s|] eqn:Es.
  - change (targets s0 :: map targets data') with (map targets (s0 :: data')).
    rewrite (nth_map_targets _ _ _ _ Es). reflexivity.
  - apply nth_error_None in Es. cbn [length] in *. lia.
Qed.

Lemma rows_before_ext (nl nl' : nat -> nat) i :
  (forall i', i' < i -> nl i' = nl' i') -> rows_before nl i = rows_before nl' i.
Proof.
  induction i as [|i IH]; intros Hext; [reflexivity|].
  cbn [rows_before]. rewrite IH, Hext by (intros; try apply Hext; lia). reflexivity.
Qed.

Lemma nlabel_kept (data : list Sample) (st : Tensor) T K i :
  (forall j k, j < T -> k < K -> get st [i; j; k] = target_entry data i j k) ->
  nlabel st T K i = kept_rows data T K i.
Proof.
  intros Hget. unfold nlabel, kept_rows. f_equal. apply List.filter_ext_in.
  intros j Hj. apply in_seq in Hj.
  rewrite (sumR_ext (fun k => get st [i; j; k]) (fun k => target_entry data i j k) K)
    by (intros k Hk; apply Hget; lia).
  reflexivity.
Qed.

(** The targets [__call__] returns once the samples are collated. *)
Lemma collated_spec (res : R) (data : list Sample) T K :
  data <> [] ->
  Forall (fun s => shape (targets s) = [T; K]) data ->
  let nl := kept_rows data T K in
  exists st out,
    stack (map targets data) 0 = Some st /\
    merge_targets res st = Some out /\
    shape out = [rows_before nl (length data); S K] /\
    forall i j, i < length data -> j < nl i ->
      j < T /\
      get out [rows_before nl i + j; 0] = INR i /\
      forall k, k < K ->
        get out [rows_before nl i + j; S k]
        = if k =? 0 then target_entry data i j k else Rdiv (target_entry data i j k) res.
Proof.
  intros Hne Hall nl.
  destruct (stack_targets data T K Hne Hall) as (st & Hst & Hsh & Hget).
  assert (HN : 0 < length data) by (destruct data; [contradiction|cbn; lia]).
  destruct (merge_targets_spec res st (length data) T K Hsh HN) as (out & Hout & Hosh & Hrows).
  assert (Hnl : forall i, i < length data -> nlabel st T K i = nl i).
  { intros i Hi. apply nlabel_kept. intros j k Hj Hk. apply Hget; assumption. }
  exists st, out. split; [exact Hst|]. split; [exact Hout|].
  split.
  { rewrite Hosh. f_equal. apply rows_before_ext. intros i Hi. apply Hnl. exact Hi. }
  intros i j Hi Hj.
  assert (Hoff : rows_before (nlabel st T K) i = rows_before nl i).
  { apply rows_before_ext. intros i' Hi'. apply Hnl. lia. }
  rewrite <- (Hnl i Hi) in Hj.
  pose proof (nlabel_le st T K i) as Hle.
  destruct (Hrows i j Hi Hj) as [Hcol Hrow]. rewrite Hoff in Hcol, Hrow.
  split; [lia|]. split; [exact Hcol|].
  intros k Hk. rewrite (Hrow k Hk). rewrite Hget by (try assumption; lia). reflexivity.
Qed.

(** X27.  Without padding ([val] false, as in the training loader), for
    samples whose targets all have [T] rows of [K] entries, [__call__]
    returns the collated images and one tensor of [K + 1] columns holding,
    image after image, the first [n] rows of each image, where [n] is the
    number of its rows of positive sum: whichever rows these are.  Every
    row starts with the index of its image in the batch; its entry 0 is
    kept and the others are divided by [resolution]. *)
Theorem call_merges_first_rows (collate_images : list Image -> option ImageBatch)
    (self : get_targets_prep_collate_fn) (data : list Sample) (T K : nat)
    (ims : ImageBatch) :
  val self = false ->
  resolution self <> 0%R ->
  data <> [] ->
  Forall (fun s => shape (targets s) = [T; K]) data ->
  collate_images (map image data) = Some ims ->
  let nl := kept_rows data T K in
  exists out,
    __call__ collate_images self data = Some (ims, out) /\
    shape out = [rows_before nl (length data); S K] /\
    forall i j, i < length data -> j < nl i ->
      get out [rows_before nl i + j; 0] = INR i /\
      forall k, k < K ->
        get out [rows_before nl i + j; S k]
        = if k =? 0 then target_entry data i j k
          else Rdiv (target_entry data i j k) (resolution self).
Proof.
  intros Hval _ Hne Hall Hims nl.
  destruct (collated_spec (resolution self) data T K Hne Hall)
    as (st & out & Hst & Hout & Hsh & Hrows).
  exists out. unfold __call__. rewrite Hval. cbn [mbind option_bind].
  rewrite Hims. cbn [mbind option_bind]. rewrite Hst. cbn [mbind option_bind].
  rewrite Hout. split; [reflexivity|]. split; [exact Hsh|].
  intros i j Hi Hj. destruct (Hrows i j Hi Hj) as (_ & Hcol & Hrow). split; assumption.
Qed.

Lemma filter_count (P : nat -> bool) T n :
  n <= T ->
  (forall j, j < n -> P j = true) ->
  (forall j, n <= j -> j < T -> P j = false) ->
  length (List.filter P (seq 0 T)) = n.
Proof.
  intros Hn Ht Hf. replace T with (n + (T - n)) by lia.
  rewrite seq_app, List.filter_app, length_app. cbn [Nat.add].
  assert (H1 : List.filter P (seq 0 n) = seq 0 n).
  { assert (Hin : forall j, In j (seq 0 n) -> P j = true)
      by (intros j Hj; apply in_seq in Hj; apply Ht; lia).
    induction (seq 0 n) as [|a l IH]; [reflexivity|].
    cbn [List.filter]. rewrite (Hin a (or_introl eq_refl)), IH; [reflexivity|].
    intros j Hj. apply Hin. right. exact Hj. }
  assert (H2 : List.filter P (seq n (T - n)) = []).
  { assert (Hin : forall j, In j (seq n (T - n)) -> P j = false)
      by (intros j Hj; apply in_seq in Hj; apply Hf; lia).
    induction (seq n (T - n)) as [|a l IH]; [reflexivity|].
    cbn [List.filter]. rewrite (Hin a (or_introl eq_refl)). apply IH.
    intros j Hj. apply Hin. right. exact Hj. }
  rewrite H1, H2, length_seq. cbn. lia.
Qed.

Lemma sumR_5 f :
  sumR f 5 = Rplus (Rplus (Rplus (Rplus (f 0) (f 1)) (f 2)) (f 3)) (f 4).
Proof. unfold sumR. cbn [seq map fold_right]. lra. Qed.

Lemma Forall_nth_error {A} (P : A -> Prop) l i a :
  Forall P l -> nth_error l i = Some a -> P a.
Proof.
  intros Hall. revert i. induction Hall as [|x l Hx _ IH]; intros i Hi.
  - destruct i; discriminate Hi.
  - destruct i as [|i]; cbn in Hi; [injection Hi as <-; exact Hx|eapply IH; exact Hi].
Qed.

(** X28.  With padding ([val] true, as in the evaluation loader), for
    samples of fewer than [max_targets] rows [[x, y, w, h, class]] whose
    rows have a positive sum, [__call__] returns the collated images and a
    tensor with one row per object, image after image:
    [[image index, class, x / resolution, y / resolution, w / resolution,
      h / resolution]]; the rows of padding are dropped. *)
Theorem call_val_rows (collate_images : list Image -> option ImageBatch)
    (self : get_targets_prep_collate_fn) (data : list Sample) (ims : ImageBatch) :
  val self = true ->
  resolution self <> 0%R ->
  data <> [] ->
  Forall (fun s => exists n,
            shape (targets s) = [n; 5] /\ n < max_targets self /\
            forall j, j < n -> (0 < sumR (fun k => get (targets s) [j; k]) 5)%R) data ->
  collate_images (map image data) = Some ims ->
  let nl := n_rows data in
  exists out,
    __call__ collate_images self data = Some (ims, out) /\
    shape out = [rows_before nl (length data); 6] /\
    forall i j, i < length data -> j < nl i ->
      get out [rows_before nl i + j; 0] = INR i /\
      get out [rows_before nl i + j; 1] = target_entry data i j 4 /\
      forall c, c < 4 ->
        get out [rows_before nl i + j; S (S c)]
        = Rdiv (target_entry data i j c) (resolution self).
Proof.
  intros Hval _ Hne Hall Hims nl.
  assert (Hshapes : Forall (fun s => exists n, shape (targets s) = [n; 5]) data).
  { clear - Hall. induction Hall as [|s l (n & Hs & _) _ IH]; constructor; eauto. }
  destruct (pad_targets_Forall2 self data Hshapes) as (data' & Hpad & Hrel).
  pose proof (Forall2_same_length _ _ _ Hrel) as Hlen.
  assert (Himg : map image data' = map image data).
  { clear - Hrel. induction Hrel as [|s s' l l' [Hi _] _ IH]; [reflexivity|].
    cbn [map]. rewrite Hi, IH. reflexivity. }
  assert (Hpadded : Forall (fun s => shape (targets s) = [max_targets self; 5]) data').
  { clear - Hrel Hall. revert Hall. induction Hrel as [|s s' l l' Hp _ IH]; intros Hall;
      [constructor|].
    inversion Hall as [|? ? (n & Hs & Hn & _) Hrest]; subst.
    constructor; [|apply IH; exact Hrest].
    destruct Hp as (_ & n' & Hs' & Hp). assert (n' = n) by congruence. subst n'.
    destruct (Nat.ltb_spec n (max_targets self)); [|lia]. apply Hp. }
  assert (Hne' : data' <> []) by (intros ->; destruct data; [contradiction|discriminate Hlen]).
  destruct (collated_spec (resolution self) data' (max_targets self) 5 Hne' Hpadded)
    as (st & out & Hst & Hout & Hsh & Hrows).
  (* the rows of a padded sample, in terms of the sample *)
  assert (Hentry : forall i s, nth_error data i = Some s ->
            exists n, shape (targets s) = [n; 5] /\ n < max_targets self /\ nl i = n /\
              (forall j, j < n -> (0 < sumR (fun k => get (targets s) [j; k]) 5)%R) /\
              (forall j, j < n ->
                 target_entry data' i j 0 = get (targets s) [j; 4] /\
                 forall c, c < 4 -> target_entry data' i j (S c) = get (targets s) [j; c]) /\
              (forall j c, n <= j -> j < max_targets self -> c < 5 ->
                 target_entry data' i j c = 0%R)).
  { intros i s Hi.
    destruct (Forall_nth_error _ _ _ _ Hall Hi) as (n & Hs & Hn & Hpos).
    destruct (Forall2_nth_error_l _ _ _ _ _ Hrel Hi) as (s' & Hi' & _ & n' & Hs' & Hp).
    assert (n' = n) by congruence. subst n'.
    destruct (Nat.ltb_spec n (max_targets self)); [|lia].
    destruct Hp as (_ & Hreal & Hzero).
    exists n. split; [exact Hs|]. split; [exact Hn|].
    split; [unfold nl, n_rows; rewrite Hi, Hs; reflexivity|].
    split; [exact Hpos|].
    unfold target_entry. rewrite Hi'. split; [exact Hreal|exact Hzero]. }
  assert (Hkept : forall i, i < length data -> kept_rows data' (max_targets self) 5 i = nl i).
  { intros i Hi. destruct (nth_error data i) as [s|] eqn:Es;
      [|apply nth_error_None in Es; lia].
    destruct (Hentry i s Es) as (n & Hs & Hn & Hnl & Hpos & Hreal & Hzero).
    rewrite Hnl. unfold kept_rows. apply filter_count; [lia| |].
    - intros j Hj. destruct (Hreal j Hj) as [H0 Hc].
      rewrite sumR_5, H0, !Hc by lia. specialize (Hpos j Hj). rewrite sumR_5 in Hpos.
      destruct (Rlt_dec 0 _) as [_|Hn']; [reflexivity|]. exfalso. apply Hn'. lra.
    - intros j Hj HjT. rewrite sumR_5, !Hzero by lia.
      destruct (Rlt_dec 0 _) as [Hlt|_]; [lra|reflexivity]. }
  assert (Hoff : forall i, i <= length data ->
            rows_before (kept_rows data' (max_targets self) 5) i = rows_before nl i).
  { intros i Hi. apply rows_before_ext. intros i' Hi'. apply Hkept. lia. }
  exists out. unfold __call__. rewrite Hval, Hpad. cbn [mbind option_bind].
  rewrite Himg, Hims. cbn [mbind option_bind]. rewrite Hst. cbn [mbind option_bind].
  rewrite Hout. split; [reflexivity|].
  split; [rewrite Hsh, <- Hlen, Hoff by lia; reflexivity|].
  intros i j Hi Hj.
  destruct (nth_error data i) as [s|] eqn:Es; [|apply nth_error_None in Es; lia].
  destruct (Hentry i s Es) as (n & Hs & Hn & Hnl & _ & Hreal & _).
  assert (Hj' : j < kept_rows data' (max_targets self) 5 i) by (rewrite Hkept; assumption).
  rewrite <- Hlen in Hrows.
  destruct (Hrows i j Hi Hj') as (_ & Hcol & Hrow). rewrite Hoff in Hcol, Hrow by lia.
  destruct (Hreal j ltac:(lia)) as [H0 Hc].
  split; [exact Hcol|]. split.
  - rewrite (Hrow 0) by lia. cbn [Nat.eqb]. rewrite H0.
    unfold target_entry. rewrite Es. reflexivity.
  - intros c Hc4. rewrite (Hrow (S c)) by lia. cbn [Nat.eqb]. rewrite Hc by exact Hc4.
    unfold target_entry. rewrite Es. reflexivity.
Qed.

Lemma stack_inv (ts : list Tensor) st :
  stack ts 0 = Some st ->
  exists t0 rest, ts = t0 :: rest /\
    (forall t, In t ts -> shape t = shape t0) /\ shape st = length ts :: shape t0.
Proof.
  unfold stack. destruct ts as [|t0 rest]; [discriminate|]. cbn [Nat.leb andb].
  destruct (forallb _ _) eqn:Hall; [|discriminate].
  intros [= <-]. exists t0, rest. split; [reflexivity|].
  split; [|reflexivity].
  intros t Ht. apply list_eqb_eq. exact (proj1 (forallb_forall _ _) Hall t Ht).
Qed.

(** Collating raises on no sample, on targets of different shapes and on
    targets that are not two-dimensional. *)
Lemma collated_rejects (res : R) (ts : list Tensor) :
  ts = [] \/
  (exists t1 t2, In t1 ts /\ In t2 ts /\ shape t1 <> shape t2) \/
  (exists t, In t ts /\ length (shape t) <> 2) ->
  (do st <- stack ts 0; merge_targets res st) = None.
Proof.
  intros Hbad. destruct (stack ts 0) as [st|] eqn:Hst; [|reflexivity].
  cbn [mbind option_bind].
  destruct (stack_inv ts st Hst) as (t0 & rest & -> & Hsame & Hsh).
  destruct Hbad as [Hnil|[(t1 & t2 & H1 & H2 & Hne)|(t & Ht & Hrank)]].
  - discriminate Hnil.
  - exfalso. apply Hne. rewrite (Hsame t1 H1), (Hsame t2 H2). reflexivity.
  - unfold merge_targets. rewrite Hsh. rewrite <- (Hsame t Ht).
    destruct (shape t) as [|a [|b [|c l]]]; try reflexivity. cbn in Hrank. lia.
Qed.

(** X29.  Without padding, [__call__] raises on an empty list of samples,
    on samples whose targets differ in shape (numbers of objects that
    differ), and on targets that are not two-dimensional. *)
Theorem call_rejects (collate_images : list Image -> option ImageBatch)
    (self : get_targets_prep_collate_fn) (data : list Sample) :
  val self = false ->
  data = [] \/
  (exists s1 s2, In s1 data /\ In s2 data /\ shape (targets s1) <> shape (targets s2)) \/
  (exists s, In s data /\ length (shape (targets s)) <> 2) ->
  __call__ collate_images self data = None.
Proof.
  intros Hval Hbad. unfold __call__. rewrite Hval. cbn [mbind option_bind].
  destruct (collate_images (map image data)) as [ims|]; [|reflexivity].
  cbn [mbind option_bind].
  pose proof (collated_rejects (resolution self) (map targets data)) as Hrej.
  cbn [mbind option_bind] in Hrej.
  destruct (stack (map targets data) 0) as [st|]; [|reflexivity].
  cbn [mbind option_bind]. rewrite Hrej; [reflexivity|].
  destruct Hbad as [->|[(s1 & s2 & H1 & H2 & Hne)|(s & Hs & Hrank)]].
  - left. reflexivity.
  - right. left. exists (targets s1), (targets s2).
    repeat split; [apply in_map; exact H1|apply in_map; exact H2|exact Hne].
  - right. right. exists (targets s). split; [apply in_map; exact Hs|exact Hrank].
Qed.

(** X30.  With padding, a batch that mixes a sample of fewer than
    [max_targets] rows with one of more than [max_targets] rows makes
    [__call__] raise: the long sample is not cut down, so the targets
    cannot be stacked. *)
Theorem call_val_long_sample (collate_images : list Image -> option ImageBatch)
    (self : get_targets_prep_collate_fn) (data : list Sample) (s1 s2 : Sample) (n1 n2 : nat) :
  val self = true ->
  Forall (fun s => exists n, shape (targets s) = [n; 5]) data ->
  In s1 data -> shape (targets s1) = [n1; 5] -> n1 < max_targets self ->
  In s2 data -> shape (targets s2) = [n2; 5] -> max_targets self < n2 ->
  __call__ collate_images self data = None.
Proof.
  intros Hval Hall H1 Hs1 Hn1 H2 Hs2 Hn2.
  destruct (pad_targets_Forall2 self data Hall) as (data' & Hpad & Hrel).
  unfold __call__. rewrite Hval, Hpad. cbn [mbind option_bind].
  destruct (collate_images (map image data')) as [ims|]; [|reflexivity].
  cbn [mbind option_bind].
  pose proof (collated_rejects (resolution self) (map targets data')) as Hrej.
  cbn [mbind option_bind] in Hrej.
  destruct (stack (map targets data') 0) as [st|]; [|reflexivity].
  cbn [mbind option_bind]. rewrite Hrej; [reflexivity|].
  right. left.
  assert (Hin : forall s, In s data -> exists s', In s' data' /\ padded self s s').
  { clear - Hrel. induction Hrel as [|x y l l' Hxy _ IH]; intros s [].
    - subst. exists y. split; [left; reflexivity|exact Hxy].
    - destruct (IH s H) as (s' & Hs' & Hp). exists s'. split; [right; exact Hs'|exact Hp]. }
  destruct (Hin s1 H1) as (s1' & H1' & _ & m1 & Hm1 & Hp1).
  destruct (Hin s2 H2) as (s2' & H2' & _ & m2 & Hm2 & Hp2).
  assert (m1 = n1) by congruence. assert (m2 = n2) by congruence. subst m1 m2.
  destruct (Nat.ltb_spec n1 (max_targets self)); [|lia].
  destruct (Nat.ltb_spec n2 (max_targets self)); [lia|]. subst s2'.
  destruct Hp1 as (Hsh1 & _).
  exists (targets s1'), (targets s2).
  repeat split; [apply in_map; exact H1'|apply in_map; exact H2'|].
  rewrite Hsh1, Hs2. intros [= E]. lia.
Qed.

End CollateFacts.

(** ** The code on the concrete instances *)

Section RunExamples.
Import Examples.

Example reduce_shape :
  option_map Torch.shape (DflHeads.reg_dist_reduce ex_self ex_reg 1) = Some [1; 1; 4].
Proof. reflexivity. Qed.

Example forward_eval_shapes :
  option_map
    (fun o => (Torch.shape (fst (DflHeads.decoded_of o)),
               Torch.shape (snd (DflHeads.decoded_of o))))
    (@DflHeads.forward_eval ex_ppyoloe ex_self false [ex_feat])
  = Some ([1; 1; 4], [1; 1; 1]).
Proof. reflexivity. Qed.

Example call_result :
  fst (@Pipelines.__call__ nat nat nat ex_external ex_detection (Pipelines.Several [3; 5]) ex_world)
  = Some (Pipelines.mkDetectionResults
            [ex_array 3; ex_array 5]
            [Pipelines.mkArray (Torch.zeros [0; 6]) Pipelines.float32;
             Pipelines.mkArray (Torch.zeros [2; 6]) Pipelines.float32]
            ["person"]).
Proof. reflexivity. Qed.

Example call_world :
  snd (@Pipelines.__call__ nat nat nat ex_external ex_detection (Pipelines.Single 3) ex_world)
  = Pipelines.mkWorld (Pipelines.mkModel true "cuda") true
      [Pipelines.EvModelTo (Some "cuda"); Pipelines.EvLoadImages;
       Pipelines.EvPreprocess (ex_array 3);
       Pipelines.EvModelTrain false; Pipelines.EvSetGrad false;
       Pipelines.EvForward (Pipelines.mkModel false "cuda") false
         (Pipelines.mkTorchTensor (Torch.mkTensor [1] [INR 3]) Pipelines.float32 "cuda" false);
       Pipelines.EvDecode;
       Pipelines.EvSetGrad true; Pipelines.EvModelTrain true;
       Pipelines.EvPostprocess (Pipelines.mkArray (Torch.zeros [0; 6]) Pipelines.float32)].
Proof. reflexivity. Qed.

(** Without an image processor the first preprocessing raises, before
    the model is touched. *)
Example call_without_processor :
  @Pipelines.__call__ nat nat nat ex_external
    (Pipelines.mkDetectionPipeline (Pipelines.mkPipeline (Some "cuda") None)
                                   ex_callback ["person"])
    (Pipelines.Single 3) ex_world
  = (None, Pipelines.mkWorld (Pipelines.mkModel true "cuda") true
             [Pipelines.EvModelTo (Some "cuda"); Pipelines.EvLoadImages]).
Proof. reflexivity. Qed.

(** A body that raises leaves the model in evaluation mode: the generator
    of [eval_mode] has no [try]. *)
Example eval_mode_raise :
  @Pipelines.eval_mode nat Pipelines.raise ex_world
  = (None, Pipelines.mkWorld (Pipelines.mkModel false "cpu") true
             [Pipelines.EvModelTrain false; Pipelines.EvSetGrad false;
              Pipelines.EvSetGrad true]).
Proof. reflexivity. Qed.

Example kd_modes :
  let h := KD.exec_all ex_kd [KD.OpTrain true]
             (snd (@KD.__init__ nat nat unit (list nat) unit ex_arch tt ex_heap)) in
  (KD.training h !! 0, KD.training h !! 1, KD.requires_grad h !! 10, KD.requires_grad h !! 11)
  = (Some true, Some false, Some false, Some false).
Proof. vm_compute. reflexivity. Qed.

End RunExamples.

(** ** The statements at the concrete instances *)

Section Witnesses.
Import Examples.

Lemma reg_dist_reduce_expected_witness :
  exists out,
    DflHeads.reg_dist_reduce ex_self ex_reg (1 * 1) = Some out /\
    Torch.shape out = [1; 1 * 1; 4] /\
    Torch.get out [0; 0 * 1 + 0; 3]
    = DflHeads.expected_bin (fun j => Torch.get ex_reg [0; 3 * (1 + 1) + j; 0; 0]) (1 + 1).
Proof.
  refine (proj2 (proj2 (reg_dist_reduce_expected (PP := ex_ppyoloe) ex_self ex_reg
                          1 1 1 0 0 0 3 _ _ _ _ _ _)));
    [ apply (@DflHeads.constructed_init ex_ppyoloe 1 [ex_head] [8] 5%R (1/2)%R 1
               (Some (8, 8))); reflexivity
    | reflexivity | lia | lia | lia | lia ].
Defined.



Lemma run_eval_mode_restored_witness :
  Pipelines.training
    (Pipelines.model
       (snd (@Pipelines._run nat nat nat ex_external ex_pipeline
               (Pipelines._decode_model_output ex_detection)
               (Pipelines.Single 3) ex_world))) = true /\
  exists before inputs after,
    Pipelines.trace (snd (@Pipelines._run nat nat nat ex_external ex_pipeline
                            (Pipelines._decode_model_output ex_detection)
                            (Pipelines.Single 3) ex_world))
    = before
      ++ [Pipelines.EvModelTrain false; Pipelines.EvSetGrad false;
          Pipelines.EvForward (Pipelines.mkModel false "cuda") false inputs;
          Pipelines.EvDecode;
          Pipelines.EvSetGrad true; Pipelines.EvModelTrain true]
      ++ after.
Proof.
  destruct (run_eval_mode_restored (Ext := ex_external) ex_pipeline
              (Pipelines._decode_model_output ex_detection) (Pipelines.Single 3) ex_world)
    as (_ & Htraining & _ & es & Htrace & _ & Hone).
  split; [exact Htraining|].
  destruct Hone as (before & inputs & after & -> & _); [discriminate|].
  exists before, inputs, after. exact Htrace.
Defined.

Lemma run_on_configured_device_witness :
  exists before after m inputs,
    Pipelines.trace (snd (@Pipelines._run nat nat nat ex_external ex_pipeline
                            (Pipelines._decode_model_output ex_detection)
                            (Pipelines.Single 3) ex_world))
    = Pipelines.EvModelTo (Some "cuda") :: before
        ++ Pipelines.EvForward m false inputs :: after /\
    Pipelines.model_device m = "cuda" /\
    Pipelines.tensor_device inputs = "cuda".
Proof.
  destruct (run_on_configured_device (Ext := ex_external) (Some (inl ex_processing)) "cuda"
              ex_world
              (Pipelines.mkWorld (Pipelines.mkModel true "cuda") true
                                 [Pipelines.EvModelTo (Some "cuda")])
              ex_pipeline (Pipelines._decode_model_output ex_detection)
              (Pipelines.Single 3) ex_world eq_refl)
    as (_ & _ & es & Htrace & Hfwd & _ & Hone).
  destruct Hone as (before & m & inputs & after & -> & _); [discriminate|].
  exists before, after, m, inputs. split; [exact Htrace|].
  apply (Hfwd m false inputs). apply in_or_app. right. left. reflexivity.
Defined.

Lemma decode_model_output_replaces_none_witness :
  nth_error (Pipelines._decode_model_output ex_detection 0) 0
  = Some (Some (Pipelines.torch_zeros [0; 6] Pipelines.float32)) /\
  nth_error (Pipelines._decode_model_output ex_detection 0) 1
  = Some (Some (Pipelines.torch_zeros [2; 6] Pipelines.float32)).
Proof.
  destruct (decode_model_output_replaces_none ex_detection 0) as (_ & Hnone & Hsome & _).
  split; [apply Hnone; reflexivity | apply Hsome; reflexivity].
Defined.

Lemma ex_kd_init : @KD.__init__ nat nat unit (list nat) unit ex_arch tt ex_heap
                   = (ex_kd, snd (@KD.__init__ nat nat unit (list nat) unit ex_arch tt ex_heap)).
Proof. reflexivity. Qed.

Lemma ex_kd_keep_frozen : KD.external_keep_frozen ex_kd.
Proof. constructor; intros; intros h p Hp Hf; exact Hf. Qed.

Lemma ex_kd_keeps_mode : KD.student_keeps_teacher_mode ex_kd.
Proof.
  constructor; [intros mode|]; intros h m Hm; cbn in Hm;
    apply list_elem_of_singleton in Hm; subst m; cbn; apply lookup_insert_ne; discriminate.
Qed.

Lemma teacher_stays_frozen_witness :
  KD.frozen ex_teacher
    (KD.exec_all ex_kd [KD.OpTrain true; KD.OpForward 4; KD.OpReplaceHead tt; KD.OpEval]
       (snd (@KD.__init__ nat nat unit (list nat) unit ex_arch tt ex_heap))).
Proof.
  exact (proj2 (teacher_stays_frozen (AP := ex_arch) tt ex_heap _ ex_kd
                  [KD.OpTrain true; KD.OpForward 4; KD.OpReplaceHead tt; KD.OpEval]
                  ex_kd_init ex_kd_keep_frozen)).
Defined.

Lemma teacher_on_eval_never_trains_witness :
  KD.in_eval_mode ex_teacher
    (KD.exec_all ex_kd [KD.OpTrain true; KD.OpEval; KD.OpTrain true]
       (snd (@KD.__init__ nat nat unit (list nat) unit ex_arch tt ex_heap))).
Proof.
  exact (proj2 (proj2 (proj2
           (teacher_on_eval_never_trains (AP := ex_arch) tt ex_heap _ ex_kd
              [KD.OpTrain true; KD.OpEval; KD.OpTrain true]
              ex_kd_init eq_refl ex_kd_keeps_mode eq_refl)))).
Defined.

End Witnesses.

(** ** The further statements at the concrete instances *)

Section FurtherWitnesses.
Import Examples.

Lemma ex_self_constructed : @DflHeads.constructed ex_ppyoloe ex_self.
Proof.
  apply (@DflHeads.constructed_init ex_ppyoloe 1 [ex_head] [8] 5%R (1/2)%R 1 (Some (8, 8))).
  reflexivity.
Qed.

Lemma reg_dist_reduce_bounded_witness :
  exists out,
    DflHeads.reg_dist_reduce ex_self ex_reg (1 * 1) = Some out /\
    Rle 0 (Torch.get out [0; 0 * 1 + 0; 2]) /\ Rle (Torch.get out [0; 0 * 1 + 0; 2]) (INR 1).
Proof.
  destruct (reg_dist_reduce_bounded (PP := ex_ppyoloe) ex_self ex_reg 1 1 1
              ex_self_constructed eq_refl ltac:(lia) ltac:(lia)) as (out & Hout & Hb).
  exists out. split; [exact Hout|]. apply (Hb 0 0 0 2); lia.
Defined.

Lemma reg_dist_reduce_shift_witness :
  exists out out',
    DflHeads.reg_dist_reduce ex_self ex_reg (1 * 1) = Some out /\
    DflHeads.reg_dist_reduce ex_self ex_reg_shifted (1 * 1) = Some out' /\
    Torch.get out' [0; 0 * 1 + 0; 0] = Torch.get out [0; 0 * 1 + 0; 0].
Proof.
  apply (reg_dist_reduce_shift (PP := ex_ppyoloe) ex_self ex_reg ex_reg_shifted 1 1 1 0 0 0 0 5%R
           ex_self_constructed eq_refl eq_refl); try lia.
  intros [|[|j]] Hj; [reflexivity|reflexivity|cbn in Hj; lia].
Defined.

Lemma reg_dist_reduce_uniform_witness :
  exists out,
    DflHeads.reg_dist_reduce ex_self ex_reg (1 * 1) = Some out /\
    Torch.get out [0; 0 * 1 + 0; 2] = Rdiv (INR 1) 2.
Proof.
  apply (reg_dist_reduce_uniform (PP := ex_ppyoloe) ex_self ex_reg 1 1 1 0 0 0 2 1%R
           ex_self_constructed eq_refl); try lia.
  intros [|[|j]] Hj; [reflexivity|reflexivity|cbn in Hj; lia].
Defined.



Lemma ex_level_ok : Forall (DflHeads.level_ok ex_self 1) [ex_level].
Proof. repeat constructor. Qed.

Lemma ex_level_heads j lv :
  nth_error [ex_level] j = Some lv ->
  nth_error (DflHeads.heads ex_self) j = Some (DflHeads.lv_head lv).
Proof. destruct j as [|j]; [intros [= <-]; reflexivity|destruct j; discriminate]. Qed.

Lemma forward_train_outputs_witness :
  exists cls reg,
    @DflHeads.forward_train ex_ppyoloe ex_self (map DflHeads.lv_feat [ex_level])
    = Some (cls, reg, ex_anchor_points, ex_anchor_points, [1], ex_stride_tensor) /\
    Torch.shape cls = [1; 1; 1] /\ Torch.shape reg = [1; 1; 8].
Proof.
  destruct (forward_train_outputs (PP := ex_ppyoloe) ex_self 1 [ex_level]
              ex_anchor_points ex_anchor_points [1] ex_stride_tensor
              ltac:(discriminate) ex_level_ok ex_level_heads eq_refl)
    as (cls & reg & Ht & Hc & Hr & _).
  exists cls, reg. repeat split; assumption.
Defined.

Lemma ex_forward_eval_full :
  exists d cls reg,
    @DflHeads.forward_eval ex_ppyoloe ex_self false (map DflHeads.lv_feat [ex_level])
    = Some (DflHeads.Full d (cls, reg, ex_anchor_points, ex_anchor_points, [1],
                             ex_stride_tensor)).
Proof. eexists. eexists. eexists. reflexivity. Qed.

Lemma forward_eval_raw_is_train_witness :
  exists cls reg st_grid,
    @DflHeads.forward_train ex_ppyoloe ex_self (map DflHeads.lv_feat [ex_level])
    = Some (cls, reg, ex_anchor_points, ex_anchor_points, [1], st_grid).
Proof.
  destruct ex_forward_eval_full as (d & cls & reg & Hout).
  destruct (forward_eval_raw_is_train (PP := ex_ppyoloe) ex_self 1 [ex_level] d cls reg
              ex_anchor_points ex_anchor_points [1] ex_stride_tensor
              ex_self_constructed ex_level_ok ex_level_heads Hout)
    as (st_grid & api & Ht & _).
  exists cls, reg, st_grid. exact Ht.
Defined.

Lemma forward_rejects_witness :
  @DflHeads.forward ex_ppyoloe ex_self true false [ex_feat; ex_feat] = None.
Proof.
  apply (forward_rejects (PP := ex_ppyoloe) ex_self true false [ex_feat; ex_feat]).
  right. cbn. lia.
Defined.

Lemma forward_eval_rank_witness :
  @DflHeads.forward_eval ex_ppyoloe ex_self false [Torch.zeros [1; 4]] = None.
Proof.
  apply (forward_eval_rank (PP := ex_ppyoloe) ex_self false [Torch.zeros [1; 4]]).
  constructor. cbn. lia.
Defined.

Lemma cache_anchors_spec_witness :
  exists self',
    @DflHeads.cache_anchors ex_ppyoloe ex_self (4, 4) = Some self' /\
    DflHeads.eval_size self' = Some (4, 4) /\
    @DflHeads.inference_anchors ex_ppyoloe self' [] = Some (ex_anchor_points, ex_stride_tensor).
Proof.
  eexists. split; [reflexivity|].
  destruct (cache_anchors_spec (PP := ex_ppyoloe) ex_self _ (4, 4) eq_refl)
    as (Hsz & _ & _ & _ & _ & ap & st & Hgen & Hinf).
  split; [exact Hsz|]. rewrite (Hinf []). injection Hgen as <- <-. reflexivity.
Defined.

Lemma ex_modules_ok : @DflHead.modules_ok ex_modules.
Proof.
  assert (Hv : forall a, ex_groups_valid a = true <-> DflHead.groups_valid a).
  { intros a. unfold ex_groups_valid, DflHead.groups_valid.
    rewrite !andb_true_iff, Z.ltb_lt, !Z.eqb_eq. tauto. }
  assert (Hshape : forall a, DflHead.layer_shapes a (DflHead.mkLayer a None (ex_fn a)) /\
                    forall b, DflHead.layer_shapes a (DflHead.mkLayer a b (ex_fn a))).
  { intros a.
    assert (Hl : forall b, DflHead.layer_shapes a (DflHead.mkLayer a b (ex_fn a))).
    { intros b0 b x B C H W _ Hx HC HH HW. cbn [DflHead.fn]. unfold ex_fn. rewrite Hx.
      apply Z.eqb_eq in HC. rewrite HC.
      apply Nat.leb_le in HH, HW. rewrite HH, HW. cbn [andb].
      eexists. split; reflexivity. }
    split; [apply Hl|exact Hl]. }
  constructor.
  - intros seed a Hn. cbn. destruct (ex_groups_valid a) eqn:E; [|reflexivity].
    apply Hv in E. contradiction.
  - intros seed a Hn. cbn. destruct (ex_groups_valid a) eqn:E; [|reflexivity].
    apply Hv in E. contradiction.
  - intros seed a Ha _ _. cbn. apply Hv in Ha. rewrite Ha. eexists. reflexivity.
  - intros seed a Ha _ _. cbn. apply Hv in Ha. rewrite Ha. eexists. reflexivity.
  - intros seed a l. cbn. destruct (ex_groups_valid a); [|discriminate].
    intros [= <-]. split; [reflexivity|]. split; [reflexivity|]. apply Hshape.
  - intros seed a l. cbn. destruct (ex_groups_valid a); [|discriminate].
    intros [= <-]. split; [reflexivity|]. split; [apply Hshape|].
    intros Hb. cbn [DflHead.bias]. rewrite Hb. eexists. split; [reflexivity|].
    split; [reflexivity|]. unfold Torch.well_formed, Torch.zeros. cbn [Torch.shape Torch.data].
    apply repeat_length.
Qed.

Lemma ex_head_init :
  exists head, @DflHead.__init__ ex_modules ex_seeds 3 8 1%R 4 1 8 1 = Some head.
Proof.
  unfold DflHead.__init__. cbn -[DflHead._initialize_biases Z.div Z.modulo].
  unfold DflHead._initialize_biases.
  cbn [DflHead.prior_prob DflHead.cls_pred DflHead.bias].
  destruct (Req_dec_T (1 / 100) 0) as [E|_]; [lra|].
  destruct (Rlt_dec 0 ((1 - 1 / 100) / (1 / 100))) as [_|Hn]; [|exfalso; apply Hn; lra].
  eexists. reflexivity.
Qed.

Lemma head_forward_shapes_witness :
  exists head reg_output cls_output,
    @DflHead.__init__ ex_modules ex_seeds 3 8 1%R 4 1 8 1 = Some head /\
    DflHead.forward head ex_map = Some (reg_output, cls_output) /\
    Torch.shape reg_output = [1; 8; 2; 2] /\ Torch.shape cls_output = [1; 1; 2; 2].
Proof.
  destruct ex_head_init as (head & Hinit).
  destruct (head_forward_shapes (MD := ex_modules) ex_seeds 3 8 1%R 4 1 8 1 head ex_map
              1 3 2 2 ex_modules_ok Hinit ltac:(cbn; lia) eq_refl eq_refl
              ltac:(lia) ltac:(lia)) as (ro & co & Hf & Hro & Hco).
  exists head, ro, co. repeat split; assumption.
Defined.

Lemma head_level_ok_witness :
  exists head reg_output cls_output,
    @DflHead.__init__ ex_modules ex_seeds 3 8 1%R 4 1 8 1 = Some head /\
    DflHeads.level_ok ex_self 1
      (DflHeads.mkLevel ex_map (DflHead.forward head) reg_output cls_output 3 2 2).
Proof.
  destruct ex_head_init as (head & Hinit).
  destruct (head_level_ok (MD := ex_modules) ex_self ex_seeds 3 8 1%R 4 8 head ex_map
              1 3 2 2 ex_modules_ok Hinit ltac:(cbn; lia) eq_refl eq_refl
              ltac:(lia) ltac:(lia)) as (ro & co & Hok).
  exists head, ro, co. split; [exact Hinit|exact Hok].
Defined.

Lemma head_init_raises_witness :
  @DflHead.__init__ ex_modules ex_seeds 3 8 1%R (-2) 1 8 1 = None /\
  @DflHead.__init__ ex_modules ex_seeds 3 10 1%R 3 1 8 1 = None.
Proof.
  split.
  - apply (head_init_raises (MD := ex_modules) ex_seeds 3 8 1%R (-2) 1 8 1 ex_modules_ok).
    left. cbn. lia.
  - apply (head_init_raises (MD := ex_modules) ex_seeds 3 10 1%R 3 1 8 1 ex_modules_ok).
    right. split; vm_compute; discriminate.
Defined.

Lemma head_init_builds_witness :
  exists head,
    @DflHead.__init__ ex_modules ex_seeds 3 8 1%R 9 1 8 1 = Some head /\
    length (DflHead.cls_convs head) = 1 /\ length (DflHead.reg_convs head) = 1.
Proof.
  apply (head_init_builds (MD := ex_modules) ex_seeds 3 8 1%R 9 1 8 1 ex_modules_ok);
    [cbn; lia|cbn; lia|lia|lia|left; reflexivity].
Defined.


Lemma initialize_biases_raises_witness :
  DflHead._initialize_biases
    (DflHead.mkDeciYOLODFLHead 1 (DflHead.stem ex_bare_head) [] []
       (DflHead.stem ex_bare_head) (DflHead.reg_pred ex_bare_head) (Torch.zeros [1]) 8
       (1 / 2)%R) = None.
Proof. apply initialize_biases_raises. right. right. reflexivity. Defined.

Lemma eval_mode_body_raises_witness :
  fst (@Pipelines.eval_mode nat Pipelines.raise ex_world) = None /\
  Pipelines.grad_enabled (snd (@Pipelines.eval_mode nat Pipelines.raise ex_world)) = true /\
  Pipelines.training (Pipelines.model (snd (@Pipelines.eval_mode nat Pipelines.raise ex_world)))
  = false.
Proof.
  destruct (eval_mode_body_raises (A := nat) Pipelines.raise ex_world
              (Pipelines.eval_mode_entry ex_world) eq_refl) as (Hr & Hg & _ & _ & Ht).
  split; [exact Hr|]. split; [exact Hg|]. apply Ht. reflexivity.
Defined.

Lemma call_without_processor_raises_witness :
  fst (@Pipelines.__call__ nat nat nat ex_external
         (Pipelines.mkDetectionPipeline (Pipelines.mkPipeline (Some "cuda") None)
                                        ex_callback ["person"])
         (Pipelines.Single 3) ex_world) = None.
Proof.
  rewrite (call_without_processor_raises (Ext := ex_external)
             (Pipelines.mkDetectionPipeline (Pipelines.mkPipeline (Some "cuda") None)
                                            ex_callback ["person"])
             (Pipelines.Single 3) ex_world eq_refl ltac:(discriminate)).
  reflexivity.
Defined.

Lemma call_predictions_length_witness :
  exists res w',
    @Pipelines.__call__ nat nat nat ex_external ex_detection
      (Pipelines.Several [3; 5; 7]) ex_world = (Some res, w') /\
    length (Pipelines.results_images res) = 3 /\
    length (Pipelines.results_predictions res) = 2.
Proof.
  destruct (call_predictions_length (Ext := ex_external) ex_detection ex_processing
              (Pipelines.Several [3; 5; 7]) ex_world eq_refl) as (res & w' & Hc & Hi & Hp).
  exists res, w'. split; [exact Hc|]. split; [exact Hi|exact Hp].
Defined.

Lemma run_none_prediction_raises_witness :
  fst (@Pipelines._run nat nat nat ex_external ex_pipeline (fun _ => [None])
         (Pipelines.Single 3) ex_world) = None.
Proof.
  apply (run_none_prediction_raises (Ext := ex_external) ex_pipeline ex_processing
           (fun _ => [None]) (Pipelines.Single 3) ex_world 0 eq_refl);
    [cbn; lia|reflexivity].
Defined.

Lemma train_sets_teacher_mode_witness :
  KD.training (KD.train ex_kd_follow true ex_heap) !! 1 = Some true.
Proof.
  apply (train_sets_teacher_mode ex_kd_follow true ex_heap eq_refl).
  apply elem_of_cons. left. reflexivity.
Defined.

End FurtherWitnesses.

Section CollateWitnesses.
Import Examples.

Lemma ex_sample_rows :
  exists n, Torch.shape (Collate.targets ex_sample) = [n; 5] /\
    n < Collate.max_targets ex_collate /\
    forall j, j < n ->
      (0 < Torch.sumR (fun k => Torch.get (Collate.targets ex_sample) [j; k]) 5)%R.
Proof.
  exists 1. split; [reflexivity|]. split; [cbn; lia|].
  intros j Hj. assert (j = 0) by lia. subst j.
  unfold Torch.sumR, Torch.get. cbn. lra.
Qed.

Lemma pad_targets_spec_witness :
  exists data' s',
    Collate._pad_targets ex_collate [ex_sample; ex_long_sample] = Some data' /\
    length data' = 2 /\
    nth_error data' 0 = Some s' /\ Collate.padded ex_collate ex_sample s'.
Proof.
  destruct (pad_targets_spec ex_collate [ex_sample; ex_long_sample])
    as (data' & Hpad & Hlen & Hrows).
  - repeat constructor; eexists; reflexivity.
  - destruct (Hrows 0 ex_sample eq_refl) as (s' & Hs' & Hp).
    exists data', s'. split; [exact Hpad|]. split; [exact Hlen|]. split; [exact Hs'|exact Hp].
Defined.

Lemma call_merges_first_rows_witness :
  exists out,
    Collate.__call__ ex_collate_images ex_collate_train [ex_sample] = Some ([7], out) /\
    Torch.shape out
    = [Collate.rows_before (Collate.kept_rows [ex_sample] 1 5) 1; 6].
Proof.
  destruct (call_merges_first_rows ex_collate_images ex_collate_train [ex_sample] 1 5 [7]
              eq_refl) as (out & Hc & Hs & _).
  - cbn. lra.
  - discriminate.
  - repeat constructor.
  - reflexivity.
  - exists out. split; assumption.
Defined.

Lemma call_val_rows_witness :
  exists out,
    Collate.__call__ ex_collate_images ex_collate [ex_sample] = Some ([7], out) /\
    Torch.shape out = [1; 6] /\
    Torch.get out [0; 0] = INR 0 /\
    Torch.get out [0; 1] = 2%R /\
    Torch.get out [0; 2] = Rdiv 10 2.
Proof.
  destruct (call_val_rows ex_collate_images ex_collate [ex_sample] [7] eq_refl)
    as (out & Hc & Hs & Hrows).
  - cbn. lra.
  - discriminate.
  - constructor; [exact ex_sample_rows|constructor].
  - reflexivity.
  - exists out. split; [exact Hc|]. split; [exact Hs|].
    destruct (Hrows 0 0) as (H0 & H1 & H2); [cbn; lia|cbn; lia|].
    split; [exact H0|]. split; [exact H1|]. exact (H2 0 ltac:(lia)).
Defined.

Lemma call_rejects_witness :
  Collate.__call__ ex_collate_images ex_collate_train [ex_sample; ex_long_sample] = None.
Proof.
  apply (call_rejects ex_collate_images ex_collate_train [ex_sample; ex_long_sample] eq_refl).
  right. left. exists ex_sample, ex_long_sample.
  split; [left; reflexivity|]. split; [right; left; reflexivity|]. discriminate.
Defined.

Lemma call_val_long_sample_witness :
  Collate.__call__ ex_collate_images ex_collate [ex_sample; ex_long_sample] = None.
Proof.
  apply (call_val_long_sample ex_collate_images ex_collate [ex_sample; ex_long_sample]
           ex_sample ex_long_sample 1 4 eq_refl).
  - repeat constructor; eexists; reflexivity.
  - left. reflexivity.
  - reflexivity.
  - cbn. lia.
  - right. left. reflexivity.
  - reflexivity.
  - cbn. lia.
Defined.

End CollateWitnesses.
